(** * A shallow embedding of the segregated-list allocator of [mm.c]

    The heap is a byte-addressed memory; boundary tags are 32-bit words
    read and written through it.  The allocator's globals, the arena
    bounds of memlib and the free lists are gathered in one [state], and
    every routine of [mm.c] is a computation in a state-and-failure monad
    whose failure stands for an [assert] that does not hold (or for a
    list operation applied to a link that is in no list). *)

From Stdlib Require Import ZArith List Lia Bool Permutation.
Import ListNotations.
Open Scope Z_scope.

(** ** Machine integers and pointers *)

(** Conversion to [size_t]: 64-bit unsigned wrap-around. *)
Definition size_t (z : Z) : Z := z mod 2 ^ 64.

(** Conversion to [int]: 32-bit two's complement. *)
Definition to_int (z : Z) : Z := (z + 2 ^ 31) mod 2 ^ 32 - 2 ^ 31.

Definition NULL : Z := 0.

(** Pointer arithmetic on 64-bit addresses. *)
Definition ptr_add (p off : Z) : Z := size_t (p + off).
Definition ptr_sub (p off : Z) : Z := size_t (p - off).

(** ** Byte-addressed memory *)

Definition memory : Type := Z -> Z.

Definition load8 (m : memory) (a : Z) : Z := m a mod 256.

Definition load32 (m : memory) (a : Z) : Z :=
  load8 m a + 2 ^ 8 * load8 m (a + 1) + 2 ^ 16 * load8 m (a + 2)
  + 2 ^ 24 * load8 m (a + 3).

(** Little-endian store of the low 32 bits of [w]. *)
Definition store32 (m : memory) (a w : Z) : memory :=
  fun x => if (a <=? x) && (x <? a + 4)
           then (w / 2 ^ (8 * (x - a))) mod 256
           else m x.

(** [memmove(dst, src, n)]: the source bytes are read before any is written. *)
Definition memmove (m : memory) (dst src n : Z) : memory :=
  fun x => if (dst <=? x) && (x <? dst + n)
           then load8 m (src + (x - dst))
           else m x.

(** [memcpy(dst, src, n)]; the allocator only calls it on disjoint ranges,
    where it copies exactly as [memmove] does. *)
Definition memcpy (m : memory) (dst src n : Z) : memory := memmove m dst src n.

(** ** Boundary tags *)

(** [struct boundary_tag { int inuse:1; int size:31; }]: bit 0 of the word is
    the in-use bit, bits 1..31 the size in words (a signed 31-bit field). *)
Record boundary_tag := mkTag { inuse : bool; size : Z }.

Definition FENCE : boundary_tag := {| inuse := true; size := 0 |}.

(** The 32-bit word of a tag; an assigned size keeps its low 31 bits. *)
Definition tag_word (t : boundary_tag) : Z :=
  Z.lor (Z.b2z (inuse t)) (Z.shiftl (Z.land (size t) (2 ^ 31 - 1)) 1).

(** Sign extension of a 31-bit field. *)
Definition sext31 (z : Z) : Z := if z <? 2 ^ 30 then z else z - 2 ^ 31.

Definition word_tag (w : Z) : boundary_tag :=
  {| inuse := Z.testbit w 0;
     size := sext31 (Z.land (Z.shiftr w 1) (2 ^ 31 - 1)) |}.

Definition load_tag (m : memory) (a : Z) : boundary_tag := word_tag (load32 m a).
Definition store_tag (m : memory) (a : Z) (t : boundary_tag) : memory :=
  store32 m a (tag_word t).

(** ** Basic constants *)

Definition WSIZE : Z := 4.                  (* sizeof(struct boundary_tag) *)
Definition MIN_BLOCK_SIZE_WORDS : Z := 8.
Definition CHUNKSIZE : Z := 2 ^ 7.          (* 1<<7 *)
Definition NUM_SIZE_CLASSES : nat := 10.

(** Modelled from the spec: [config.h], which defines [ALIGNMENT], is absent;
    the spec gives the arena's alignment constant as 16 bytes, and the layout
    comment of [struct block] (payloads at 0 mod 16) agrees. *)
Definition ALIGNMENT : Z := 16.

Definition max (x y : Z) : Z := if x >? y then x else y.

Definition align (size : Z) : Z :=
  Z.land (size_t (size + ALIGNMENT - 1)) (size_t (Z.lnot (ALIGNMENT - 1))).

Definition is_aligned (size : Z) : bool := size mod ALIGNMENT =? 0.

(** ** Allocator state *)

(** A record of every assignment to a boundary tag: either a call of
    [set_header_and_footer], or a tag assigned directly through a pointer. *)
Inductive tag_write : Type :=
| PairWrite (blk sz : Z) (used : bool)
| DirectWrite (addr : Z) (t : boundary_tag).

Record state := mkState {
  mem : memory;                       (* the bytes of the arena *)
  mem_brk : Z;                        (* memlib: current end of the arena *)
  mem_max_addr : Z;                   (* memlib: the arena cannot grow past it *)
  heap_listp : Z;                     (* pointer to first block *)
  segregatedList : list (list Z);     (* the free lists, front first *)
  tag_writes : list tag_write         (* most recent first *)
}.

Definition set_mem (m : memory) (st : state) : state :=
  mkState m (mem_brk st) (mem_max_addr st) (heap_listp st)
          (segregatedList st) (tag_writes st).
Definition set_mem_brk (b : Z) (st : state) : state :=
  mkState (mem st) b (mem_max_addr st) (heap_listp st)
          (segregatedList st) (tag_writes st).
Definition set_heap_listp (h : Z) (st : state) : state :=
  mkState (mem st) (mem_brk st) (mem_max_addr st) h
          (segregatedList st) (tag_writes st).
Definition set_segregatedList (l : list (list Z)) (st : state) : state :=
  mkState (mem st) (mem_brk st) (mem_max_addr st) (heap_listp st)
          l (tag_writes st).
Definition log_write (w : tag_write) (st : state) : state :=
  mkState (mem st) (mem_brk st) (mem_max_addr st) (heap_listp st)
          (segregatedList st) (w :: tag_writes st).

(** ** The monad of allocator routines *)

Definition M (A : Type) : Type := state -> option (A * state).

Definition ret {A} (a : A) : M A := fun st => Some (a, st).
Definition bind {A B} (c : M A) (k : A -> M B) : M B :=
  fun st => match c st with
            | Some (a, st') => k a st'
            | None => None
            end.
Definition assert (b : bool) : M unit :=
  fun st => if b then Some (tt, st) else None.
Definition gets {A} (f : state -> A) : M A := fun st => Some (f st, st).
Definition rd {A} (f : memory -> A) : M A := fun st => Some (f (mem st), st).
Definition modify (f : state -> state) : M unit := fun st => Some (tt, f st).

Notation "x <- c ;; k" := (bind c (fun x => k))
  (at level 61, c at next level, right associativity).
Notation "c ;; k" := (bind c (fun _ => k))
  (at level 61, right associativity).

(** ** memlib *)

(** Modelled from the spec: [memlib.h] is absent.  The heap-growth primitive
    "returns the start of byteCount freshly appended bytes at the current end
    of the arena, or fails (arena exhausted)"; growth never relocates
    existing bytes.  Failure is the null pointer and changes nothing. *)
Definition mem_sbrk (incr : Z) : M Z := fun st =>
  if (incr <? 0) || (mem_max_addr st <? mem_brk st + incr)
  then Some (NULL, st)
  else Some (mem_brk st, set_mem_brk (mem_brk st + incr) st).

(** ** The list primitive *)

Fixpoint upd_nth {A} (i : nat) (f : A -> A) (l : list A) : list A :=
  match l, i with
  | [], _ => []
  | x :: l', O => f x :: l'
  | x :: l', S i' => x :: upd_nth i' f l'
  end.

Definition Z_mem (e : Z) (l : list Z) : bool := existsb (Z.eqb e) l.

(** Modelled from the spec: [list.h] is absent.  The free-list primitive is
    an intrusive doubly linked list with "push-front, O(1) removal given a
    link, forward iteration".  A list is kept as the sequence of the blocks
    whose links it holds, front first; the link words inside free payloads
    are not represented. *)
Definition list_init (i : nat) : M unit :=
  modify (fun st => set_segregatedList (upd_nth i (fun _ => []) (segregatedList st)) st).

(** Modelled from the spec: [list.h] is absent; "push-front": the block
    becomes the front of the list. *)
Definition list_push_front (i : nat) (e : Z) : M unit :=
  modify (fun st => set_segregatedList (upd_nth i (cons e) (segregatedList st)) st).

(** Modelled from the spec: [list.h] is absent; "O(1) removal given a
    link": removal needs only the link and unlinks [e] from whichever list
    holds it.  A link that is in no list has no meaningful neighbours:
    failure. *)
Definition list_remove (e : Z) : M unit := fun st =>
  if Z_mem e (concat (segregatedList st))
  then Some (tt, set_segregatedList
                   (map (remove Z.eq_dec e) (segregatedList st)) st)
  else None.

(** ** Block layout (mm.c, lines 85-136) *)

Definition prev_blk_footer (blk : Z) : Z := ptr_sub blk WSIZE.

Definition blk_free (m : memory) (blk : Z) : bool :=
  negb (inuse (load_tag m blk)).

Definition blk_size (m : memory) (blk : Z) : Z :=
  size_t (size (load_tag m blk)).

Definition prev_blk (blk : Z) : M Z :=
  prevfooter <- rd (fun m => load_tag m (prev_blk_footer blk)) ;;
  assert (negb (size prevfooter =? 0)) ;;
  ret (ptr_sub blk (size_t (WSIZE * size_t (size prevfooter)))).

Definition next_blk (m : memory) (blk : Z) : Z :=
  ptr_add blk (size_t (WSIZE * size_t (size (load_tag m blk)))).

Definition get_footer (m : memory) (blk : Z) : Z :=
  ptr_sub (ptr_add blk (size_t (WSIZE * size_t (size (load_tag m blk))))) 4.

(** The direct assignment of a tag through a pointer. *)
Definition assign_tag (addr : Z) (t : boundary_tag) : M unit :=
  modify (fun st => log_write (DirectWrite addr t)
                      (set_mem (store_tag (mem st) addr t) st)).

(** The arguments are C [int]s: the in-use field keeps the low bit, the size
    field the low 31 bits; the footer is located through the header just
    written and receives a copy of it. *)
Definition set_header_and_footer (blk sz used : Z) : M unit :=
  modify (fun st =>
    let m1 := store_tag (mem st) blk
                {| inuse := Z.odd (to_int used); size := to_int sz |} in
    let m2 := store_tag m1 (get_footer m1 blk) (load_tag m1 blk) in
    log_write (PairWrite blk (to_int sz) (Z.odd (to_int used))) (set_mem m2 st)).

Definition mark_block_used (blk sz : Z) : M unit := set_header_and_footer blk sz 1.
Definition mark_block_free (blk sz : Z) : M unit := set_header_and_footer blk sz 0.

(** [bp->payload]: [offsetof(struct block, payload) == 4]. *)
Definition payload (bp : Z) : Z := ptr_add bp 4.
Definition block_of (ptr : Z) : Z := ptr_sub ptr 4.

(** ** Helper routines (mm.c, lines 321-472) *)

Definition size_class (blkSize : Z) : nat :=
  if blkSize <=? 128 then 0%nat
  else if blkSize <=? 256 then 1%nat
  else if blkSize <=? 512 then 2%nat
  else if blkSize <=? 1024 then 3%nat
  else if blkSize <=? 2048 then 4%nat
  else if blkSize <=? 4096 then 5%nat
  else if blkSize <=? 8192 then 6%nat
  else if blkSize <=? 16384 then 7%nat
  else if blkSize <=? 32768 then 8%nat
  else 9%nat.

Definition segregatedListAdd (bp : Z) : M unit :=
  assert (negb (bp =? NULL)) ;;
  blkSize <- rd (fun m => to_int (blk_size m bp)) ;;
  list_push_front (size_class blkSize) bp.

Definition coalesce (bp : Z) : M Z :=
  assert (negb (bp =? NULL)) ;;
  prev_alloc <- rd (fun m => inuse (load_tag m (prev_blk_footer bp))) ;;
  next_alloc <- rd (fun m => negb (blk_free m (next_blk m bp))) ;;
  sz <- rd (fun m => blk_size m bp) ;;
  assert (sz >? 0) ;;
  if prev_alloc && next_alloc then                       (* Case 1 *)
    segregatedListAdd bp ;;
    ret bp
  else if prev_alloc && negb next_alloc then             (* Case 2 *)
    nb <- rd (fun m => next_blk m bp) ;;
    list_remove nb ;;
    nsz <- rd (fun m => blk_size m (next_blk m bp)) ;;
    mark_block_free bp (size_t (sz + nsz)) ;;
    segregatedListAdd bp ;;
    ret bp
  else if negb prev_alloc && next_alloc then             (* Case 3 *)
    pb <- prev_blk bp ;;
    list_remove pb ;;
    bp <- prev_blk bp ;;
    psz <- rd (fun m => blk_size m bp) ;;
    mark_block_free bp (size_t (sz + psz)) ;;
    segregatedListAdd bp ;;
    ret bp
  else                                                   (* Case 4 *)
    pb <- prev_blk bp ;;
    list_remove pb ;;
    nb <- rd (fun m => next_blk m bp) ;;
    list_remove nb ;;
    pb <- prev_blk bp ;;
    nsz <- rd (fun m => blk_size m (next_blk m bp)) ;;
    pb' <- prev_blk bp ;;
    psz <- rd (fun m => blk_size m pb') ;;
    mark_block_free pb (size_t (size_t (sz + nsz) + psz)) ;;
    bp <- prev_blk bp ;;
    segregatedListAdd bp ;;
    ret bp.

Definition mm_checkheap (verbose : Z) : M unit := ret tt.

Definition extend_heap (words : Z) : M Z :=
  bp <- mem_sbrk (size_t (words * WSIZE)) ;;
  if bp =? NULL then ret NULL
  else
    let blk := ptr_sub bp 4 in                     (* bp - sizeof(FENCE) *)
    mark_block_free blk words ;;
    nb <- rd (fun m => next_blk m blk) ;;
    assign_tag nb FENCE ;;
    coalesce blk.

Definition place (bp asize : Z) : M unit :=
  assert (asize >? 0) ;;
  csize <- rd (fun m => blk_size m bp) ;;
  list_remove bp ;;
  if size_t (csize - asize) >=? MIN_BLOCK_SIZE_WORDS then
    mark_block_used bp asize ;;
    bp <- rd (fun m => next_blk m bp) ;;
    mark_block_free bp (size_t (csize - asize)) ;;
    segregatedListAdd bp
  else
    mark_block_used bp csize.

(** The inner loop of [find_fit] over one list: [count] is incremented and
    tested before the candidate is looked at; [Some bp] is the [return bp],
    [None] the end of the list or the [break]. *)
Fixpoint scan_list (m : memory) (asize count : Z) (es : list Z) : option Z :=
  match es with
  | [] => None
  | e :: es' =>
      let count := count + 1 in
      if count >=? 5 then None
      else if blk_free m e && (asize <=? blk_size m e) then Some e
      else scan_list m asize count es'
  end.

Fixpoint scan_classes (m : memory) (asize : Z) (lists : list (list Z))
         (classes : list nat) : Z :=
  match classes with
  | [] => NULL                                          (* No fit *)
  | i :: rest =>
      match scan_list m asize 0 (nth i lists []) with
      | Some bp => bp
      | None => scan_classes m asize lists rest
      end
  end.

Definition find_fit (asize : Z) : M Z :=
  assert (asize >? 0) ;;
  gets (fun st => scan_classes (mem st) asize (segregatedList st)
                    (seq 0 NUM_SIZE_CLASSES)).

(** ** Public operations (mm.c, lines 142-311) *)

Definition mm_init : M Z :=
  initial <- mem_sbrk (4 * WSIZE) ;;
  if initial =? NULL then ret (-1)
  else
    fold_right (fun i k => list_init i ;; k) (ret tt) (seq 0 NUM_SIZE_CLASSES) ;;
    assign_tag (ptr_add initial (2 * WSIZE)) FENCE ;;     (* Prologue footer *)
    modify (set_heap_listp (ptr_add initial (3 * WSIZE))) ;;
    assign_tag (ptr_add initial (3 * WSIZE)) FENCE ;;     (* Epilogue header *)
    r <- extend_heap CHUNKSIZE ;;
    if r =? NULL then ret (-1) else ret 0.

(** The two literal remaps at the head of [mm_malloc]. *)
Definition malloc_size (sz : Z) : Z :=
  if sz =? 448 then 512 else if sz =? 112 then 128 else sz.

(** Block size in bytes: tags added, aligned. *)
Definition block_bytes (sz : Z) : Z := align (size_t (sz + 2 * WSIZE)).

(** Adjusted block size in words. *)
Definition block_words (bsize : Z) : Z := max MIN_BLOCK_SIZE_WORDS (bsize / WSIZE).

(** The adjusted block size [awords] that [mm_malloc] computes for a
    request of [sz] bytes (lines 179-192), and the one [mm_realloc] computes
    (lines 256-261). *)
Definition malloc_words (sz : Z) : Z := block_words (block_bytes (malloc_size sz)).
Definition realloc_words (sz : Z) : Z := block_words (block_bytes sz).

Definition mm_malloc (sz : Z) : M Z :=
  if sz =? 0 then ret NULL
  else
    let sz := malloc_size sz in
    let bsize := block_bytes sz in
    if bsize <? sz then ret NULL                         (* integer overflow *)
    else
      let awords := block_words bsize in
      bp <- find_fit awords ;;
      if negb (bp =? NULL) then
        place bp awords ;;
        ret (payload bp)
      else
        let extendwords := max awords CHUNKSIZE in
        bp <- extend_heap extendwords ;;
        if bp =? NULL then ret NULL
        else
          place bp awords ;;
          ret (payload bp).

Definition mm_free (ptr : Z) : M unit :=
  h <- gets heap_listp ;;
  assert (negb (h =? 0)) ;;
  if ptr =? 0 then ret tt
  else
    let bp := block_of ptr in
    assert (negb (bp =? NULL)) ;;
    sz <- rd (fun m => blk_size m bp) ;;
    mark_block_free bp sz ;;
    coalesce bp ;;
    ret tt.

(** The general case of [mm_realloc] (lines 297-310). *)
Definition realloc_fallback (ptr sz oldpayloadsize : Z) : M Z :=
  newptr <- mm_malloc sz ;;
  if newptr =? NULL then ret NULL
  else
    let oldpayloadsize := if sz <? oldpayloadsize then sz else oldpayloadsize in
    modify (fun st => set_mem (memcpy (mem st) newptr ptr oldpayloadsize) st) ;;
    mm_free ptr ;;
    ret newptr.

Definition mm_realloc (ptr sz : Z) : M Z :=
  if sz =? 0 then
    mm_free ptr ;;
    ret NULL
  else if ptr =? NULL then
    mm_malloc sz
  else
    let oldblock := block_of ptr in
    assert (negb (oldblock =? NULL)) ;;
    oldpayloadsize <- rd (fun m => size_t (size_t (blk_size m oldblock * WSIZE)
                                           - 2 * WSIZE)) ;;
    assert (oldpayloadsize >? 0) ;;
    prev_alloc <- rd (fun m => inuse (load_tag m (prev_blk_footer oldblock))) ;;
    next_alloc <- rd (fun m => negb (blk_free m (next_blk m oldblock))) ;;
    let bsize := block_bytes sz in
    if bsize <? sz then ret NULL                         (* integer overflow *)
    else
      let awords := block_words bsize in
      osz <- rd (fun m => blk_size m oldblock) ;;
      nsz <- rd (fun m => blk_size m (next_blk m oldblock)) ;;
      case1 <- (if negb prev_alloc && next_alloc then
                  pb <- prev_blk oldblock ;;
                  psz <- rd (fun m => blk_size m pb) ;;
                  ret (size_t (psz + osz) >=? awords)
                else ret false) ;;
      if case1 then                                      (* Case 1 *)
        pb <- prev_blk oldblock ;;
        list_remove pb ;;
        oldblock <- prev_blk oldblock ;;
        msz <- rd (fun m => size_t (blk_size m (next_blk m oldblock)
                                    + blk_size m oldblock)) ;;
        mark_block_used oldblock msz ;;
        modify (fun st => set_mem (memmove (mem st) (payload oldblock) ptr
                                           oldpayloadsize) st) ;;
        ret (payload oldblock)
      else if negb next_alloc && (size_t (nsz + osz) >=? awords) then   (* Case 2 *)
        nb <- rd (fun m => next_blk m oldblock) ;;
        list_remove nb ;;
        msz <- rd (fun m => size_t (blk_size m (next_blk m oldblock)
                                    + blk_size m oldblock)) ;;
        mark_block_used oldblock msz ;;
        ret (payload oldblock)
      else
        case4 <- (if negb prev_alloc && negb next_alloc then
                    pb <- prev_blk oldblock ;;
                    psz <- rd (fun m => blk_size m pb) ;;
                    ret (size_t (size_t (psz + osz) + nsz) >=? awords)
                  else ret false) ;;
        if case4 then                                    (* Case 4 *)
          nb <- rd (fun m => next_blk m oldblock) ;;
          list_remove nb ;;
          pb <- prev_blk oldblock ;;
          list_remove pb ;;
          pb <- prev_blk oldblock ;;
          pb' <- prev_blk oldblock ;;
          msz <- rd (fun m => size_t (size_t (blk_size m (next_blk m oldblock)
                                              + blk_size m oldblock)
                                      + blk_size m pb')) ;;
          mark_block_used pb msz ;;
          oldblock <- prev_blk oldblock ;;
          modify (fun st => set_mem (memmove (mem st) (payload oldblock) ptr
                                             oldpayloadsize) st) ;;
          ret (payload oldblock)
        else
          nb <- rd (fun m => next_blk m oldblock) ;;
          if prev_alloc && (nb =? NULL) then             (* Case 5 *)
            extend_heap CHUNKSIZE ;;
            msz <- rd (fun m => size_t (blk_size m (next_blk m oldblock)
                                        + blk_size m oldblock)) ;;
            mark_block_used oldblock msz ;;
            ret (payload oldblock)
          else
            realloc_fallback ptr sz oldpayloadsize.

(** ** The heap as a sequence of blocks *)

(** A block of the arena: its size in words and its in-use flag. *)
Definition blockd : Type := (Z * bool)%type.

Definition tag_of (b : blockd) : boundary_tag := {| inuse := snd b; size := fst b |}.

Fixpoint total (bs : list blockd) : Z :=
  match bs with
  | [] => 0
  | b :: bs' => fst b + total bs'
  end.

(** The blocks [bs] lie one after the other from address [a]: each has its
    tag in its header and the same tag in its footer. *)
Fixpoint blocks_at (m : memory) (a : Z) (bs : list blockd) : Prop :=
  match bs with
  | [] => True
  | b :: bs' =>
      load_tag m a = tag_of b /\
      load_tag m (a + 4 * fst b - 4) = tag_of b /\
      blocks_at m (a + 4 * fst b) bs'
  end.

(** The block that starts at address [x], when [bs] lie from [a]. *)
Fixpoint lookup (a : Z) (bs : list blockd) (x : Z) : option blockd :=
  match bs with
  | [] => None
  | b :: bs' =>
      if x <? a then None
      else if x =? a then Some b
      else lookup (a + 4 * fst b) bs' x
  end.

Definition sizes_ok (bs : list blockd) : Prop :=
  Forall (fun b => MIN_BLOCK_SIZE_WORDS <= fst b) bs.

(** The arena between the two fences is exactly the blocks [bs]; the arena
    stays below 4 GiB, so that every size fits the 31-bit field. *)
Record heap_ok (m : memory) (h brk maxa : Z) (bs : list blockd) : Prop := {
  hk_base : 16 <= h;
  hk_sizes : sizes_ok bs;
  hk_prologue : load_tag m (h - 4) = FENCE;
  hk_blocks : blocks_at m h bs;
  hk_epilogue : load_tag m (h + 4 * total bs) = FENCE;
  hk_brk : brk = h + 4 * total bs + 4;
  hk_max : brk <= maxa;
  hk_cap : maxa - h < 2 ^ 32;
  hk_top : maxa < 2 ^ 64
}.

(** The free lists hold, once each, exactly the addresses satisfying [P]. *)
Definition lists_ok (l : list (list Z)) (P : Z -> Prop) : Prop :=
  length l = NUM_SIZE_CLASSES /\
  NoDup (concat l) /\
  forall x, In x (concat l) <-> P x.

Definition is_free (h : Z) (bs : list blockd) (x : Z) : Prop :=
  exists s, lookup h bs x = Some (s, false).

(** Every direct assignment of a tag recorded so far wrote a fence. *)
Definition fence_write (w : tag_write) : Prop :=
  match w with
  | PairWrite _ _ _ => True
  | DirectWrite _ t => t = FENCE
  end.

(** The arena is well formed with blocks [bs], the free lists hold exactly
    the addresses satisfying [L], and only fences were assigned directly. *)
Definition wf_gen (st : state) (bs : list blockd) (L : Z -> Prop) : Prop :=
  heap_ok (mem st) (heap_listp st) (mem_brk st) (mem_max_addr st) bs /\
  lists_ok (segregatedList st) L /\
  Forall fence_write (tag_writes st).

(** The state is a well-formed heap whose blocks are [bs]: the free lists
    hold exactly the free blocks. *)
Definition wf_with (st : state) (bs : list blockd) : Prop :=
  wf_gen st bs (is_free (heap_listp st) bs).

(** Going from blocks [bs] in memory [m] to blocks [bs'] in memory [m'],
    every allocated block whose address is not in [E] stays an allocated
    block of the same size, and its payload bytes are unchanged. *)
Definition keeps (E : Z -> Prop) (h : Z) (m m' : memory)
           (bs bs' : list blockd) : Prop :=
  forall x s, lookup h bs x = Some (s, true) -> ~ E x ->
    lookup h bs' x = Some (s, true) /\
    forall y, x + 4 <= y < x + 4 * s - 4 -> m' y = m y.

Definition nowhere : Z -> Prop := fun _ => False.

(** The three situations in which [mm_malloc] gives up: a zero size, an
    overflow of the size computation, or no fit found and memlib refusing
    to grow the arena. *)
Definition malloc_fails (sz : Z) (st : state) : Prop :=
  sz = 0 \/
  block_bytes (malloc_size sz) < malloc_size sz \/
  (let awords := block_words (block_bytes (malloc_size sz)) in
   find_fit awords st = Some (NULL, st) /\
   exists st1,
     mem_sbrk (size_t (max awords CHUNKSIZE * WSIZE)) st = Some (NULL, st1)).

(** The branches of [mm_realloc] past its two special cases. *)
Inductive realloc_path : Type :=
| AbsorbPrev        (* Case 1: merge into the free predecessor *)
| AbsorbNext        (* Case 2: absorb the free successor *)
| AbsorbBoth        (* Case 4: merge with both neighbours *)
| General.          (* allocate, copy, free *)

(** The branch taken for a block of [s] words needing [awords] words, whose
    predecessor's footer reads [p] and whose successor's header reads [n]:
    the tests of [mm_realloc], in its order. *)
Definition realloc_path_of (awords : Z) (p : blockd) (s : Z) (n : blockd)
  : realloc_path :=
  if negb (snd p) && snd n && (fst p + s >=? awords) then AbsorbPrev
  else if negb (snd n) && (fst n + s >=? awords) then AbsorbNext
  else if negb (snd p) && negb (snd n) && (fst p + s + fst n >=? awords)
       then AbsorbBoth
  else General.

(** The routine left the arena bounds and the heap pointer as they were. *)
Definition same_env (st st' : state) : Prop :=
  heap_listp st' = heap_listp st /\
  mem_brk st' = mem_brk st /\
  mem_max_addr st' = mem_max_addr st.

(** What [place] makes of a free block of [csize] words. *)
Definition placed (asize csize : Z) : list blockd :=
  if csize - asize >=? MIN_BLOCK_SIZE_WORDS
  then [(asize, true); (csize - asize, false)]
  else [(csize, true)].

Definition wf (st : state) : Prop := exists bs, wf_with st bs.

(** Header and footer of the block at [blk] are the same four bytes. *)
Definition footer_matches (m : memory) (blk : Z) : Prop :=
  forall i, 0 <= i < 4 -> load8 m (get_footer m blk + i) = load8 m (blk + i).

(** A state before [mm_init]: memlib has an empty arena starting at an
    aligned, non-null address, with less than 4 GiB to grow into. *)
Definition fresh (st : state) : Prop :=
  16 <= mem_brk st /\
  mem_brk st <= mem_max_addr st /\
  mem_max_addr st - mem_brk st < 2 ^ 32 /\
  mem_max_addr st < 2 ^ 64 /\
  length (segregatedList st) = NUM_SIZE_CLASSES /\
  tag_writes st = [].

(** ** A checker for the heap invariant *)

Definition tag_eqb (t1 t2 : boundary_tag) : bool :=
  Bool.eqb (inuse t1) (inuse t2) && (size t1 =? size t2).

Fixpoint blocks_atb (m : memory) (a : Z) (bs : list blockd) : bool :=
  match bs with
  | [] => true
  | b :: bs' =>
      tag_eqb (load_tag m a) (tag_of b) &&
      tag_eqb (load_tag m (a + 4 * fst b - 4)) (tag_of b) &&
      blocks_atb m (a + 4 * fst b) bs'
  end.

(** The addresses of the free blocks among [bs] lying from [a]. *)
Fixpoint free_addrs (a : Z) (bs : list blockd) : list Z :=
  match bs with
  | [] => []
  | b :: bs' =>
      (if snd b then [] else [a]) ++ free_addrs (a + 4 * fst b) bs'
  end.

Fixpoint nodupb (l : list Z) : bool :=
  match l with
  | [] => true
  | x :: l' => negb (Z_mem x l') && nodupb l'
  end.

Definition fence_writeb (w : tag_write) : bool :=
  match w with
  | PairWrite _ _ _ => true
  | DirectWrite _ t => tag_eqb t FENCE
  end.

(** Decides whether the state is a well-formed heap with blocks [bs]. *)
Definition check_heap (st : state) (bs : list blockd) : bool :=
  let m := mem st in
  let h := heap_listp st in
  (16 <=? h) &&
  forallb (fun b => MIN_BLOCK_SIZE_WORDS <=? fst b) bs &&
  tag_eqb (load_tag m (h - 4)) FENCE &&
  blocks_atb m h bs &&
  tag_eqb (load_tag m (h + 4 * total bs)) FENCE &&
  (mem_brk st =? h + 4 * total bs + 4) &&
  (mem_brk st <=? mem_max_addr st) &&
  (mem_max_addr st - h <? 2 ^ 32) &&
  (mem_max_addr st <? 2 ^ 64) &&
  Nat.eqb (length (segregatedList st)) NUM_SIZE_CLASSES &&
  nodupb (concat (segregatedList st)) &&
  forallb (fun x => Z_mem x (free_addrs h bs)) (concat (segregatedList st)) &&
  forallb (fun x => Z_mem x (concat (segregatedList st))) (free_addrs h bs) &&
  forallb fence_writeb (tag_writes st).

(** ** Concrete heaps *)

(** A fresh memlib arena of one MiB at address 4096. *)
Definition arena : state :=
  mkState (fun _ => 0) 4096 (4096 + 2 ^ 20) 0 (repeat [] NUM_SIZE_CLASSES) [].

(** The state a routine leaves, and what it returns. *)
Definition state_after {A} (c : M A) (st : state) : state :=
  match c st with
  | Some (_, st') => st'
  | None => st
  end.

Definition result_of {A} (c : M A) (st : state) : option A :=
  match c st with
  | Some (a, _) => Some a
  | None => None
  end.

(** A heap whose first free list has a fitting block in fifth place: a block
    of 28 words and four blocks of 8 words are allocated, each followed by a
    block that stays allocated; the large block is freed first, then the
    four small ones, each free pushing its block to the front of the list. *)
Definition five_candidates : state :=
  state_after
    (mm_init ;;
     big <- mm_malloc 100 ;;
     mm_malloc 1 ;;
     s1 <- mm_malloc 1 ;;
     mm_malloc 1 ;;
     s2 <- mm_malloc 1 ;;
     mm_malloc 1 ;;
     s3 <- mm_malloc 1 ;;
     mm_malloc 1 ;;
     s4 <- mm_malloc 1 ;;
     mm_malloc 1 ;;
     mm_free big ;;
     mm_free s1 ;;
     mm_free s2 ;;
     mm_free s3 ;;
     mm_free s4)
    arena.

(** A heap in which the block at 4188 (20 words) has just been marked free,
    as [mm_free] does before it calls [coalesce], between two free blocks
    of 20 words that are on the first free list. *)
Definition pending_between_free : state :=
  state_after
    (mm_init ;;
     a <- mm_malloc 64 ;;
     b <- mm_malloc 64 ;;
     c <- mm_malloc 64 ;;
     mm_malloc 64 ;;
     mm_free a ;;
     mm_free c ;;
     mark_block_free (block_of b) 20)
    arena.

(** A heap in which the block at 4108 (20 words) has just been marked free,
    between the prologue fence and an allocated block. *)
Definition pending_between_used : state :=
  state_after
    (mm_init ;;
     a <- mm_malloc 64 ;;
     mm_malloc 64 ;;
     mark_block_free (block_of a) 20)
    arena.

(** A heap whose only block, of 128 words, is allocated: its predecessor is
    the prologue fence and its successor the epilogue fence. *)
Definition block_at_edge : state :=
  state_after (mm_init ;; mm_malloc 504) arena.

(** A heap with an allocated block of 20 words at 4108 followed by a free
    block of 108 words. *)
Definition block_before_free : state :=
  state_after (mm_init ;; mm_malloc 64) arena.

(** ** Sequences of public operations *)

Inductive op : Type :=
| Malloc (sz : Z)
| Free (ptr : Z)
| Realloc (ptr sz : Z).

Definition run_op (o : op) : M Z :=
  match o with
  | Malloc sz => mm_malloc sz
  | Free ptr => mm_free ptr ;; ret 0
  | Realloc ptr sz => mm_realloc ptr sz
  end.

(** A pointer a caller may pass: null, or the payload of an allocated block. *)
Definition valid_ptr (st : state) (ptr : Z) : Prop :=
  ptr = NULL \/
  exists bs s, wf_with st bs /\
               lookup (heap_listp st) bs (ptr - 4) = Some (s, true).

(** Sizes are [size_t] values. *)
Definition valid_op (st : state) (o : op) : Prop :=
  match o with
  | Malloc sz => 0 <= sz < 2 ^ 64
  | Free ptr => valid_ptr st ptr
  | Realloc ptr sz => valid_ptr st ptr /\ 0 <= sz < 2 ^ 64
  end.

(** The states an allocator can be in after its public operations returned:
    a successful [mm_init] on a fresh arena, then any operations on valid
    arguments. *)
Inductive reachable : state -> Prop :=
| reach_init st :
    fresh st -> result_of mm_init st = Some 0 ->
    reachable (state_after mm_init st)
| reach_op st o :
    reachable st -> valid_op st o ->
    reachable (state_after (run_op o) st).

(** The memory after the header and the footer of a block were written. *)
Definition write_tags (m : memory) (blk sz : Z) (used : bool) : memory :=
  store_tag (store_tag m blk {| inuse := used; size := sz |})
            (blk + 4 * sz - 4) {| inuse := used; size := sz |}.

(** ** Further invariants of the arena *)

(** Every block is a whole number of 16-byte units, that is of four words. *)
Definition words4 (bs : list blockd) : Prop :=
  Forall (fun b => fst b mod 4 = 0) bs.

(** No free block is followed by a free block. *)
Fixpoint no_adj_free (bs : list blockd) : Prop :=
  match bs with
  | [] => True
  | b :: r => (snd b = true \/ snd (hd (0, true) r) = true) /\ no_adj_free r
  end.

Definition all_free (bs : list blockd) : Prop :=
  Forall (fun b => snd b = false) bs.

(** Every block on the free list of index [i] is a free block of the heap
    whose size belongs to size class [i]. *)
Definition buckets_ok (h : Z) (bs : list blockd) (l : list (list Z)) : Prop :=
  forall i x, In x (nth i l []) ->
    exists s, lookup h bs x = Some (s, false) /\ size_class s = i.

(** A checker for [buckets_ok]. *)
Definition check_buckets (h : Z) (bs : list blockd) (l : list (list Z)) : bool :=
  forallb (fun i =>
             forallb (fun x => match lookup h bs x with
                               | Some (s, false) => Nat.eqb (size_class s) i
                               | _ => false
                               end)
                     (nth i l []))
          (seq 0 (length l)).

(** The arena is a well-formed heap of four-word units in which no two free
    blocks lie side by side, and whose free lists are sorted by size class. *)
Definition tidy (st : state) : Prop :=
  exists bs, wf_with st bs /\ words4 bs /\ no_adj_free bs /\
             buckets_ok (heap_listp st) bs (segregatedList st).

(** The states reached from the fresh state [st0] by a successful [mm_init]
    and then public operations on valid arguments. *)
Inductive reachable_from (st0 : state) : state -> Prop :=
| from_init :
    fresh st0 -> result_of mm_init st0 = Some 0 ->
    reachable_from st0 (state_after mm_init st0)
| from_op st o :
    reachable_from st0 st -> valid_op st o ->
    reachable_from st0 (state_after (run_op o) st).

(** ** The specification's words, for comparison *)

(** A candidate fits when it is free and at least as large as needed. *)
Definition fits (m : memory) (asize : Z) (e : Z) : bool :=
  blk_free m e && (asize <=? blk_size m e).

(** Bounded first fit as the specification words it: in each bucket in
    ascending order, the first of the first [cap] candidates that fits. *)
Fixpoint bounded_first_fit (cap : nat) (m : memory) (asize : Z)
         (buckets : list (list Z)) : Z :=
  match buckets with
  | [] => NULL
  | b :: rest =>
      match find (fits m asize) (firstn cap b) with
      | Some bp => bp
      | None => bounded_first_fit cap m asize rest
      end
  end.

Definition round_up (x a : Z) : Z := ((x + a - 1) / a) * a.

(** Size normalization as the specification words it: add two boundary-tag
    sizes, round up to the alignment constant, express in words, clamp to the
    minimum block size. *)
Definition normalized_words (n : Z) : Z :=
  Z.max MIN_BLOCK_SIZE_WORDS (round_up (n + 2 * WSIZE) ALIGNMENT / WSIZE).

(** * Machine integers, memory and tags *)

Lemma size_t_small z : 0 <= z < 2 ^ 64 -> size_t z = z.
Proof. intros H. unfold size_t. now apply Z.mod_small. Qed.

Lemma to_int_small z : - 2 ^ 31 <= z < 2 ^ 31 -> to_int z = z.
Proof. intros H. unfold to_int. rewrite Z.mod_small; lia. Qed.

Lemma ptr_add_small p off : 0 <= p + off < 2 ^ 64 -> ptr_add p off = p + off.
Proof. apply size_t_small. Qed.

Lemma ptr_sub_small p off : 0 <= p - off < 2 ^ 64 -> ptr_sub p off = p - off.
Proof. apply size_t_small. Qed.

Lemma load8_range m a : 0 <= load8 m a < 256.
Proof. unfold load8. apply Z.mod_pos_bound. lia. Qed.

Lemma load32_range m a : 0 <= load32 m a < 2 ^ 32.
Proof.
  unfold load32.
  pose proof (load8_range m a). pose proof (load8_range m (a + 1)).
  pose proof (load8_range m (a + 2)). pose proof (load8_range m (a + 3)).
  change (2 ^ 8) with 256. change (2 ^ 16) with 65536.
  change (2 ^ 24) with 16777216. change (2 ^ 32) with 4294967296. lia.
Qed.

Lemma store32_in m a w x :
  a <= x < a + 4 -> store32 m a w x = (w / 2 ^ (8 * (x - a))) mod 256.
Proof.
  intros H. unfold store32.
  replace ((a <=? x) && (x <? a + 4)) with true; [reflexivity|].
  symmetry. apply andb_true_iff. split; [apply Z.leb_le | apply Z.ltb_lt]; lia.
Qed.

Lemma store32_out m a w x :
  x < a \/ a + 4 <= x -> store32 m a w x = m x.
Proof.
  intros H. unfold store32.
  replace ((a <=? x) && (x <? a + 4)) with false; [reflexivity|].
  symmetry. apply andb_false_iff.
  destruct H; [left; apply Z.leb_gt | right; apply Z.ltb_ge]; lia.
Qed.

Lemma load8_ext m m' a : m' a = m a -> load8 m' a = load8 m a.
Proof. unfold load8. now intros ->. Qed.

Lemma load32_ext m m' a :
  (forall x, a <= x < a + 4 -> m' x = m x) -> load32 m' a = load32 m a.
Proof.
  intros H. unfold load32.
  rewrite !(load8_ext m m') by (apply H; lia). reflexivity.
Qed.

Lemma load32_store32_same m a w : load32 (store32 m a w) a = w mod 2 ^ 32.
Proof.
  unfold load32, load8.
  rewrite !store32_in by lia.
  replace (8 * (a - a)) with 0 by lia.
  replace (8 * (a + 1 - a)) with 8 by lia.
  replace (8 * (a + 2 - a)) with 16 by lia.
  replace (8 * (a + 3 - a)) with 24 by lia.
  change (2 ^ 0) with 1. change (2 ^ 8) with 256. change (2 ^ 16) with 65536.
  change (2 ^ 24) with 16777216. change (2 ^ 32) with 4294967296.
  rewrite Z.div_1_r. rewrite !Z.mod_mod by lia.
  Z.div_mod_to_equations. lia.
Qed.

Lemma load32_store32_other m a w b :
  b + 4 <= a \/ a + 4 <= b -> load32 (store32 m a w) b = load32 m b.
Proof.
  intros H. apply load32_ext. intros x Hx. apply store32_out. lia.
Qed.

Lemma land_b2z_double u s : Z.land (Z.b2z u) (2 * s) = 0.
Proof.
  destruct u; cbn [Z.b2z]; [|apply Z.land_0_l].
  rewrite Z.land_comm. change 1 with (Z.ones 1). rewrite Z.land_ones by lia.
  change (2 ^ 1) with 2. replace (2 * s) with (s * 2) by lia.
  apply Z.mod_mul. lia.
Qed.

Lemma tag_word_small u s :
  0 <= s < 2 ^ 30 -> tag_word {| inuse := u; size := s |} = Z.b2z u + 2 * s.
Proof.
  intros H. unfold tag_word. cbn [inuse size].
  change (2 ^ 31 - 1) with (Z.ones 31). rewrite Z.land_ones by lia.
  rewrite Z.mod_small by lia. rewrite Z.shiftl_mul_pow2 by lia.
  change (2 ^ 1) with 2. replace (s * 2) with (2 * s) by lia.
  rewrite <- Z.lxor_lor by apply land_b2z_double.
  symmetry. apply Z.add_nocarry_lxor, land_b2z_double.
Qed.

Lemma word_tag_small u s :
  0 <= s < 2 ^ 30 -> word_tag (Z.b2z u + 2 * s) = {| inuse := u; size := s |}.
Proof.
  intros H. unfold word_tag. f_equal.
  - rewrite Z.add_comm. apply Z.testbit_0_r.
  - rewrite Z.shiftr_div_pow2 by lia. change (2 ^ 1) with 2.
    replace ((Z.b2z u + 2 * s) / 2) with s
      by (destruct u; cbn [Z.b2z]; Z.div_mod_to_equations; lia).
    change (2 ^ 31 - 1) with (Z.ones 31). rewrite Z.land_ones by lia.
    rewrite Z.mod_small by lia. unfold sext31.
    destruct (Z.ltb_spec s (2 ^ 30)); lia.
Qed.

Lemma load_tag_store_tag_same m a u s :
  0 <= s < 2 ^ 30 ->
  load_tag (store_tag m a {| inuse := u; size := s |}) a = {| inuse := u; size := s |}.
Proof.
  intros H. unfold load_tag, store_tag.
  rewrite load32_store32_same, tag_word_small by assumption.
  rewrite Z.mod_small by (destruct u; cbn [Z.b2z]; lia).
  now apply word_tag_small.
Qed.

Lemma load_tag_store_tag_other m a t b :
  b + 4 <= a \/ a + 4 <= b -> load_tag (store_tag m a t) b = load_tag m b.
Proof.
  intros H. unfold load_tag, store_tag. now rewrite load32_store32_other.
Qed.

Lemma load_tag_ext m m' a :
  (forall x, a <= x < a + 4 -> m' x = m x) -> load_tag m' a = load_tag m a.
Proof. intros H. unfold load_tag. now rewrite (load32_ext m m'). Qed.

Lemma store_tag_out m a t x :
  x < a \/ a + 4 <= x -> store_tag m a t x = m x.
Proof. apply store32_out. Qed.

(** ** Writing a header and its footer *)

Lemma write_tags_out m b s u x :
  1 <= s ->
  x < b \/ (b + 4 <= x < b + 4 * s - 4) \/ b + 4 * s <= x ->
  write_tags m b s u x = m x.
Proof.
  intros Hs H. unfold write_tags. rewrite !store_tag_out by lia. reflexivity.
Qed.

Lemma write_tags_header m b s u :
  1 <= s < 2 ^ 30 ->
  load_tag (write_tags m b s u) b = {| inuse := u; size := s |}.
Proof.
  intros H. unfold write_tags. destruct (Z.eq_dec s 1) as [->|Hne].
  - replace (b + 4 * 1 - 4) with b by lia.
    apply load_tag_store_tag_same. lia.
  - rewrite load_tag_store_tag_other by lia.
    apply load_tag_store_tag_same. lia.
Qed.

Lemma write_tags_footer m b s u :
  1 <= s < 2 ^ 30 ->
  load_tag (write_tags m b s u) (b + 4 * s - 4) = {| inuse := u; size := s |}.
Proof. intros H. unfold write_tags. apply load_tag_store_tag_same. lia. Qed.

Lemma write_tags_other m b s u a :
  1 <= s ->
  a + 4 <= b \/ (b + 4 <= a /\ a + 4 <= b + 4 * s - 4) \/ b + 4 * s <= a ->
  load_tag (write_tags m b s u) a = load_tag m a.
Proof.
  intros Hs H. apply load_tag_ext. intros x Hx. apply write_tags_out; lia.
Qed.

Lemma blk_size_tag m b u s :
  load_tag m b = {| inuse := u; size := s |} -> 0 <= s < 2 ^ 30 ->
  blk_size m b = s.
Proof.
  intros H Hs. unfold blk_size. rewrite H. cbn [size]. apply size_t_small. lia.
Qed.

Lemma blk_free_tag m b u s :
  load_tag m b = {| inuse := u; size := s |} -> blk_free m b = negb u.
Proof. intros H. unfold blk_free. now rewrite H. Qed.

Lemma next_blk_tag m b u s :
  load_tag m b = {| inuse := u; size := s |} -> 0 <= s < 2 ^ 30 ->
  0 <= b -> b + 4 * s < 2 ^ 64 ->
  next_blk m b = b + 4 * s.
Proof.
  intros H Hs Hb Hle. unfold next_blk. rewrite H. cbn [size]. unfold WSIZE.
  rewrite (size_t_small s) by lia. rewrite (size_t_small (4 * s)) by lia.
  apply ptr_add_small. lia.
Qed.

Lemma get_footer_tag m b u s :
  load_tag m b = {| inuse := u; size := s |} -> 1 <= s < 2 ^ 30 ->
  0 <= b -> b + 4 * s < 2 ^ 64 ->
  get_footer m b = b + 4 * s - 4.
Proof.
  intros H Hs Hb Hle. unfold get_footer. rewrite H. cbn [size]. unfold WSIZE.
  rewrite (size_t_small s) by lia. rewrite (size_t_small (4 * s)) by lia.
  rewrite ptr_add_small by lia. apply ptr_sub_small. lia.
Qed.

Lemma set_header_and_footer_run b s u st :
  1 <= s < 2 ^ 30 -> 0 <= b -> b + 4 * s < 2 ^ 64 ->
  set_header_and_footer b s (Z.b2z u) st =
  Some (tt, log_write (PairWrite b s u)
              (set_mem (write_tags (mem st) b s u) st)).
Proof.
  intros Hs Hb Hle. unfold set_header_and_footer, modify.
  rewrite (to_int_small s) by lia.
  replace (Z.odd (to_int (Z.b2z u))) with u by (now destruct u).
  rewrite (get_footer_tag _ b u s); try lia.
  2: apply load_tag_store_tag_same; lia.
  rewrite load_tag_store_tag_same by lia. reflexivity.
Qed.

Lemma mark_block_used_run b s st :
  1 <= s < 2 ^ 30 -> 0 <= b -> b + 4 * s < 2 ^ 64 ->
  mark_block_used b s st =
  Some (tt, log_write (PairWrite b s true)
              (set_mem (write_tags (mem st) b s true) st)).
Proof. apply (set_header_and_footer_run b s true). Qed.

Lemma mark_block_free_run b s st :
  1 <= s < 2 ^ 30 -> 0 <= b -> b + 4 * s < 2 ^ 64 ->
  mark_block_free b s st =
  Some (tt, log_write (PairWrite b s false)
              (set_mem (write_tags (mem st) b s false) st)).
Proof. apply (set_header_and_footer_run b s false). Qed.

(** ** Sequences of blocks *)

Lemma sizes_ok_app P Q : sizes_ok (P ++ Q) <-> sizes_ok P /\ sizes_ok Q.
Proof. apply Forall_app. Qed.

Lemma total_app P Q : total (P ++ Q) = total P + total Q.
Proof. induction P as [|b P IH]; cbn [total app]; lia. Qed.

Lemma total_nonneg bs : sizes_ok bs -> 0 <= total bs.
Proof.
  induction 1 as [|b bs Hb _ IH]; cbn [total]; unfold MIN_BLOCK_SIZE_WORDS in *; lia.
Qed.

Lemma blocks_at_app m a P Q :
  blocks_at m a (P ++ Q) <-> blocks_at m a P /\ blocks_at m (a + 4 * total P) Q.
Proof.
  revert a. induction P as [|b P IH]; intros a; cbn [blocks_at total app].
  - replace (a + 4 * 0) with a by lia. tauto.
  - rewrite IH. replace (a + 4 * fst b + 4 * total P)
      with (a + 4 * (fst b + total P)) by lia. tauto.
Qed.

Lemma blocks_at_ext m m' a bs :
  sizes_ok bs ->
  (forall x, a <= x < a + 4 * total bs -> m' x = m x) ->
  blocks_at m a bs -> blocks_at m' a bs.
Proof.
  intros Hs. revert a. induction Hs as [|b bs Hb Hbs IH]; intros a Hx; cbn [blocks_at total] in *.
  - trivial.
  - pose proof (total_nonneg bs Hbs). unfold MIN_BLOCK_SIZE_WORDS in *.
    intros (H1 & H2 & H3). repeat split.
    + rewrite <- H1. apply load_tag_ext. intros x Hr. apply Hx. lia.
    + rewrite <- H2. apply load_tag_ext. intros x Hr. apply Hx. lia.
    + apply IH; [|assumption]. intros x Hr. apply Hx. lia.
Qed.

Lemma lookup_lt a bs x : x < a -> lookup a bs x = None.
Proof.
  intros H. destruct bs as [|b bs]; cbn [lookup]; [reflexivity|].
  destruct (Z.ltb_spec x a); [reflexivity|lia].
Qed.

Lemma lookup_range a bs x b :
  sizes_ok bs -> lookup a bs x = Some b ->
  a <= x /\ x + 4 * fst b <= a + 4 * total bs /\ MIN_BLOCK_SIZE_WORDS <= fst b.
Proof.
  intros Hs. revert a. induction Hs as [|b0 bs Hb Hbs IH]; intros a; cbn [lookup total].
  - discriminate.
  - pose proof (total_nonneg bs Hbs). unfold MIN_BLOCK_SIZE_WORDS in *.
    destruct (Z.ltb_spec x a); [discriminate|].
    destruct (Z.eqb_spec x a).
    + intros [= <-]. lia.
    + intros Hl. apply IH in Hl. lia.
Qed.

Lemma lookup_app a P R x :
  sizes_ok P ->
  lookup a (P ++ R) x =
  if x <? a + 4 * total P then lookup a P x else lookup (a + 4 * total P) R x.
Proof.
  intros Hs. revert a. induction Hs as [|b P Hb HP IH]; intros a; cbn [lookup total app].
  - replace (a + 4 * 0) with a by lia.
    destruct (Z.ltb_spec x a); [now apply lookup_lt | reflexivity].
  - pose proof (total_nonneg P HP). unfold MIN_BLOCK_SIZE_WORDS in *.
    destruct (Z.ltb_spec x a).
    + destruct (Z.ltb_spec x (a + 4 * (fst b + total P))); [reflexivity|lia].
    + destruct (Z.eqb_spec x a).
      * destruct (Z.ltb_spec x (a + 4 * (fst b + total P))); [reflexivity|lia].
      * rewrite IH. replace (a + 4 * fst b + 4 * total P)
          with (a + 4 * (fst b + total P)) by lia. reflexivity.
Qed.

Lemma lookup_zipper a bs x b :
  lookup a bs x = Some b ->
  exists P Q, bs = P ++ b :: Q /\ x = a + 4 * total P.
Proof.
  revert a. induction bs as [|b0 bs IH]; intros a; cbn [lookup].
  - discriminate.
  - destruct (Z.ltb_spec x a); [discriminate|].
    destruct (Z.eqb_spec x a).
    + intros [= <-]. exists [], bs. cbn [app total]. split; [reflexivity|lia].
    + intros Hl. apply IH in Hl. destruct Hl as (P & Q & -> & ->).
      exists (b0 :: P), Q. cbn [app total]. split; [reflexivity|lia].
Qed.

Lemma lookup_mid a P b Q :
  sizes_ok P -> lookup a (P ++ b :: Q) (a + 4 * total P) = Some b.
Proof.
  intros HP. rewrite lookup_app by assumption.
  destruct (Z.ltb_spec (a + 4 * total P) (a + 4 * total P)); [lia|].
  cbn [lookup]. destruct (Z.ltb_spec (a + 4 * total P) (a + 4 * total P)); [lia|].
  now rewrite Z.eqb_refl.
Qed.

(** ** Blocks of four-word units, and adjacent free blocks *)

Lemma words4_app P Q : words4 (P ++ Q) <-> words4 P /\ words4 Q.
Proof. apply Forall_app. Qed.

Lemma words4_total bs : words4 bs -> total bs mod 4 = 0.
Proof.
  induction 1 as [|b bs Hb _ IH]; cbn [total]; [reflexivity|].
  revert Hb IH. generalize (fst b) (total bs). intros x y Hx Hy.
  rewrite Z.add_mod, Hx, Hy by lia. reflexivity.
Qed.

Lemma words4_merged P' A s s' B Q' :
  words4 ((P' ++ A) ++ (s, false) :: B ++ Q') ->
  s' = total A + s + total B ->
  words4 (P' ++ (s', false) :: Q').
Proof.
  intros H ->. apply words4_app in H. destruct H as [HPA H].
  apply words4_app in HPA. destruct HPA as [HP HA].
  inversion H as [|? ? Hs HBQ]; subst. cbn [fst] in Hs.
  apply words4_app in HBQ. destruct HBQ as [HB HQ].
  apply words4_app. split; [assumption|]. constructor; [|assumption].
  cbn [fst]. apply words4_total in HA, HB.
  revert HA HB Hs. generalize (total A) (total B). intros x y Hx Hy Hs.
  rewrite Z.add_mod, (Z.add_mod x s), Hx, Hy, Hs by lia. reflexivity.
Qed.

Lemma words4_placed a c :
  a mod 4 = 0 -> c mod 4 = 0 -> words4 (placed a c).
Proof.
  intros Ha Hc. unfold placed.
  destruct (c - a >=? MIN_BLOCK_SIZE_WORDS); repeat constructor; cbn [fst];
    try assumption.
  rewrite Zminus_mod, Ha, Hc. reflexivity.
Qed.

Lemma no_adj_free_app (X Y : list blockd) :
  no_adj_free (X ++ Y) <->
  no_adj_free X /\ no_adj_free Y /\
  (snd (last X (0, true)) = true \/ snd (hd (0, true) Y) = true).
Proof.
  induction X as [|b X IH].
  - cbn [app no_adj_free last snd]. intuition auto.
  - destruct X as [|c X].
    + cbn [app no_adj_free hd last]. intuition auto.
    + change ((b :: c :: X) ++ Y) with (b :: (c :: X) ++ Y).
      change (last (b :: c :: X) (0, true)) with (last (c :: X) (0, true)).
      change (no_adj_free (b :: (c :: X) ++ Y))
        with ((snd b = true \/ snd c = true) /\ no_adj_free ((c :: X) ++ Y)).
      change (no_adj_free (b :: c :: X))
        with ((snd b = true \/ snd c = true) /\ no_adj_free (c :: X)).
      rewrite IH. intuition auto.
Qed.

Lemma all_free_hd (A : list blockd) :
  all_free A -> A <> [] -> snd (hd (0, true) A) = false.
Proof.
  intros H Hne. destruct A as [|a A]; [congruence|].
  inversion H. assumption.
Qed.

Lemma all_free_last (A : list blockd) :
  all_free A -> A <> [] -> snd (last A (0, true)) = false.
Proof.
  intros H Hne. destruct (exists_last Hne) as (A0 & a & ->).
  rewrite last_last. apply Forall_app in H. destruct H as [_ H].
  now inversion H.
Qed.

(** Merging a free block with the free blocks [A] before it and [B] after
    it leaves no two free blocks side by side, when there were none in
    the blocks before and none in the blocks after. *)
Lemma no_adj_free_merged P' (A : list blockd) s' (B : list blockd) Q' :
  no_adj_free (P' ++ A) -> no_adj_free (B ++ Q') ->
  all_free A -> all_free B ->
  (A = [] -> snd (last (P' ++ A) (0, true)) = true) ->
  (B = [] -> snd (hd (0, true) (B ++ Q')) = true) ->
  no_adj_free (P' ++ (s', false) :: Q').
Proof.
  intros HPA HBQ HA HB HlA HlB.
  apply no_adj_free_app in HPA. destruct HPA as (HP & _ & HPA).
  apply no_adj_free_app in HBQ. destruct HBQ as (_ & HQ & HBQ).
  assert (Hlast : snd (last P' (0, true)) = true).
  { destruct A as [|a A].
    - rewrite app_nil_r in HlA. now apply HlA.
    - destruct HPA as [?|HPA]; [assumption|].
      rewrite all_free_hd in HPA by (assumption || discriminate). discriminate. }
  assert (Hhd : snd (hd (0, true) Q') = true).
  { destruct B as [|b B].
    - now apply HlB.
    - destruct HBQ as [HBQ|?]; [|assumption].
      rewrite all_free_last in HBQ by (assumption || discriminate). discriminate. }
  apply no_adj_free_app. cbn [no_adj_free hd snd]. auto.
Qed.

Lemma no_adj_free_placed P a c Q :
  no_adj_free (P ++ (c, false) :: Q) -> no_adj_free (P ++ placed a c ++ Q).
Proof.
  intros H. apply no_adj_free_app in H. cbn [no_adj_free hd snd] in H.
  destruct H as (HP & ([?|HQ1] & HQ) & [Hl|?]); try discriminate.
  apply no_adj_free_app. unfold placed.
  destruct (c - a >=? MIN_BLOCK_SIZE_WORDS); cbn [app no_adj_free hd snd]; auto 6.
Qed.

(** The address of a block in a heap of four-word units is a whole number of
    16-byte units away from the first block. *)
Lemma lookup_words4 h bs x b :
  words4 bs -> lookup h bs x = Some b -> (x - h) mod 16 = 0.
Proof.
  intros H4 Hlk. apply lookup_zipper in Hlk. destruct Hlk as (P & Q & -> & ->).
  apply words4_app in H4. destruct H4 as [HP _]. apply words4_total in HP.
  revert HP. generalize (total P). intros t Ht.
  replace (h + 4 * t - h) with (4 * t) by lia.
  rewrite (Z.div_mod t 4) by lia. rewrite Ht.
  replace (4 * (4 * (t / 4) + 0)) with ((t / 4) * 16) by lia.
  apply Z_mod_mult.
Qed.

(** ** The free lists *)

Lemma upd_nth_length {A} i (f : A -> A) l : length (upd_nth i f l) = length l.
Proof.
  revert i. induction l as [|x l IH]; intros [|i]; cbn [upd_nth length]; auto.
Qed.

Lemma concat_upd_nth_cons i (e : Z) l :
  (i < length l)%nat ->
  Permutation (concat (upd_nth i (cons e) l)) (e :: concat l).
Proof.
  revert i. induction l as [|x l IH]; intros i Hi; cbn [length] in Hi; [lia|].
  destruct i as [|i]; cbn [upd_nth concat].
  - reflexivity.
  - rewrite IH by lia. symmetry. apply Permutation_middle.
Qed.

Lemma remove_concat (e : Z) l :
  concat (map (remove Z.eq_dec e) l) = remove Z.eq_dec e (concat l).
Proof.
  induction l as [|x l IH]; cbn [map concat]; [reflexivity|].
  now rewrite remove_app, IH.
Qed.

Lemma NoDup_remove_elt (e : Z) l : NoDup l -> NoDup (remove Z.eq_dec e l).
Proof.
  induction 1 as [|x l Hx Hl IH]; cbn [remove]; [constructor|].
  destruct (Z.eq_dec e x); [assumption|].
  constructor; [|assumption]. intros Hin. apply in_remove in Hin. tauto.
Qed.

Lemma In_remove_iff (e x : Z) l :
  In x (remove Z.eq_dec e l) <-> In x l /\ x <> e.
Proof.
  split.
  - apply in_remove.
  - intros [H1 H2]. now apply in_in_remove.
Qed.

Lemma Z_mem_In e l : Z_mem e l = true <-> In e l.
Proof.
  unfold Z_mem. rewrite existsb_exists. split.
  - intros (x & Hx & He). apply Z.eqb_eq in He. now subst.
  - intros H. exists e. split; [assumption | apply Z.eqb_refl].
Qed.

Lemma size_class_bound s : (size_class s < NUM_SIZE_CLASSES)%nat.
Proof.
  unfold size_class, NUM_SIZE_CLASSES.
  repeat match goal with |- context [if ?c then _ else _] => destruct c end; lia.
Qed.

Lemma lists_ok_iff l (P P' : Z -> Prop) :
  (forall x, P x <-> P' x) -> lists_ok l P -> lists_ok l P'.
Proof.
  intros HPP (Hlen & Hnd & Hin). repeat split; try assumption.
  - intros H. apply HPP, Hin, H.
  - intros H. apply Hin, HPP, H.
Qed.

Lemma lists_ok_remove l P e :
  lists_ok l P ->
  lists_ok (map (remove Z.eq_dec e) l) (fun x => P x /\ x <> e).
Proof.
  intros (Hlen & Hnd & Hin). unfold lists_ok.
  rewrite length_map, remove_concat. repeat split.
  - assumption.
  - now apply NoDup_remove_elt.
  - apply Hin. apply In_remove_iff in H. tauto.
  - apply In_remove_iff in H. tauto.
  - intros [H1 H2]. apply In_remove_iff. split; [now apply Hin | assumption].
Qed.

Lemma lists_ok_push l P i e :
  lists_ok l P -> ~ P e -> (i < NUM_SIZE_CLASSES)%nat ->
  lists_ok (upd_nth i (cons e) l) (fun x => x = e \/ P x).
Proof.
  intros (Hlen & Hnd & Hin) Hne Hi. unfold lists_ok.
  rewrite upd_nth_length.
  assert (Hp := concat_upd_nth_cons i e l ltac:(lia)).
  repeat split.
  - assumption.
  - apply (Permutation_NoDup (Permutation_sym Hp)). constructor; [|assumption].
    intros H. now apply Hne, Hin.
  - intros H. apply (Permutation_in _ Hp) in H. destruct H as [<-|H]; [now left|].
    right. now apply Hin.
  - intros H. apply (Permutation_in _ (Permutation_sym Hp)).
    destruct H as [->|H]; [now left|]. right. now apply Hin.
Qed.

Lemma list_remove_run e st :
  In e (concat (segregatedList st)) ->
  list_remove e st =
  Some (tt, set_segregatedList (map (remove Z.eq_dec e) (segregatedList st)) st).
Proof.
  intros H. unfold list_remove. apply Z_mem_In in H. now rewrite H.
Qed.

Lemma segregatedListAdd_run b u s st :
  b <> 0 -> load_tag (mem st) b = {| inuse := u; size := s |} ->
  0 <= s < 2 ^ 30 ->
  segregatedListAdd b st =
  Some (tt, set_segregatedList
              (upd_nth (size_class s) (cons b) (segregatedList st)) st).
Proof.
  intros Hb Ht Hs. unfold segregatedListAdd, bind, assert, rd, list_push_front, modify.
  unfold NULL. destruct (Z.eqb_spec b 0); [contradiction|]. cbn [negb].
  rewrite (blk_size_tag _ _ _ _ Ht Hs). rewrite to_int_small by lia. reflexivity.
Qed.

Lemma prev_blk_run b u sp st :
  load_tag (mem st) (b - 4) = {| inuse := u; size := sp |} ->
  1 <= sp < 2 ^ 30 -> 4 <= b < 2 ^ 64 -> 0 <= b - 4 * sp ->
  prev_blk b st = Some (b - 4 * sp, st).
Proof.
  intros Ht Hs Hb Hle. unfold prev_blk, bind, rd, assert, ret, prev_blk_footer, WSIZE.
  rewrite ptr_sub_small by lia. rewrite Ht. cbn [size].
  destruct (Z.eqb_spec sp 0); [lia|]. cbn [negb].
  rewrite (size_t_small sp) by lia. rewrite (size_t_small (4 * sp)) by lia.
  rewrite ptr_sub_small by lia. reflexivity.
Qed.

(** ** Consequences of a well-formed arena *)

Lemma heap_ok_total m h brk maxa bs :
  heap_ok m h brk maxa bs -> 0 <= total bs /\ 4 * total bs + 4 < 2 ^ 32.
Proof.
  intros H. destruct H. split; [now apply total_nonneg | lia].
Qed.

Lemma last_snoc {A} (P : list A) (p d : A) : last (P ++ [p]) d = p.
Proof. apply last_last. Qed.

(** What the code reads around the block [b] that follows the blocks [P]. *)
Lemma heap_ok_at m h brk maxa P b Q :
  heap_ok m h brk maxa (P ++ b :: Q) ->
  let a := h + 4 * total P in
  load_tag m a = tag_of b /\
  load_tag m (a + 4 * fst b - 4) = tag_of b /\
  load_tag m (a - 4) = tag_of (last P (0, true)) /\
  load_tag m (a + 4 * fst b) = tag_of (hd (0, true) Q) /\
  MIN_BLOCK_SIZE_WORDS <= fst b < 2 ^ 30 /\
  16 <= h <= a /\ a + 4 * fst b + 4 <= brk /\ brk <= maxa < 2 ^ 64 /\
  sizes_ok P /\ sizes_ok Q.
Proof.
  intros H a. pose proof (heap_ok_total _ _ _ _ _ H) as [Ht0 Ht1].
  destruct H as [Hbase Hsz Hpro Hblk Hepi Hbrk Hmax Hcap Htop].
  apply sizes_ok_app in Hsz. destruct Hsz as [HP HbQ].
  inversion HbQ as [|? ? Hb HQ]; subst.
  pose proof (total_nonneg P HP). pose proof (total_nonneg Q HQ).
  rewrite total_app in *. cbn [total] in *.
  apply blocks_at_app in Hblk. destruct Hblk as [HbP HbbQ].
  cbn [blocks_at] in HbbQ. destruct HbbQ as (Hh & Hf & HbQ').
  fold a in Hh, Hf, HbQ'. unfold MIN_BLOCK_SIZE_WORDS in *.
  repeat split; try assumption; try lia.
  - destruct P as [|p0 P0].
    + cbn [last]. unfold a. cbn [total]. replace (h + 4 * 0 - 4) with (h - 4) by lia.
      exact Hpro.
    + destruct (exists_last (l := p0 :: P0)) as (P' & p & HPeq); [discriminate|].
      revert a Hh Hf HbQ' HbP H. rewrite HPeq. intros a Hh Hf HbQ' HbP H.
      rewrite last_snoc. apply blocks_at_app in HbP. destruct HbP as [_ Hp].
      cbn [blocks_at] in Hp. destruct Hp as (_ & Hp & _).
      rewrite <- Hp. f_equal. unfold a. rewrite total_app. cbn [total]. lia.
  - destruct Q as [|q Q]; cbn [hd].
    + cbn [total] in Hepi. change (tag_of (0, true)) with FENCE.
      rewrite <- Hepi. f_equal. unfold a. lia.
    + cbn [blocks_at] in HbQ'. tauto.
Qed.

Lemma heap_ok_replace m m' h brk maxa P mid mid' Q :
  heap_ok m h brk maxa (P ++ mid ++ Q) ->
  sizes_ok mid' -> total mid' = total mid ->
  blocks_at m' (h + 4 * total P) mid' ->
  (forall x, x < h + 4 * total P \/ h + 4 * total P + 4 * total mid <= x ->
             m' x = m x) ->
  heap_ok m' h brk maxa (P ++ mid' ++ Q).
Proof.
  intros H Hs' Ht Hb' Hfr.
  destruct H as [Hbase Hsz Hpro Hblk Hepi Hbrk Hmax Hcap Htop].
  apply sizes_ok_app in Hsz. destruct Hsz as [HP HmQ].
  apply sizes_ok_app in HmQ. destruct HmQ as [Hm HQ].
  pose proof (total_nonneg _ HP). pose proof (total_nonneg _ Hm).
  pose proof (total_nonneg _ HQ).
  apply blocks_at_app in Hblk. destruct Hblk as [HbP HbmQ].
  apply blocks_at_app in HbmQ. destruct HbmQ as [_ HbQ].
  rewrite !total_app in *.
  constructor; try assumption.
  - apply sizes_ok_app. split; [assumption|]. apply sizes_ok_app. now split.
  - rewrite <- Hpro. apply load_tag_ext. intros x Hx. apply Hfr. lia.
  - apply blocks_at_app. split.
    + apply (blocks_at_ext m); try assumption. intros x Hx. apply Hfr. lia.
    + apply blocks_at_app. split; [assumption|]. rewrite Ht.
      apply (blocks_at_ext m); try assumption. intros x Hx. apply Hfr. lia.
  - rewrite !total_app, Ht. rewrite <- Hepi. apply load_tag_ext.
    intros x Hx. apply Hfr. lia.
  - rewrite !total_app, Ht. assumption.
Qed.

Lemma lookup_outside h P mid mid' Q x :
  sizes_ok P -> sizes_ok mid -> sizes_ok mid' -> total mid' = total mid ->
  x < h + 4 * total P \/ h + 4 * total P + 4 * total mid <= x ->
  lookup h (P ++ mid' ++ Q) x = lookup h (P ++ mid ++ Q) x.
Proof.
  intros HP Hm Hm' Ht Hx.
  pose proof (total_nonneg _ Hm).
  rewrite !(lookup_app h P) by assumption.
  destruct (Z.ltb_spec x (h + 4 * total P)); [reflexivity|].
  rewrite !lookup_app by assumption. rewrite Ht.
  destruct (Z.ltb_spec x (h + 4 * total P + 4 * total mid)); [lia|reflexivity].
Qed.

Lemma lookup_inside h P mid Q x :
  sizes_ok P -> sizes_ok mid ->
  h + 4 * total P <= x < h + 4 * total P + 4 * total mid ->
  lookup h (P ++ mid ++ Q) x = lookup (h + 4 * total P) mid x.
Proof.
  intros HP Hm Hx.
  rewrite (lookup_app h P) by assumption.
  destruct (Z.ltb_spec x (h + 4 * total P)); [lia|].
  rewrite lookup_app by assumption.
  destruct (Z.ltb_spec x (h + 4 * total P + 4 * total mid)); [reflexivity|lia].
Qed.

Lemma is_free_nil a x : is_free a [] x <-> False.
Proof. unfold is_free. cbn [lookup]. split; [intros [s H]; discriminate | tauto]. Qed.

Lemma is_free_cons a s u r x :
  is_free a ((s, u) :: r) x <->
  (x = a /\ u = false) \/ (a < x /\ is_free (a + 4 * s) r x).
Proof.
  unfold is_free. cbn [lookup fst].
  destruct (Z.ltb_spec x a).
  - split; [intros [s0 H0]; discriminate | intros [[? _]|[? _]]; lia].
  - destruct (Z.eqb_spec x a).
    + split.
      * intros [s0 [= -> ->]]. now left.
      * intros [[_ ->]|[? _]]; [now exists s | lia].
    + split.
      * intros H0. right. split; [lia | assumption].
      * intros [[? _]|[_ H0]]; [lia | assumption].
Qed.

Lemma is_free_range a bs x :
  sizes_ok bs -> is_free a bs x -> a <= x < a + 4 * total bs.
Proof.
  intros Hs [s H]. apply lookup_range in H; [|assumption].
  cbn [fst] in H. unfold MIN_BLOCK_SIZE_WORDS in H. lia.
Qed.

(** The free blocks after a stretch [mid] of the arena was rewritten as
    [mid']: those outside the stretch, and those of [mid']. *)
Lemma is_free_replace h P mid mid' Q x :
  sizes_ok P -> sizes_ok mid -> sizes_ok mid' -> total mid' = total mid ->
  is_free h (P ++ mid' ++ Q) x <->
  (is_free h (P ++ mid ++ Q) x /\
   (x < h + 4 * total P \/ h + 4 * total P + 4 * total mid <= x)) \/
  is_free (h + 4 * total P) mid' x.
Proof.
  intros HP Hm Hm' Ht. unfold is_free.
  destruct (Z_lt_dec x (h + 4 * total P)) as [Hlt|Hge].
  - rewrite (lookup_outside h P mid mid' Q x) by (assumption || lia).
    rewrite (lookup_lt (h + 4 * total P) mid' x) by assumption.
    split; [intros H; left; split; [assumption|lia] | ].
    intros [[H _]|[s H]]; [assumption|discriminate].
  - destruct (Z_le_dec (h + 4 * total P + 4 * total mid) x) as [Hle|Hin].
    + rewrite (lookup_outside h P mid mid' Q x) by (assumption || lia).
      split; [intros H; left; split; [assumption|lia] | ].
      intros [[H _]|[s H]]; [assumption|].
      apply lookup_range in H; [|assumption]. cbn [fst] in H.
      unfold MIN_BLOCK_SIZE_WORDS in H. lia.
    + rewrite (lookup_inside h P mid' Q x) by (assumption || lia).
      split; [intros H; now right|]. intros [[_ H]|H]; [lia|assumption].
Qed.

Lemma is_free_split h P mid Q x :
  sizes_ok P -> sizes_ok mid ->
  is_free h (P ++ mid ++ Q) x <->
  (is_free h (P ++ mid ++ Q) x /\
   (x < h + 4 * total P \/ h + 4 * total P + 4 * total mid <= x)) \/
  is_free (h + 4 * total P) mid x.
Proof. intros HP Hm. now apply is_free_replace. Qed.

(** Allocated blocks outside a rewritten stretch are kept. *)
Lemma keeps_replace E h m m' P mid mid' Q :
  sizes_ok P -> sizes_ok mid -> sizes_ok mid' -> sizes_ok Q ->
  total mid' = total mid ->
  (forall x, x < h + 4 * total P \/ h + 4 * total P + 4 * total mid <= x ->
             m' x = m x) ->
  (forall x s, lookup (h + 4 * total P) mid x = Some (s, true) -> E x) ->
  keeps E h m m' (P ++ mid ++ Q) (P ++ mid' ++ Q).
Proof.
  intros HP Hm Hm' HQ Ht Hfr HE x s Hl HnE.
  pose proof (total_nonneg _ Hm).
  assert (Hout : x < h + 4 * total P \/ h + 4 * total P + 4 * total mid <= x).
  { destruct (Z_lt_dec x (h + 4 * total P)); [now left|].
    destruct (Z_le_dec (h + 4 * total P + 4 * total mid) x); [now right|].
    exfalso. apply HnE, (HE x s).
    rewrite <- Hl. symmetry. apply lookup_inside; (assumption || lia). }
  split.
  - rewrite <- Hl. now apply lookup_outside.
  - intros y Hy. apply Hfr.
    rewrite (lookup_app h P) in Hl by assumption.
    destruct (Z.ltb_spec x (h + 4 * total P)).
    + apply lookup_range in Hl; [|assumption]. cbn [fst] in Hl. lia.
    + lia.
Qed.

Lemma keeps_trans E h m1 m2 m3 bs1 bs2 bs3 :
  keeps E h m1 m2 bs1 bs2 -> keeps E h m2 m3 bs2 bs3 -> keeps E h m1 m3 bs1 bs3.
Proof.
  intros H12 H23 x s Hl HnE.
  destruct (H12 x s Hl HnE) as [Hl2 Hb2].
  destruct (H23 x s Hl2 HnE) as [Hl3 Hb3].
  split; [assumption|]. intros y Hy. rewrite Hb3, Hb2 by assumption. reflexivity.
Qed.

Lemma keeps_refl E h m bs : keeps E h m m bs bs.
Proof. intros x s Hl _. split; [assumption | reflexivity]. Qed.

Lemma keeps_weaken (E E' : Z -> Prop) h m m' bs bs' :
  (forall x, E x -> E' x) -> keeps E h m m' bs bs' -> keeps E' h m m' bs bs'.
Proof. intros HE H x s Hl HnE. apply H; [assumption|]. intros He. now apply HnE, HE. Qed.

(** ** Free lists by size class *)

Lemma nth_map_remove (e : Z) l i :
  nth i (map (remove Z.eq_dec e) l) [] = remove Z.eq_dec e (nth i l []).
Proof.
  revert i. induction l as [|a l IH]; intros [|i]; cbn [map nth]; try reflexivity.
  apply IH.
Qed.

Lemma In_nth_upd_nth i k (b x : Z) l :
  In x (nth i (upd_nth k (cons b) l) []) ->
  (i = k /\ x = b) \/ In x (nth i l []).
Proof.
  revert i k. induction l as [|a l IH]; intros i k.
  - destruct k; destruct i; cbn [upd_nth nth In]; tauto.
  - destruct k as [|k]; destruct i as [|i]; cbn [upd_nth nth]; try tauto.
    + cbn [In]. intros [<-|H]; [left; split; reflexivity | now right].
    + intros H. destruct (IH i k H) as [[-> ->]|H']; [left; split; reflexivity | now right].
Qed.

Lemma In_nth_concat (x : Z) i l : In x (nth i l []) -> In x (concat l).
Proof.
  intros H. apply in_concat. exists (nth i l []). split; [|assumption].
  destruct (Nat.lt_ge_cases i (length l)) as [Hlt|Hge].
  - now apply nth_In.
  - rewrite nth_overflow in H by assumption. contradiction.
Qed.

(** The free lists stay sorted by size class when a stretch [mid] of the
    arena is rewritten as [mid']: a listed block is a block that was listed
    and is not a free block of [mid], or a free block of [mid'] put on the
    list of its class. *)
Lemma buckets_replace h P mid mid' Q l l' :
  sizes_ok P -> sizes_ok mid -> sizes_ok mid' -> total mid' = total mid ->
  buckets_ok h (P ++ mid ++ Q) l ->
  (forall i x, In x (nth i l' []) ->
     (In x (nth i l []) /\
      forall s, lookup (h + 4 * total P) mid x <> Some (s, false)) \/
     (exists s, lookup (h + 4 * total P) mid' x = Some (s, false) /\
                size_class s = i)) ->
  buckets_ok h (P ++ mid' ++ Q) l'.
Proof.
  intros HP Hm Hm' Ht Hb Hnew i x Hin.
  pose proof (total_nonneg _ Hm) as Htm.
  destruct (Hnew i x Hin) as [[Hold Hnot]|(s & Hlk & Hc)].
  - destruct (Hb i x Hold) as (s & Hlk & Hc). exists s. split; [|assumption].
    destruct (Z_lt_dec x (h + 4 * total P)) as [Hlt|Hge].
    + rewrite <- Hlk. apply lookup_outside; (assumption || lia).
    + destruct (Z_le_dec (h + 4 * total P + 4 * total mid) x) as [Hle|Hin'].
      * rewrite <- Hlk. apply lookup_outside; (assumption || lia).
      * exfalso. apply (Hnot s). rewrite <- Hlk. symmetry.
        apply lookup_inside; (assumption || lia).
  - exists s. split; [|assumption].
    pose proof (lookup_range _ _ _ _ Hm' Hlk) as Hr. cbn [fst] in Hr.
    rewrite <- Hlk. apply lookup_inside; try assumption.
    unfold MIN_BLOCK_SIZE_WORDS in Hr. lia.
Qed.

(** A listed block that was listed before a removal. *)
Lemma In_nth_removed (e x : Z) i l :
  In x (nth i (map (remove Z.eq_dec e) l) []) -> In x (nth i l []) /\ x <> e.
Proof. rewrite nth_map_remove. apply In_remove_iff. Qed.

Lemma upd_nth_front k (b : Z) l :
  (k < length l)%nat -> exists rest, nth k (upd_nth k (cons b) l) [] = b :: rest.
Proof.
  revert k. induction l as [|a l IH]; intros [|k] H; cbn [length] in H;
    cbn [upd_nth nth]; try lia.
  - now exists a.
  - apply IH. lia.
Qed.

Lemma buckets_app h bs R l :
  sizes_ok bs -> buckets_ok h bs l -> buckets_ok h (bs ++ R) l.
Proof.
  intros Hs Hb i x Hx. destruct (Hb i x Hx) as (s & Hlk & Hc).
  exists s. split; [|assumption]. rewrite lookup_app by assumption.
  pose proof (lookup_range _ _ _ _ Hs Hlk) as Hr. cbn [fst] in Hr.
  unfold MIN_BLOCK_SIZE_WORDS in Hr.
  destruct (Z.ltb_spec x (h + 4 * total bs)); [assumption|lia].
Qed.

(** * Running the routines *)

Lemma bind_run {A B} (c : M A) (k : A -> M B) st a st' :
  c st = Some (a, st') -> bind c k st = k a st'.
Proof. intros H. unfold bind. now rewrite H. Qed.

Lemma bind_rd {A B} (f : memory -> A) (k : A -> M B) st :
  bind (rd f) k st = k (f (mem st)) st.
Proof. reflexivity. Qed.

Lemma bind_gets {A B} (f : state -> A) (k : A -> M B) st :
  bind (gets f) k st = k (f st) st.
Proof. reflexivity. Qed.

Lemma bind_modify {B} (f : state -> state) (k : unit -> M B) st :
  bind (modify f) k st = k tt (f st).
Proof. reflexivity. Qed.

Lemma bind_ret {A B} (a : A) (k : A -> M B) st :
  bind (ret a) k st = k a st.
Proof. reflexivity. Qed.

Lemma bind_assert {B} b (k : unit -> M B) st :
  b = true -> bind (assert b) k st = k tt st.
Proof. intros ->. reflexivity. Qed.

Lemma bind_bind {A B C} (c : M A) (k : A -> M B) (k' : B -> M C) st :
  bind (bind c k) k' st = bind c (fun a => bind (k a) k') st.
Proof. unfold bind. destruct (c st) as [[a st']|]; reflexivity. Qed.

(** [run c by tac] steps over the routine [c] at the head of a sequence,
    [tac] proving what [c] returns from the current state. *)
Tactic Notation "run" constr(c) "by" tactic(tac) :=
  erewrite (bind_run c); [ | tac ].

Ltac proj_state :=
  cbn [mem mem_brk mem_max_addr heap_listp segregatedList tag_writes
       set_mem set_mem_brk set_heap_listp set_segregatedList log_write] in *.

(** The state [place] leaves when it splits the block. *)
Lemma place_run_split bp asize u csize st :
  load_tag (mem st) bp = {| inuse := u; size := csize |} ->
  0 < asize -> MIN_BLOCK_SIZE_WORDS <= csize - asize -> csize < 2 ^ 30 ->
  In bp (concat (segregatedList st)) ->
  0 < bp -> bp + 4 * csize < 2 ^ 64 ->
  place bp asize st =
  Some (tt, mkState
    (write_tags (write_tags (mem st) bp asize true)
                (bp + 4 * asize) (csize - asize) false)
    (mem_brk st) (mem_max_addr st) (heap_listp st)
    (upd_nth (size_class (csize - asize)) (cons (bp + 4 * asize))
             (map (remove Z.eq_dec bp) (segregatedList st)))
    (PairWrite (bp + 4 * asize) (csize - asize) false
     :: PairWrite bp asize true :: tag_writes st)).
Proof.
  intros Ht Ha Hsplit Hc Hin Hb Hle. unfold MIN_BLOCK_SIZE_WORDS in *.
  unfold place.
  rewrite bind_assert by (apply Z.gtb_lt; lia).
  rewrite bind_rd. rewrite (blk_size_tag _ _ _ _ Ht) by lia.
  rewrite (bind_run _ _ _ _ _ (list_remove_run _ _ Hin)).
  rewrite (size_t_small (csize - asize)) by lia.
  destruct (Z.geb_spec (csize - asize) MIN_BLOCK_SIZE_WORDS) as [_|Hlt];
    [|unfold MIN_BLOCK_SIZE_WORDS in Hlt; lia].
  rewrite (bind_run _ _ _ _ _ (mark_block_used_run bp asize _ ltac:(lia) ltac:(lia) ltac:(lia))).
  rewrite bind_rd. proj_state.
  rewrite (next_blk_tag _ bp true asize) by (try apply write_tags_header; lia).
  rewrite (bind_run _ _ _ _ _
             (mark_block_free_run (bp + 4 * asize) (csize - asize) _
                ltac:(lia) ltac:(lia) ltac:(lia))).
  rewrite (segregatedListAdd_run (bp + 4 * asize) false (csize - asize));
    [reflexivity | lia | | lia].
  proj_state. apply write_tags_header. lia.
Qed.

(** The state [place] leaves when it takes the whole block. *)
Lemma place_run_whole bp asize u csize st :
  load_tag (mem st) bp = {| inuse := u; size := csize |} ->
  0 < asize <= csize -> csize - asize < MIN_BLOCK_SIZE_WORDS -> csize < 2 ^ 30 ->
  In bp (concat (segregatedList st)) ->
  0 < bp -> bp + 4 * csize < 2 ^ 64 ->
  place bp asize st =
  Some (tt, mkState
    (write_tags (mem st) bp csize true)
    (mem_brk st) (mem_max_addr st) (heap_listp st)
    (map (remove Z.eq_dec bp) (segregatedList st))
    (PairWrite bp csize true :: tag_writes st)).
Proof.
  intros Ht Ha Hsplit Hc Hin Hb Hle. unfold MIN_BLOCK_SIZE_WORDS in *.
  unfold place.
  rewrite bind_assert by (apply Z.gtb_lt; lia).
  rewrite bind_rd. rewrite (blk_size_tag _ _ _ _ Ht) by lia.
  rewrite (bind_run _ _ _ _ _ (list_remove_run _ _ Hin)).
  rewrite (size_t_small (csize - asize)) by lia.
  destruct (Z.geb_spec (csize - asize) MIN_BLOCK_SIZE_WORDS) as [Hge|_];
    [unfold MIN_BLOCK_SIZE_WORDS in Hge; lia|].
  rewrite (mark_block_used_run bp csize) by lia. reflexivity.
Qed.

(** * Preservation of the heap invariant *)

Lemma wf_replace st st' P mid mid' Q :
  heap_ok (mem st) (heap_listp st) (mem_brk st) (mem_max_addr st) (P ++ mid ++ Q) ->
  same_env st st' ->
  sizes_ok mid' -> total mid' = total mid ->
  blocks_at (mem st') (heap_listp st + 4 * total P) mid' ->
  (forall x, x < heap_listp st + 4 * total P \/
             heap_listp st + 4 * total P + 4 * total mid <= x ->
             mem st' x = mem st x) ->
  lists_ok (segregatedList st')
    (fun x => (is_free (heap_listp st) (P ++ mid ++ Q) x /\
               (x < heap_listp st + 4 * total P \/
                heap_listp st + 4 * total P + 4 * total mid <= x)) \/
              is_free (heap_listp st + 4 * total P) mid' x) ->
  Forall fence_write (tag_writes st') ->
  wf_with st' (P ++ mid' ++ Q).
Proof.
  intros Hok (Eh & Eb & Em) Hs' Ht Hb Hfr Hl Hlog.
  unfold wf_with, wf_gen. rewrite Eh, Eb, Em.
  assert (Hsz := hk_sizes _ _ _ _ _ Hok).
  apply sizes_ok_app in Hsz. destruct Hsz as [HP HmQ].
  apply sizes_ok_app in HmQ. destruct HmQ as [Hm HQ].
  split; [|split].
  - now apply (heap_ok_replace (mem st) (mem st') _ _ _ P mid mid' Q).
  - revert Hl. apply lists_ok_iff. intros x. symmetry.
    now apply is_free_replace.
  - assumption.
Qed.

Lemma blocks_at_one m a s u :
  blocks_at m a [(s, u)] <->
  load_tag m a = {| inuse := u; size := s |} /\
  load_tag m (a + 4 * s - 4) = {| inuse := u; size := s |}.
Proof. cbn [blocks_at fst tag_of snd]. tauto. Qed.

Lemma blocks_at_write_tags m a s u :
  1 <= s < 2 ^ 30 -> blocks_at (write_tags m a s u) a [(s, u)].
Proof.
  intros H. apply blocks_at_one. split;
    [now apply write_tags_header | now apply write_tags_footer].
Qed.

Lemma sizes_ok_one s u : MIN_BLOCK_SIZE_WORDS <= s -> sizes_ok [(s, u)].
Proof. intros H. repeat constructor. exact H. Qed.

Lemma is_free_decidable h bs x : is_free h bs x \/ ~ is_free h bs x.
Proof.
  unfold is_free. destruct (lookup h bs x) as [[s [|]]|].
  - right. intros [s0 H]. discriminate.
  - left. now exists s.
  - right. intros [s0 H]. discriminate.
Qed.

Lemma eq_false_false : false = false <-> True.
Proof. tauto. Qed.

Lemma eq_true_false : true = false <-> False.
Proof. split; [discriminate | tauto]. Qed.

Lemma prop_true (F : Prop) : F -> (F <-> True).
Proof. tauto. Qed.

Lemma prop_false (F : Prop) : ~ F -> (F <-> False).
Proof. tauto. Qed.

(** Decides a statement on the free blocks around a rewritten stretch [mid]:
    what is free inside the stretch is spelled out, what is free outside is
    settled by cases, and arithmetic does the rest. *)
Ltac free_iff h Q x HP Hmid :=
  let Hs := fresh "Hs" in
  let Hd := fresh "Hd" in
  pose proof (is_free_split h _ _ Q x HP Hmid) as Hs;
  rewrite ?is_free_cons, ?is_free_nil in Hs;
  rewrite ?is_free_cons, ?is_free_nil;
  cbn [total fst] in Hs; cbn [total fst];
  repeat match goal with v := _ |- _ => subst v end;
  rewrite ?eq_false_false, ?eq_true_false in Hs;
  rewrite ?eq_false_false, ?eq_true_false;
  lazymatch type of Hs with
  | is_free ?h0 ?bs ?x0 <-> _ =>
      destruct (is_free_decidable h0 bs x0) as [Hd|Hd];
      [ rewrite (prop_true _ Hd) in Hs; rewrite ?(prop_true _ Hd)
      | rewrite (prop_false _ Hd) in Hs; rewrite ?(prop_false _ Hd) ];
      clear Hd; lia
  end.

(** Deciding which block of an explicit stretch an address is. *)
Ltac lookup_cases :=
  cbn [lookup fst];
  repeat match goal with
         | |- context [?x <? ?y] => destruct (Z.ltb_spec x y)
         | |- context [?x =? ?y] => destruct (Z.eqb_spec x y)
         end;
  try (discriminate || contradiction || reflexivity || lia || congruence).

(** [place] on a free block of a well-formed heap; the free lists stay
    sorted by size class. *)
Lemma place_shape st P c Q a :
  wf_with st (P ++ (c, false) :: Q) ->
  MIN_BLOCK_SIZE_WORDS <= a <= c ->
  exists st',
    place (heap_listp st + 4 * total P) a st = Some (tt, st') /\
    wf_with st' (P ++ placed a c ++ Q) /\
    same_env st st' /\
    keeps nowhere (heap_listp st) (mem st) (mem st')
          (P ++ [(c, false)] ++ Q) (P ++ placed a c ++ Q) /\
    (buckets_ok (heap_listp st) (P ++ (c, false) :: Q) (segregatedList st) ->
     buckets_ok (heap_listp st) (P ++ placed a c ++ Q) (segregatedList st')).
Proof.
  intros (Hok & Hl & Hlog) Ha. set (b := heap_listp st + 4 * total P).
  pose proof (heap_ok_at _ _ _ _ _ _ _ Hok) as
    (Hh & Hf & _ & _ & Hc & Hb & Hbrk & Hmax & HP & HQ).
  fold b in Hh, Hf, Hb, Hbrk. cbn [fst tag_of snd] in *.
  unfold MIN_BLOCK_SIZE_WORDS in *.
  assert (Hin : In b (concat (segregatedList st))).
  { apply Hl. exists c. now apply lookup_mid. }
  change (P ++ (c, false) :: Q) with (P ++ [(c, false)] ++ Q) in *.
  assert (Hmid : sizes_ok [(c, false)]) by (apply sizes_ok_one; unfold MIN_BLOCK_SIZE_WORDS; lia).
  unfold placed. destruct (Z.geb_spec (c - a) MIN_BLOCK_SIZE_WORDS) as [Hge|Hlt];
    unfold MIN_BLOCK_SIZE_WORDS in *.
  - eexists. split.
    { apply (place_run_split b a false c); unfold MIN_BLOCK_SIZE_WORDS; (assumption || lia). }
    assert (Hmid' : sizes_ok [(a, true); (c - a, false)]).
    { repeat constructor; cbn [fst]; unfold MIN_BLOCK_SIZE_WORDS; lia. }
    assert (Hfr : forall x, x < b \/ b + 4 * total [(c, false)] <= x ->
      write_tags (write_tags (mem st) b a true) (b + 4 * a) (c - a) false x = mem st x).
    { cbn [total fst]. intros x Hx. rewrite !write_tags_out by lia. reflexivity. }
    split; [|split; [repeat split|split]].
    + apply (wf_replace st _ P [(c, false)]); proj_state; try assumption.
      * repeat split.
      * cbn [total fst]. lia.
      * cbn [blocks_at fst snd tag_of]. fold b.
        rewrite write_tags_other by lia. rewrite write_tags_header by lia.
        rewrite write_tags_other by lia. rewrite write_tags_footer by lia.
        rewrite write_tags_header by lia.
        replace (b + 4 * a + 4 * (c - a) - 4) with (b + 4 * a + 4 * (c - a) - 4) by lia.
        rewrite write_tags_footer by lia. tauto.
      * fold b. pose proof (lists_ok_remove _ _ b Hl) as Hl'.
        apply (lists_ok_push _ _ (size_class (c - a)) (b + 4 * a)) in Hl'.
        -- revert Hl'. apply lists_ok_iff. intros x. free_iff (heap_listp st) Q x HP Hmid.
        -- intros [Hfree Hne]. revert Hfree Hne. free_iff (heap_listp st) Q (b + 4 * a) HP Hmid.
        -- apply size_class_bound.
      * repeat constructor. assumption.
    + apply keeps_replace; try assumption.
      * cbn [total fst]. lia.
      * intros x s. cbn [lookup fst]. fold b.
        destruct (x <? b); [discriminate|].
        destruct (x =? b); discriminate.
    + intros Hbk.
      apply (buckets_replace _ P [(c, false)] _ Q (segregatedList st)); try assumption.
      * cbn [total fst]. lia.
      * proj_state. fold b. intros i x Hx.
        apply In_nth_upd_nth in Hx. destruct Hx as [[-> ->]|Hx].
        -- right. exists (c - a). split; [|reflexivity]. lookup_cases.
        -- apply In_nth_removed in Hx. destruct Hx as [Hx Hne].
           left. split; [assumption|]. intros s0. lookup_cases.
  - eexists. split.
    { apply (place_run_whole b a false c); unfold MIN_BLOCK_SIZE_WORDS; (assumption || lia). }
    assert (Hfr : forall x, x < b \/ b + 4 * total [(c, false)] <= x ->
      write_tags (mem st) b c true x = mem st x).
    { cbn [total fst]. intros x Hx. rewrite !write_tags_out by lia. reflexivity. }
    split; [|split; [repeat split|split]].
    + apply (wf_replace st _ P [(c, false)]); proj_state; try assumption.
      * repeat split.
      * apply sizes_ok_one. unfold MIN_BLOCK_SIZE_WORDS. lia.
      * reflexivity.
      * fold b. apply blocks_at_write_tags. lia.
      * fold b. generalize (lists_ok_remove _ _ b Hl). apply lists_ok_iff.
        intros x. free_iff (heap_listp st) Q x HP Hmid.
      * repeat constructor. assumption.
    + apply keeps_replace; try assumption.
      * apply sizes_ok_one. unfold MIN_BLOCK_SIZE_WORDS. lia.
      * reflexivity.
      * intros x s. cbn [lookup fst]. fold b.
        destruct (x <? b); [discriminate|].
        destruct (x =? b); discriminate.
    + intros Hbk.
      apply (buckets_replace _ P [(c, false)] _ Q (segregatedList st)); try assumption.
      * apply sizes_ok_one. unfold MIN_BLOCK_SIZE_WORDS. lia.
      * reflexivity.
      * proj_state. fold b. intros i x Hx.
        apply In_nth_removed in Hx. destruct Hx as [Hx Hne].
        left. split; [assumption|]. intros s0. lookup_cases.
Qed.

Lemma place_spec st P c Q a :
  wf_with st (P ++ (c, false) :: Q) ->
  MIN_BLOCK_SIZE_WORDS <= a <= c ->
  exists st',
    place (heap_listp st + 4 * total P) a st = Some (tt, st') /\
    wf_with st' (P ++ placed a c ++ Q) /\
    same_env st st' /\
    keeps nowhere (heap_listp st) (mem st) (mem st')
          (P ++ [(c, false)] ++ Q) (P ++ placed a c ++ Q).
Proof.
  intros Hwf Ha. destruct (place_shape st P c Q a Hwf Ha) as (st' & H1 & H2 & H3 & H4 & _).
  now exists st'.
Qed.


(** ** The four cases of [coalesce], as runs of the code *)

Lemma In_concat_remove (e x : Z) l :
  In x (concat l) -> x <> e -> In x (concat (map (remove Z.eq_dec e) l)).
Proof. intros H Hne. rewrite remove_concat. now apply In_remove_iff. Qed.

Lemma coalesce_run1 bp sp u s sn st :
  load_tag (mem st) (bp - 4) = {| inuse := true; size := sp |} ->
  load_tag (mem st) bp = {| inuse := u; size := s |} ->
  load_tag (mem st) (bp + 4 * s) = {| inuse := true; size := sn |} ->
  1 <= s < 2 ^ 30 -> 4 <= bp -> bp + 4 * s < 2 ^ 64 ->
  coalesce bp st =
  Some (bp, set_segregatedList
              (upd_nth (size_class s) (cons bp) (segregatedList st)) st).
Proof.
  intros Hp Hh Hn Hs Hb Hle. unfold coalesce.
  rewrite bind_assert by (unfold NULL; destruct (Z.eqb_spec bp 0); [lia|reflexivity]).
  rewrite !bind_rd. unfold prev_blk_footer, WSIZE. rewrite ptr_sub_small by lia.
  rewrite Hp. cbn [inuse].
  rewrite (next_blk_tag _ bp u s) by (assumption || lia).
  rewrite (blk_free_tag _ _ _ _ Hn). rewrite (blk_size_tag _ _ _ _ Hh) by lia.
  rewrite bind_assert by (apply Z.gtb_lt; lia).
  cbn [negb andb].
  rewrite (bind_run _ _ _ _ _ (segregatedListAdd_run bp u s st ltac:(lia) Hh ltac:(lia))).
  reflexivity.
Qed.

Lemma coalesce_run2 bp sp u s sn st :
  load_tag (mem st) (bp - 4) = {| inuse := true; size := sp |} ->
  load_tag (mem st) bp = {| inuse := u; size := s |} ->
  load_tag (mem st) (bp + 4 * s) = {| inuse := false; size := sn |} ->
  1 <= s -> 0 <= sn -> s + sn < 2 ^ 30 -> 4 <= bp -> bp + 4 * (s + sn) < 2 ^ 64 ->
  In (bp + 4 * s) (concat (segregatedList st)) ->
  coalesce bp st =
  Some (bp, mkState
    (write_tags (mem st) bp (s + sn) false)
    (mem_brk st) (mem_max_addr st) (heap_listp st)
    (upd_nth (size_class (s + sn)) (cons bp)
             (map (remove Z.eq_dec (bp + 4 * s)) (segregatedList st)))
    (PairWrite bp (s + sn) false :: tag_writes st)).
Proof.
  intros Hp Hh Hn Hs Hsn Hsum Hb Hle Hin. unfold coalesce.
  rewrite bind_assert by (unfold NULL; destruct (Z.eqb_spec bp 0); [lia|reflexivity]).
  rewrite !bind_rd. unfold prev_blk_footer, WSIZE. rewrite ptr_sub_small by lia.
  rewrite Hp. cbn [inuse].
  rewrite (next_blk_tag _ bp u s) by (assumption || lia).
  rewrite (blk_free_tag _ _ _ _ Hn). rewrite (blk_size_tag _ _ _ _ Hh) by lia.
  rewrite bind_assert by (apply Z.gtb_lt; lia).
  cbn [negb andb]. rewrite bind_rd.
  rewrite (next_blk_tag _ bp u s) by (assumption || lia).
  rewrite (bind_run _ _ _ _ _ (list_remove_run _ _ Hin)).
  rewrite bind_rd. proj_state.
  rewrite (next_blk_tag _ bp u s) by (assumption || lia).
  rewrite (blk_size_tag _ _ _ _ Hn) by lia.
  rewrite (size_t_small (s + sn)) by lia.
  rewrite (bind_run _ _ _ _ _
             (mark_block_free_run bp (s + sn) _ ltac:(lia) ltac:(lia) ltac:(lia))).
  erewrite (bind_run (segregatedListAdd bp));
    [|apply (segregatedListAdd_run bp false (s + sn));
      [lia | proj_state; apply write_tags_header; lia | lia]].
  reflexivity.
Qed.

Lemma coalesce_run3 bp up sp u s sn st :
  load_tag (mem st) (bp - 4) = {| inuse := false; size := sp |} ->
  load_tag (mem st) (bp - 4 * sp) = {| inuse := up; size := sp |} ->
  load_tag (mem st) bp = {| inuse := u; size := s |} ->
  load_tag (mem st) (bp + 4 * s) = {| inuse := true; size := sn |} ->
  1 <= s -> 1 <= sp -> s + sp < 2 ^ 30 -> 4 <= bp - 4 * sp -> bp + 4 * s < 2 ^ 64 ->
  In (bp - 4 * sp) (concat (segregatedList st)) ->
  coalesce bp st =
  Some (bp - 4 * sp, mkState
    (write_tags (mem st) (bp - 4 * sp) (s + sp) false)
    (mem_brk st) (mem_max_addr st) (heap_listp st)
    (upd_nth (size_class (s + sp)) (cons (bp - 4 * sp))
             (map (remove Z.eq_dec (bp - 4 * sp)) (segregatedList st)))
    (PairWrite (bp - 4 * sp) (s + sp) false :: tag_writes st)).
Proof.
  intros Hp Hph Hh Hn Hs Hsp Hsum Hb Hle Hin. unfold coalesce.
  rewrite bind_assert by (unfold NULL; destruct (Z.eqb_spec bp 0); [lia|reflexivity]).
  rewrite !bind_rd. unfold prev_blk_footer, WSIZE. rewrite ptr_sub_small by lia.
  rewrite Hp. cbn [inuse].
  rewrite (next_blk_tag _ bp u s) by (assumption || lia).
  rewrite (blk_free_tag _ _ _ _ Hn). rewrite (blk_size_tag _ _ _ _ Hh) by lia.
  rewrite bind_assert by (apply Z.gtb_lt; lia).
  cbn [negb andb].
  run (prev_blk bp) by (apply (prev_blk_run bp false sp); (assumption || lia)).
  run (list_remove (bp - 4 * sp)) by (now apply list_remove_run).
  run (prev_blk bp) by (apply (prev_blk_run bp false sp); (assumption || lia)).
  rewrite bind_rd. proj_state.
  rewrite (blk_size_tag _ _ _ _ Hph) by lia.
  rewrite (size_t_small (s + sp)) by lia.
  run (mark_block_free (bp - 4 * sp) (s + sp)) by (apply mark_block_free_run; lia).
  run (segregatedListAdd (bp - 4 * sp))
    by (apply (segregatedListAdd_run (bp - 4 * sp) false (s + sp));
        [lia | proj_state; apply write_tags_header; lia | lia]).
  reflexivity.
Qed.

Lemma coalesce_run4 bp up sp u s sn st :
  load_tag (mem st) (bp - 4) = {| inuse := false; size := sp |} ->
  load_tag (mem st) (bp - 4 * sp) = {| inuse := up; size := sp |} ->
  load_tag (mem st) bp = {| inuse := u; size := s |} ->
  load_tag (mem st) (bp + 4 * s) = {| inuse := false; size := sn |} ->
  1 <= s -> 2 <= sp -> 0 <= sn -> s + sn + sp < 2 ^ 30 ->
  4 <= bp - 4 * sp -> bp + 4 * (s + sn) < 2 ^ 64 ->
  In (bp - 4 * sp) (concat (segregatedList st)) ->
  In (bp + 4 * s) (concat (segregatedList st)) ->
  coalesce bp st =
  Some (bp - 4 * sp, mkState
    (write_tags (mem st) (bp - 4 * sp) (s + sn + sp) false)
    (mem_brk st) (mem_max_addr st) (heap_listp st)
    (upd_nth (size_class (s + sn + sp)) (cons (bp - 4 * sp))
       (map (remove Z.eq_dec (bp + 4 * s))
          (map (remove Z.eq_dec (bp - 4 * sp)) (segregatedList st))))
    (PairWrite (bp - 4 * sp) (s + sn + sp) false :: tag_writes st)).
Proof.
  intros Hp Hph Hh Hn Hs Hsp Hsn Hsum Hb Hle Hinp Hinn. unfold coalesce.
  rewrite bind_assert by (unfold NULL; destruct (Z.eqb_spec bp 0); [lia|reflexivity]).
  rewrite !bind_rd. unfold prev_blk_footer, WSIZE. rewrite ptr_sub_small by lia.
  rewrite Hp. cbn [inuse].
  rewrite (next_blk_tag _ bp u s) by (assumption || lia).
  rewrite (blk_free_tag _ _ _ _ Hn). rewrite (blk_size_tag _ _ _ _ Hh) by lia.
  rewrite bind_assert by (apply Z.gtb_lt; lia).
  cbn [negb andb].
  run (prev_blk bp) by (apply (prev_blk_run bp false sp); (assumption || lia)).
  run (list_remove (bp - 4 * sp)) by (now apply list_remove_run).
  rewrite bind_rd. proj_state.
  rewrite (next_blk_tag _ bp u s) by (assumption || lia).
  run (list_remove (bp + 4 * s))
    by (apply list_remove_run; proj_state; apply In_concat_remove; [assumption|lia]).
  proj_state.
  run (prev_blk bp) by (apply (prev_blk_run bp false sp); (assumption || lia)).
  rewrite bind_rd. proj_state.
  rewrite (next_blk_tag _ bp u s) by (assumption || lia).
  rewrite (blk_size_tag _ _ _ _ Hn) by lia.
  run (prev_blk bp) by (apply (prev_blk_run bp false sp); (assumption || lia)).
  rewrite bind_rd. proj_state.
  rewrite (blk_size_tag _ _ _ _ Hph) by lia.
  rewrite (size_t_small (s + sn)) by lia.
  rewrite (size_t_small (s + sn + sp)) by lia.
  run (mark_block_free (bp - 4 * sp) (s + sn + sp))
    by (apply mark_block_free_run; lia).
  run (prev_blk bp)
    by (apply (prev_blk_run bp false sp);
        [proj_state; rewrite write_tags_other by lia; exact Hp | lia ..]).
  run (segregatedListAdd (bp - 4 * sp))
    by (apply (segregatedListAdd_run (bp - 4 * sp) false (s + sn + sp));
        [lia | proj_state; apply write_tags_header; lia | lia]).
  reflexivity.
Qed.

Lemma last_free_inv (P : list blockd) :
  snd (last P (0, true)) = false -> exists P0 sp, P = P0 ++ [(sp, false)].
Proof.
  intros H. destruct P as [|p0 P1]; [discriminate|].
  destruct (exists_last (l := p0 :: P1)) as (P0 & [sp up] & HPeq); [discriminate|].
  rewrite HPeq in *. rewrite last_snoc in H. cbn [snd] in H. subst up.
  now exists P0, sp.
Qed.

Lemma hd_free_inv (Q : list blockd) :
  snd (hd (0, true) Q) = false -> exists sn Q', Q = (sn, false) :: Q'.
Proof.
  intros H. destruct Q as [|[sn un] Q']; [discriminate|].
  cbn [hd snd] in H. subst un. now exists sn, Q'.
Qed.

Lemma tag_of_inuse b : tag_of b = {| inuse := snd b; size := fst b |}.
Proof. reflexivity. Qed.

(** [coalesce] on a free block that is in no list yet, in an otherwise
    well-formed heap: the result is a well-formed heap, the returned block
    is free, at least as large, and no allocated block was touched.  The
    returned block is the given one merged with the free blocks [A] and [B]
    next to it, which are the neighbours the code found free. *)
Lemma coalesce_shape st P s Q :
  wf_gen st (P ++ (s, false) :: Q)
    (fun x => is_free (heap_listp st) (P ++ (s, false) :: Q) x /\
              x <> heap_listp st + 4 * total P) ->
  exists r st' P' s' Q',
    coalesce (heap_listp st + 4 * total P) st = Some (r, st') /\
    wf_with st' (P' ++ (s', false) :: Q') /\
    r = heap_listp st + 4 * total P' /\
    (s <= s' /\ r <= heap_listp st + 4 * total P /\
     heap_listp st + 4 * total P + 4 * s <= r + 4 * s') /\
    same_env st st' /\
    keeps nowhere (heap_listp st) (mem st) (mem st')
          (P ++ (s, false) :: Q) (P' ++ (s', false) :: Q') /\
    (buckets_ok (heap_listp st) (P ++ (s, false) :: Q) (segregatedList st) ->
     buckets_ok (heap_listp st) (P' ++ (s', false) :: Q') (segregatedList st')) /\
    (exists rest, nth (size_class s') (segregatedList st') [] = r :: rest) /\
    exists A B,
      P = P' ++ A /\ Q = B ++ Q' /\ s' = total A + s + total B /\
      all_free A /\ all_free B /\
      (A = [] -> snd (last P (0, true)) = true) /\
      (B = [] -> snd (hd (0, true) Q) = true) /\
      (length A <= 1)%nat /\ (length B <= 1)%nat.
Proof.
  intros (Hok & Hl & Hlog). set (h := heap_listp st) in *.
  set (b := h + 4 * total P) in *.
  assert (Eb0 : b = h + 4 * total P) by reflexivity.
  pose proof (heap_ok_total _ _ _ _ _ Hok) as [Ht0 Ht1].
  pose proof (hk_brk _ _ _ _ _ Hok) as Ebrk.
  pose proof (heap_ok_at _ _ _ _ _ _ _ Hok) as
    (Hh & Hf & Hprev & Hnext & Hs & Hb & Hbrk & Hmax & HP & HQ).
  fold b in Hh, Hf, Hprev, Hnext, Hb, Hbrk.
  unfold tag_of in Hh, Hf, Hprev, Hnext. cbn [fst snd] in Hh, Hf, Hs, Hnext, Hbrk.
  unfold MIN_BLOCK_SIZE_WORDS in *.
  assert (Hfreeb : is_free h (P ++ (s, false) :: Q) b).
  { exists s. now apply lookup_mid. }
  pose proof (total_nonneg _ HP) as HtP.
  match type of Hprev with _ = {| inuse := ?u; size := _ |} =>
    destruct u eqn:Epu end;
  match type of Hnext with _ = {| inuse := ?u; size := _ |} =>
    destruct u eqn:Enu end.
  - (* both neighbours in use *)
    exists b, (set_segregatedList
                 (upd_nth (size_class s) (cons b) (segregatedList st)) st), P, s, Q.
    split; [|split; [|split; [|split; [|split; [|split; [|split; [|split]]]]]]].
    + apply (coalesce_run1 b _ false s _ st Hprev Hh Hnext); lia.
    + split; [|split]; proj_state; try assumption.
      generalize (lists_ok_push _ _ (size_class s) b Hl ltac:(tauto) (size_class_bound s)).
      apply lists_ok_iff. intros x. fold h. destruct (Z.eq_dec x b); [subst|]; tauto.
    + reflexivity.
    + fold h. lia.
    + repeat split.
    + apply keeps_refl.
    + intros Hbk. change (P ++ (s, false) :: Q) with (P ++ [(s, false)] ++ Q) in *.
      apply (buckets_replace _ P [(s, false)] _ Q (segregatedList st)); try assumption.
      * apply sizes_ok_one. unfold MIN_BLOCK_SIZE_WORDS. lia.
      * apply sizes_ok_one. unfold MIN_BLOCK_SIZE_WORDS. lia.
      * reflexivity.
      * proj_state. fold h; fold b. intros i x Hx.
        apply In_nth_upd_nth in Hx. destruct Hx as [[-> ->]|Hx].
        -- right. exists s. split; [|reflexivity]. lookup_cases.
        -- pose proof (In_nth_concat _ _ _ Hx) as Hc. apply Hl in Hc.
           destruct Hc as [_ Hxb].
           left. split; [assumption|]. intros s0. lookup_cases.
    + proj_state. apply upd_nth_front. rewrite ?length_map.
      destruct Hl as (Hlen & _). rewrite Hlen. apply size_class_bound.
    + exists [], []. rewrite app_nil_r. cbn [app total].
      repeat split;
        solve [repeat constructor | assumption | discriminate | lia | intros _; assumption
              | cbn [length]; lia].
  - (* only the successor is free *)
    apply hd_free_inv in Enu. destruct Enu as (sn & Q' & ->).
    cbn [hd fst snd] in Hnext.
    change (P ++ (s, false) :: (sn, false) :: Q')
      with (P ++ [(s, false); (sn, false)] ++ Q') in *.
    pose proof (hk_sizes _ _ _ _ _ Hok) as Hsz.
    apply sizes_ok_app in Hsz. destruct Hsz as [_ Hsz].
    apply sizes_ok_app in Hsz. destruct Hsz as [Hmid HQ'].
    assert (Hsn : MIN_BLOCK_SIZE_WORDS <= sn).
    { inversion Hmid as [|? ? _ Hm2]. inversion Hm2. assumption. }
    rewrite !total_app in *. cbn [total fst] in *. unfold MIN_BLOCK_SIZE_WORDS in *.
    pose proof (total_nonneg _ HQ').
    assert (Hinn : In (b + 4 * s) (concat (segregatedList st))).
    { apply Hl. split; [|lia]. free_iff h Q' (b + 4 * s) HP Hmid. }
    eexists b, _, P, (s + sn), Q'.
    split; [|split; [|split; [|split; [|split; [|split; [|split; [|split]]]]]]].
    + apply (coalesce_run2 b _ false s sn st Hprev Hh Hnext); (assumption || lia).
    + change (P ++ (s + sn, false) :: Q') with (P ++ [(s + sn, false)] ++ Q').
      apply (wf_replace st _ P [(s, false); (sn, false)]); proj_state; fold h; fold b;
        try assumption.
      * repeat split.
      * apply sizes_ok_one. unfold MIN_BLOCK_SIZE_WORDS. lia.
      * cbn [total fst]. lia.
      * apply blocks_at_write_tags. lia.
      * cbn [total fst]. intros x Hx. apply write_tags_out; lia.
      * pose proof (lists_ok_remove _ _ (b + 4 * s) Hl) as Hl'.
        apply (lists_ok_push _ _ (size_class (s + sn)) b) in Hl'.
        -- revert Hl'. apply lists_ok_iff. intros x. free_iff h Q' x HP Hmid.
        -- tauto.
        -- apply size_class_bound.
      * constructor; [exact I | assumption].
    + reflexivity.
    + fold h. lia.
    + repeat split.
    + change (P ++ (s + sn, false) :: Q') with (P ++ [(s + sn, false)] ++ Q').
      apply keeps_replace; try assumption.
      * apply sizes_ok_one. unfold MIN_BLOCK_SIZE_WORDS. lia.
      * cbn [total fst]. lia.
      * proj_state. fold h; fold b. cbn [total fst]. intros x Hx. apply write_tags_out; lia.
      * intros x s0. cbn [lookup fst]. fold h; fold b.
        destruct (x <? b); [discriminate|].
        destruct (x =? b); [discriminate|].
        destruct (x <? b + 4 * s); [discriminate|].
        destruct (x =? b + 4 * s); discriminate.
    + intros Hbk. change (P ++ (s + sn, false) :: Q') with (P ++ [(s + sn, false)] ++ Q').
      apply (buckets_replace _ P [(s, false); (sn, false)] _ Q' (segregatedList st));
        try assumption.
      * apply sizes_ok_one. unfold MIN_BLOCK_SIZE_WORDS. lia.
      * cbn [total fst]. lia.
      * proj_state. fold h; fold b. intros i x Hx.
        apply In_nth_upd_nth in Hx. destruct Hx as [[-> ->]|Hx].
        -- right. exists (s + sn). split; [|reflexivity]. lookup_cases.
        -- apply In_nth_removed in Hx. destruct Hx as [Hx Hne].
           pose proof (In_nth_concat _ _ _ Hx) as Hc. apply Hl in Hc.
           destruct Hc as [_ Hxb].
           left. split; [assumption|]. intros s0. lookup_cases.
    + proj_state. apply upd_nth_front. rewrite ?length_map.
      destruct Hl as (Hlen & _). rewrite Hlen. apply size_class_bound.
    + exists [], [(sn, false)]. rewrite app_nil_r. cbn [app total fst].
      repeat split;
        solve [repeat constructor | assumption | discriminate | lia | intros _; assumption
              | cbn [length]; lia].
  - (* only the predecessor is free *)
    apply last_free_inv in Epu. destruct Epu as (P0 & sp & HPeq).
    revert b Eb0 Hok Hl Hh Hf Hprev Hnext Hb Hbrk HP Hfreeb Ht0 Ht1 HtP Ebrk. rewrite HPeq.
    intros b Eb0 Hok Hl Hh Hf Hprev Hnext Hb Hbrk HP Hfreeb Ht0 Ht1 HtP Ebrk.
    rewrite last_snoc in Hprev. cbn [fst snd] in Hprev.
    rewrite <- app_assoc in Hok, Hl, Hfreeb, Ht0, Ht1, Ebrk.
    cbn [app] in Hok, Hl, Hfreeb, Ht0, Ht1, Ebrk.
    pose proof (heap_ok_at _ _ _ _ _ _ _ Hok) as
      (Hph & _ & _ & _ & Hsp & Hpb & _ & _ & HP0 & _).
    unfold tag_of in Hph. cbn [fst snd] in Hph, Hsp. fold h in Hph, Hpb.
    set (pb := h + 4 * total P0) in *.
    assert (Epb : pb = h + 4 * total P0) by reflexivity.
    assert (Eb : b = pb + 4 * sp).
    { unfold b, pb. rewrite total_app. cbn [total fst]. lia. }
    change (P0 ++ (sp, false) :: (s, false) :: Q)
      with (P0 ++ [(sp, false); (s, false)] ++ Q) in *.
    assert (Hmid : sizes_ok [(sp, false); (s, false)]).
    { repeat constructor; cbn [fst]; unfold MIN_BLOCK_SIZE_WORDS in *; lia. }
    rewrite !total_app in *. cbn [total fst] in *. unfold MIN_BLOCK_SIZE_WORDS in *.
    pose proof (total_nonneg _ HQ). pose proof (total_nonneg _ HP0).
    assert (Hinp : In pb (concat (segregatedList st))).
    { apply Hl. split; [|lia]. free_iff h Q pb HP0 Hmid. }
    replace pb with (b - 4 * sp) in Hph, Hinp by lia.
    eexists (b - 4 * sp), _, P0, (s + sp), Q.
    split; [|split; [|split; [|split; [|split; [|split; [|split; [|split]]]]]]].
    + apply (coalesce_run3 b false sp false s _ st Hprev Hph Hh Hnext); (assumption || lia).
    + change (P0 ++ (s + sp, false) :: Q) with (P0 ++ [(s + sp, false)] ++ Q).
      apply (wf_replace st _ P0 [(sp, false); (s, false)]); proj_state; fold h; fold pb;
        try assumption.
      * repeat split.
      * apply sizes_ok_one. unfold MIN_BLOCK_SIZE_WORDS. lia.
      * cbn [total fst]. lia.
      * replace (b - 4 * sp) with pb by lia. apply blocks_at_write_tags. lia.
      * cbn [total fst]. intros x Hx. apply write_tags_out; lia.
      * pose proof (lists_ok_remove _ _ (b - 4 * sp) Hl) as Hl'.
        apply (lists_ok_push _ _ (size_class (s + sp)) (b - 4 * sp)) in Hl'.
        -- revert Hl'. apply lists_ok_iff. intros x. free_iff h Q x HP0 Hmid.
        -- tauto.
        -- apply size_class_bound.
      * constructor; [exact I | assumption].
    + fold h. fold pb. lia.
    + fold h. rewrite ?total_app. cbn [total fst]. lia.
    + repeat split.
    + rewrite <- app_assoc. cbn [app].
      change (P0 ++ (sp, false) :: (s, false) :: Q)
        with (P0 ++ [(sp, false); (s, false)] ++ Q).
      change (P0 ++ (s + sp, false) :: Q) with (P0 ++ [(s + sp, false)] ++ Q).
      apply keeps_replace; try assumption.
      * apply sizes_ok_one. unfold MIN_BLOCK_SIZE_WORDS. lia.
      * cbn [total fst]. lia.
      * proj_state. fold h; fold pb. cbn [total fst]. intros x Hx. apply write_tags_out; lia.
      * intros x s0. cbn [lookup fst]. fold h; fold pb.
        destruct (x <? pb); [discriminate|].
        destruct (x =? pb); [discriminate|].
        destruct (x <? pb + 4 * sp); [discriminate|].
        destruct (x =? pb + 4 * sp); discriminate.
    + intros Hbk. rewrite <- app_assoc in Hbk. cbn [app] in Hbk.
      change (P0 ++ (s + sp, false) :: Q) with (P0 ++ [(s + sp, false)] ++ Q).
      apply (buckets_replace _ P0 [(sp, false); (s, false)] _ Q (segregatedList st));
        try assumption.
      * apply sizes_ok_one. unfold MIN_BLOCK_SIZE_WORDS. lia.
      * cbn [total fst]. lia.
      * proj_state. fold h; fold pb. intros i x Hx.
        apply In_nth_upd_nth in Hx. destruct Hx as [[-> ->]|Hx].
        -- right. exists (s + sp). split; [|reflexivity]. lookup_cases.
        -- apply In_nth_removed in Hx. destruct Hx as [Hx Hne].
           pose proof (In_nth_concat _ _ _ Hx) as Hc. apply Hl in Hc.
           destruct Hc as [_ Hxb].
           left. split; [assumption|]. intros s0. lookup_cases.
    + proj_state. apply upd_nth_front. rewrite ?length_map.
      destruct Hl as (Hlen & _). rewrite Hlen. apply size_class_bound.
    + exists [(sp, false)], []. cbn [app total fst].
      repeat split;
        solve [repeat constructor | assumption | discriminate | lia | intros _; assumption
              | cbn [length]; lia].
  - (* both neighbours are free *)
    apply hd_free_inv in Enu. destruct Enu as (sn & Q' & ->).
    cbn [hd fst snd] in Hnext.
    apply last_free_inv in Epu. destruct Epu as (P0 & sp & HPeq).
    revert b Eb0 Hok Hl Hh Hf Hprev Hnext Hb Hbrk HP Hfreeb Ht0 Ht1 HtP Ebrk. rewrite HPeq.
    intros b Eb0 Hok Hl Hh Hf Hprev Hnext Hb Hbrk HP Hfreeb Ht0 Ht1 HtP Ebrk.
    rewrite last_snoc in Hprev. cbn [fst snd] in Hprev.
    rewrite <- app_assoc in Hok, Hl, Hfreeb, Ht0, Ht1, Ebrk.
    cbn [app] in Hok, Hl, Hfreeb, Ht0, Ht1, Ebrk.
    pose proof (heap_ok_at _ _ _ _ _ _ _ Hok) as
      (Hph & _ & _ & _ & Hsp & Hpb & _ & _ & HP0 & _).
    unfold tag_of in Hph. cbn [fst snd] in Hph, Hsp. fold h in Hph, Hpb.
    set (pb := h + 4 * total P0) in *.
    assert (Epb : pb = h + 4 * total P0) by reflexivity.
    assert (Eb : b = pb + 4 * sp).
    { unfold b, pb. rewrite total_app. cbn [total fst]. lia. }
    change (P0 ++ (sp, false) :: (s, false) :: (sn, false) :: Q')
      with (P0 ++ [(sp, false); (s, false); (sn, false)] ++ Q') in *.
    pose proof (hk_sizes _ _ _ _ _ Hok) as Hsz.
    apply sizes_ok_app in Hsz. destruct Hsz as [_ Hsz].
    apply sizes_ok_app in Hsz. destruct Hsz as [Hmid HQ'].
    assert (Hsn : MIN_BLOCK_SIZE_WORDS <= sn).
    { inversion Hmid as [|? ? _ Hm2]. inversion Hm2 as [|? ? _ Hm3].
      inversion Hm3. assumption. }
    rewrite !total_app in *. cbn [total fst] in *. unfold MIN_BLOCK_SIZE_WORDS in *.
    pose proof (total_nonneg _ HQ'). pose proof (total_nonneg _ HP0).
    assert (Hinp : In pb (concat (segregatedList st))).
    { apply Hl. split; [|lia]. free_iff h Q' pb HP0 Hmid. }
    assert (Hinn : In (b + 4 * s) (concat (segregatedList st))).
    { apply Hl. split; [|lia]. free_iff h Q' (b + 4 * s) HP0 Hmid. }
    replace pb with (b - 4 * sp) in Hph, Hinp by lia.
    eexists (b - 4 * sp), _, P0, (s + sn + sp), Q'.
    split; [|split; [|split; [|split; [|split; [|split; [|split; [|split]]]]]]].
    + apply (coalesce_run4 b false sp false s sn st Hprev Hph Hh Hnext); (assumption || lia).
    + change (P0 ++ (s + sn + sp, false) :: Q') with (P0 ++ [(s + sn + sp, false)] ++ Q').
      apply (wf_replace st _ P0 [(sp, false); (s, false); (sn, false)]);
        proj_state; fold h; fold pb; try assumption.
      * repeat split.
      * apply sizes_ok_one. unfold MIN_BLOCK_SIZE_WORDS. lia.
      * cbn [total fst]. lia.
      * replace (b - 4 * sp) with pb by lia. apply blocks_at_write_tags. lia.
      * cbn [total fst]. intros x Hx. apply write_tags_out; lia.
      * pose proof (lists_ok_remove _ _ (b + 4 * s)
                      (lists_ok_remove _ _ (b - 4 * sp) Hl)) as Hl'.
        apply (lists_ok_push _ _ (size_class (s + sn + sp)) (b - 4 * sp)) in Hl'.
        -- revert Hl'. apply lists_ok_iff. intros x. free_iff h Q' x HP0 Hmid.
        -- tauto.
        -- apply size_class_bound.
      * constructor; [exact I | assumption].
    + fold h. fold pb. lia.
    + fold h. rewrite ?total_app. cbn [total fst]. lia.
    + repeat split.
    + rewrite <- app_assoc. cbn [app].
      change (P0 ++ (sp, false) :: (s, false) :: (sn, false) :: Q')
        with (P0 ++ [(sp, false); (s, false); (sn, false)] ++ Q').
      change (P0 ++ (s + sn + sp, false) :: Q') with (P0 ++ [(s + sn + sp, false)] ++ Q').
      apply keeps_replace; try assumption.
      * apply sizes_ok_one. unfold MIN_BLOCK_SIZE_WORDS. lia.
      * cbn [total fst]. lia.
      * proj_state. fold h; fold pb. cbn [total fst]. intros x Hx. apply write_tags_out; lia.
      * intros x s0. cbn [lookup fst]. fold h; fold pb.
        destruct (x <? pb); [discriminate|].
        destruct (x =? pb); [discriminate|].
        destruct (x <? pb + 4 * sp); [discriminate|].
        destruct (x =? pb + 4 * sp); [discriminate|].
        destruct (x <? pb + 4 * sp + 4 * s); [discriminate|].
        destruct (x =? pb + 4 * sp + 4 * s); discriminate.
    + intros Hbk. rewrite <- app_assoc in Hbk. cbn [app] in Hbk.
      change (P0 ++ (s + sn + sp, false) :: Q') with (P0 ++ [(s + sn + sp, false)] ++ Q').
      apply (buckets_replace _ P0 [(sp, false); (s, false); (sn, false)] _ Q'
               (segregatedList st)); try assumption.
      * apply sizes_ok_one. unfold MIN_BLOCK_SIZE_WORDS. lia.
      * cbn [total fst]. lia.
      * proj_state. fold h; fold pb. intros i x Hx.
        apply In_nth_upd_nth in Hx. destruct Hx as [[-> ->]|Hx].
        -- right. exists (s + sn + sp). split; [|reflexivity]. lookup_cases.
        -- apply In_nth_removed in Hx. destruct Hx as [Hx Hne].
           apply In_nth_removed in Hx. destruct Hx as [Hx Hne'].
           pose proof (In_nth_concat _ _ _ Hx) as Hc. apply Hl in Hc.
           destruct Hc as [_ Hxb].
           left. split; [assumption|]. intros s0. lookup_cases.
    + proj_state. apply upd_nth_front. rewrite ?length_map.
      destruct Hl as (Hlen & _). rewrite Hlen. apply size_class_bound.
    + exists [(sp, false)], [(sn, false)]. cbn [app total fst].
      repeat split;
        solve [repeat constructor | assumption | discriminate | lia | intros _; assumption
              | cbn [length]; lia].
Qed.

Lemma coalesce_spec st P s Q :
  wf_gen st (P ++ (s, false) :: Q)
    (fun x => is_free (heap_listp st) (P ++ (s, false) :: Q) x /\
              x <> heap_listp st + 4 * total P) ->
  exists r st' P' s' Q',
    coalesce (heap_listp st + 4 * total P) st = Some (r, st') /\
    wf_with st' (P' ++ (s', false) :: Q') /\
    r = heap_listp st + 4 * total P' /\
    (s <= s' /\ r <= heap_listp st + 4 * total P /\
     heap_listp st + 4 * total P + 4 * s <= r + 4 * s') /\
    same_env st st' /\
    keeps nowhere (heap_listp st) (mem st) (mem st')
          (P ++ (s, false) :: Q) (P' ++ (s', false) :: Q').
Proof.
  intros H. destruct (coalesce_shape st P s Q H)
    as (r & st' & P' & s' & Q' & H1 & H2 & H3 & H4 & H5 & H6 & _).
  now exists r, st', P', s', Q'.
Qed.

(** ** Heap extension *)

Lemma heap_ok_extend m h brk maxa bs w :
  heap_ok m h brk maxa bs -> MIN_BLOCK_SIZE_WORDS <= w -> brk + 4 * w <= maxa ->
  heap_ok (store_tag (write_tags m (h + 4 * total bs) w false)
                     (h + 4 * total bs + 4 * w) FENCE)
          h (brk + 4 * w) maxa (bs ++ [(w, false)]).
Proof.
  intros H Hw Hfit. pose proof (heap_ok_total _ _ _ _ _ H) as [Ht0 Ht1].
  destruct H as [Hbase Hsz Hpro Hblk Hepi Hbrk Hmax Hcap Htop].
  unfold MIN_BLOCK_SIZE_WORDS in *. set (e := h + 4 * total bs) in *.
  assert (Ee : e = h + 4 * total bs) by reflexivity.
  assert (Hw30 : w < 2 ^ 30) by lia.
  assert (Hlow : forall x, x < e ->
            store_tag (write_tags m e w false) (e + 4 * w) FENCE x = m x).
  { intros x Hx. rewrite store_tag_out by lia. apply write_tags_out; lia. }
  constructor; try assumption.
  - apply sizes_ok_app. split; [assumption|]. apply sizes_ok_one.
    unfold MIN_BLOCK_SIZE_WORDS. lia.
  - etransitivity; [|exact Hpro]. apply load_tag_ext. intros x Hx. apply Hlow. lia.
  - apply blocks_at_app. split.
    + apply (blocks_at_ext m); try assumption. intros x Hx. apply Hlow. lia.
    + fold e. apply blocks_at_one. split.
      * rewrite load_tag_store_tag_other by lia. apply write_tags_header. lia.
      * rewrite load_tag_store_tag_other by lia. apply write_tags_footer. lia.
  - rewrite total_app. cbn [total fst].
    replace (h + 4 * (total bs + (w + 0))) with (e + 4 * w) by lia.
    apply (load_tag_store_tag_same _ _ true 0). lia.
  - rewrite total_app. cbn [total fst]. lia.
Qed.

Lemma mem_sbrk_fail incr st :
  0 <= incr -> mem_max_addr st < mem_brk st + incr ->
  mem_sbrk incr st = Some (NULL, st).
Proof.
  intros H0 H. unfold mem_sbrk.
  destruct (Z.ltb_spec incr 0); [lia|].
  destruct (Z.ltb_spec (mem_max_addr st) (mem_brk st + incr)); [reflexivity|lia].
Qed.

Lemma mem_sbrk_grow incr st :
  0 <= incr -> mem_brk st + incr <= mem_max_addr st ->
  mem_sbrk incr st = Some (mem_brk st, set_mem_brk (mem_brk st + incr) st).
Proof.
  intros H0 H. unfold mem_sbrk.
  destruct (Z.ltb_spec incr 0); [lia|].
  destruct (Z.ltb_spec (mem_max_addr st) (mem_brk st + incr)); [lia|reflexivity].
Qed.

(** [extend_heap] either fails and changes nothing, or leaves a well-formed
    heap whose returned block is free and holds at least [words] words: the
    new block of [words] words merged with the last block [A] when that was
    free.  The arena grew by the bytes asked for. *)
Lemma extend_heap_shape st bs words :
  wf_with st bs -> MIN_BLOCK_SIZE_WORDS <= words -> 4 * words < 2 ^ 64 ->
  (mem_max_addr st < mem_brk st + 4 * words /\
   extend_heap words st = Some (NULL, st)) \/
  (mem_brk st + 4 * words <= mem_max_addr st /\
   exists r st' P' s' Q',
     extend_heap words st = Some (r, st') /\
     wf_with st' (P' ++ (s', false) :: Q') /\
     r = heap_listp st + 4 * total P' /\ words <= s' /\
     heap_listp st' = heap_listp st /\ mem_max_addr st' = mem_max_addr st /\
     keeps nowhere (heap_listp st) (mem st) (mem st') bs (P' ++ (s', false) :: Q') /\
     (buckets_ok (heap_listp st) bs (segregatedList st) ->
      buckets_ok (heap_listp st) (P' ++ (s', false) :: Q') (segregatedList st')) /\
     mem_brk st' = mem_brk st + 4 * words /\
     exists A, bs = P' ++ A /\ Q' = [] /\ s' = total A + words /\ all_free A /\
               (A = [] -> snd (last bs (0, true)) = true) /\
               (length A <= 1)%nat).
Proof.
  intros (Hok & Hl & Hlog) Hw Hw64. unfold MIN_BLOCK_SIZE_WORDS in *.
  pose proof (heap_ok_total _ _ _ _ _ Hok) as [Ht0 Ht1].
  pose proof Hok as [Hbase Hsz Hpro Hblk Hepi Hbrk Hmax Hcap Htop].
  unfold extend_heap. unfold WSIZE. replace (words * 4) with (4 * words) by lia.
  rewrite (size_t_small (4 * words)) by lia.
  destruct (Z_lt_dec (mem_max_addr st) (mem_brk st + 4 * words)) as [Hfail|Hgrow].
  - left. split; [assumption|].
    run (mem_sbrk (4 * words)) by (apply mem_sbrk_fail; lia).
    reflexivity.
  - right. split; [lia|].
    set (e := heap_listp st + 4 * total bs) in *.
    assert (Ee : e = heap_listp st + 4 * total bs) by reflexivity.
    set (st2 := mkState
           (store_tag (write_tags (mem st) e words false) (e + 4 * words) FENCE)
           (mem_brk st + 4 * words) (mem_max_addr st) (heap_listp st)
           (segregatedList st)
           (DirectWrite (e + 4 * words) FENCE :: PairWrite e words false
            :: tag_writes st)).
    assert (Hwf2 : wf_gen st2 (bs ++ (words, false) :: [])
              (fun x => is_free (heap_listp st2) (bs ++ (words, false) :: []) x /\
                        x <> heap_listp st2 + 4 * total bs)).
    { split; [|split]; unfold st2; proj_state.
      - apply heap_ok_extend; (assumption || unfold MIN_BLOCK_SIZE_WORDS; lia).
      - revert Hl. apply lists_ok_iff. intros x. unfold is_free.
        rewrite lookup_app by assumption. fold e.
        destruct (Z.ltb_spec x e).
        + split; [intros Hx; split; [assumption|lia] | tauto].
        + split.
          * intros [s0 H0]. apply lookup_range in H0; [|assumption].
            cbn [fst] in H0. unfold MIN_BLOCK_SIZE_WORDS in H0. lia.
          * intros [[s0 H0] Hne]. cbn [lookup] in H0.
            destruct (Z.ltb_spec x e); [lia|].
            destruct (Z.eqb_spec x e); [lia|discriminate].
      - repeat constructor. assumption. }
    destruct (coalesce_shape st2 bs words [] Hwf2)
      as (r & st' & P' & s' & Q' & Hrun & Hwf' & Hr & (Hs' & _) & (Eh & Eb & Em) & Hk
          & Hbk & _ & A & B & HA & HB & Es' & HfA & _ & HlA & _ & HnA & _).
    symmetry in HB. apply app_eq_nil in HB. destruct HB as [-> ->].
    exists r, st', P', s', [].
    split; [|split; [|split; [|split; [|split; [|split; [|split; [|split; [|split]]]]]]]];
      try assumption.
    + run (mem_sbrk (4 * words)) by (apply mem_sbrk_grow; lia).
      destruct (Z.eqb_spec (mem_brk st) NULL) as [E0|_]; [unfold NULL in E0; lia|].
      rewrite ptr_sub_small by lia. replace (mem_brk st - 4) with e by lia.
      run (mark_block_free e words) by (apply mark_block_free_run; lia).
      rewrite bind_rd. proj_state.
      rewrite (next_blk_tag _ e false words)
        by (try apply write_tags_header; lia).
      unfold assign_tag. rewrite bind_modify. proj_state. exact Hrun.
    + revert Hk. unfold st2. proj_state. intros Hk.
      apply (keeps_trans nowhere _ _
               (store_tag (write_tags (mem st) e words false) (e + 4 * words) FENCE)
               _ _ (bs ++ [(words, false)])); [|exact Hk].
      intros x s Hlk _. split.
      * rewrite lookup_app by assumption. fold e.
        pose proof (lookup_range _ _ _ _ Hsz Hlk) as Hr'. cbn [fst] in Hr'.
        unfold MIN_BLOCK_SIZE_WORDS in Hr'.
        destruct (Z.ltb_spec x e); [assumption|lia].
      * intros y Hy.
        pose proof (lookup_range _ _ _ _ Hsz Hlk) as Hr'. cbn [fst] in Hr'.
        rewrite store_tag_out by lia. apply write_tags_out; lia.
    + intros Hbk0. apply Hbk. unfold st2. proj_state.
      now apply buckets_app.
    + exists A. cbn [total] in Es'. repeat split; (assumption || lia).
Qed.

Lemma extend_heap_spec st bs words :
  wf_with st bs -> MIN_BLOCK_SIZE_WORDS <= words -> 4 * words < 2 ^ 64 ->
  (mem_max_addr st < mem_brk st + 4 * words /\
   extend_heap words st = Some (NULL, st)) \/
  (mem_brk st + 4 * words <= mem_max_addr st /\
   exists r st' P' s' Q',
     extend_heap words st = Some (r, st') /\
     wf_with st' (P' ++ (s', false) :: Q') /\
     r = heap_listp st + 4 * total P' /\ words <= s' /\
     heap_listp st' = heap_listp st /\ mem_max_addr st' = mem_max_addr st /\
     keeps nowhere (heap_listp st) (mem st) (mem st') bs (P' ++ (s', false) :: Q')).
Proof.
  intros Hwf Hw Hw64.
  destruct (extend_heap_shape st bs words Hwf Hw Hw64)
    as [?|(Hroom & r & st' & P' & s' & Q' & H1 & H2 & H3 & H4 & H5 & H6 & H7 & _)];
    [now left|right].
  split; [assumption|]. now exists r, st', P', s', Q'.
Qed.

(** ** The fit search *)

Lemma scan_list_some m asize count es e :
  scan_list m asize count es = Some e -> In e es /\ fits m asize e = true.
Proof.
  revert count. induction es as [|e0 es IH]; intros count; cbn [scan_list].
  - discriminate.
  - destruct (count + 1 >=? 5); [discriminate|].
    fold (fits m asize e0). destruct (fits m asize e0) eqn:Ef.
    + intros [= <-]. split; [now left | assumption].
    + intros H. apply IH in H. destruct H. split; [now right | assumption].
Qed.

Lemma scan_classes_found m asize lists classes :
  scan_classes m asize lists classes <> NULL ->
  In (scan_classes m asize lists classes) (concat lists) /\
  fits m asize (scan_classes m asize lists classes) = true.
Proof.
  induction classes as [|i rest IH]; cbn [scan_classes].
  - congruence.
  - destruct (scan_list m asize 0 (nth i lists [])) as [bp|] eqn:Es.
    + intros _. apply scan_list_some in Es. destruct Es as [Hin Hfit].
      split; [|assumption]. apply in_concat. exists (nth i lists []).
      split; [|assumption].
      destruct (Nat.lt_ge_cases i (length lists)) as [Hlt|Hge].
      * now apply nth_In.
      * rewrite nth_overflow in Hin by assumption. contradiction.
    + exact IH.
Qed.

Lemma find_fit_run asize st :
  0 < asize ->
  find_fit asize st =
  Some (scan_classes (mem st) asize (segregatedList st) (seq 0 NUM_SIZE_CLASSES), st).
Proof.
  intros H. unfold find_fit. rewrite bind_assert by (apply Z.gtb_lt; lia).
  reflexivity.
Qed.

(** On a well-formed heap [find_fit] changes nothing, and what it returns,
    if not null, is a free block of the arena with at least [asize] words. *)
Lemma find_fit_spec st bs asize :
  wf_with st bs -> 0 < asize ->
  exists r, find_fit asize st = Some (r, st) /\
    (r = NULL \/
     exists P c Q, bs = P ++ (c, false) :: Q /\
                   r = heap_listp st + 4 * total P /\ asize <= c).
Proof.
  intros (Hok & Hl & Hlog) Ha. eexists. split; [now apply find_fit_run|].
  set (r := scan_classes _ _ _ _).
  destruct (Z.eq_dec r NULL) as [E|Hne]; [now left|]. right.
  destruct (scan_classes_found _ _ _ _ Hne) as [Hin Hfit]. fold r in Hin, Hfit.
  apply Hl in Hin. destruct Hin as [c Hlk].
  destruct (lookup_zipper _ _ _ _ Hlk) as (P & Q & -> & Er).
  exists P, c, Q. split; [reflexivity|]. split; [assumption|].
  pose proof (heap_ok_at _ _ _ _ _ _ _ Hok) as (Hh & _ & _ & _ & Hc & _).
  rewrite <- Er in Hh. unfold tag_of in Hh. cbn [fst snd] in Hh, Hc.
  unfold fits in Hfit. apply andb_true_iff in Hfit. destruct Hfit as [_ Hfit].
  rewrite (blk_size_tag _ _ _ _ Hh) in Hfit by (unfold MIN_BLOCK_SIZE_WORDS in Hc; lia).
  now apply Z.leb_le.
Qed.

(** ** Size normalization *)

Lemma align_eq x : align x = 16 * (size_t (x + 15) / 16).
Proof.
  unfold align, ALIGNMENT. replace (x + 16 - 1) with (x + 15) by lia.
  set (y := size_t (x + 15)).
  assert (Hy : 0 <= y < 2 ^ 64) by (apply Z.mod_pos_bound; lia).
  change (size_t (Z.lnot (16 - 1))) with (Z.shiftl (Z.ones 60) 4).
  replace (16 * (y / 16)) with (Z.shiftl (Z.shiftr y 4) 4)
    by (rewrite Z.shiftl_mul_pow2, Z.shiftr_div_pow2 by lia;
        change (2 ^ 4) with 16; lia).
  apply Z.bits_inj'. intros n Hn.
  rewrite Z.land_spec, !Z.shiftl_spec by assumption.
  destruct (Z_lt_dec n 4) as [Hlt|Hge].
  - rewrite !(Z.testbit_neg_r _ (n - 4)) by lia. apply andb_false_r.
  - rewrite Z.shiftr_spec by lia. replace (n - 4 + 4) with n by lia.
    destruct (Z_lt_dec n 64) as [H64|H64].
    + rewrite Z.ones_spec_low by lia. apply andb_true_r.
    + rewrite Z.ones_spec_high by lia. rewrite andb_false_r.
      symmetry. destruct (Z.eq_dec y 0) as [->|Hy0]; [apply Z.testbit_0_l|].
      apply Z.bits_above_log2; [lia|].
      assert (2 ^ 64 <= 2 ^ n) by (apply Z.pow_le_mono_r; lia).
      apply Z.log2_lt_pow2; lia.
Qed.

Lemma max_spec x y : max x y = Z.max x y.
Proof. unfold max. destruct (Z.gtb_spec x y); lia. Qed.

(** Either nothing wraps and the size is rounded up, or the computation
    wraps and its result is smaller than the request. *)
Lemma block_bytes_cases sz :
  0 <= sz < 2 ^ 64 ->
  (sz + 23 < 2 ^ 64 /\ block_bytes sz = 16 * ((sz + 23) / 16)) \/
  (2 ^ 64 <= sz + 23 /\ block_bytes sz < sz).
Proof.
  intros Hsz. unfold block_bytes, WSIZE. rewrite align_eq. unfold size_t.
  change (2 ^ 64) with 18446744073709551616 in *.
  destruct (Z_lt_dec (sz + 23) 18446744073709551616) as [Hlt|Hge].
  - left. split; [assumption|].
    rewrite (Z.mod_small (sz + 2 * 4)) by lia. rewrite Z.mod_small by lia.
    f_equal. f_equal. lia.
  - right. split; [lia|].
    destruct (Z_lt_dec (sz + 8) 18446744073709551616) as [Hlt8|Hge8].
    + rewrite (Z.mod_small (sz + 2 * 4)) by lia.
      replace ((sz + 2 * 4 + 15) mod 18446744073709551616)
        with (sz + 23 - 18446744073709551616)
        by (apply Z.mod_unique with 1; lia).
      Z.div_mod_to_equations. lia.
    + replace ((sz + 2 * 4) mod 18446744073709551616)
        with (sz + 8 - 18446744073709551616)
        by (apply Z.mod_unique with 1; lia).
      rewrite Z.mod_small by lia. Z.div_mod_to_equations. lia.
Qed.

Lemma block_bytes_ok sz :
  0 <= sz < 2 ^ 64 -> ~ block_bytes sz < sz ->
  block_bytes sz = 16 * ((sz + 23) / 16) /\ sz + 23 < 2 ^ 64.
Proof.
  intros Hsz Hno. destruct (block_bytes_cases sz Hsz) as [[H1 H2]|[H1 H2]]; tauto.
Qed.

Lemma block_bytes_overflow sz :
  0 <= sz < 2 ^ 64 -> (block_bytes sz < sz <-> 2 ^ 64 <= sz + 23).
Proof.
  intros Hsz. destruct (block_bytes_cases sz Hsz) as [[H1 H2]|[H1 H2]].
  - split; [|lia]. rewrite H2. Z.div_mod_to_equations. lia.
  - tauto.
Qed.

Lemma block_words_ok sz :
  0 <= sz < 2 ^ 64 -> ~ block_bytes sz < sz ->
  let awords := block_words (block_bytes sz) in
  MIN_BLOCK_SIZE_WORDS <= awords /\ sz + 8 <= 4 * awords /\ 4 * awords < 2 ^ 64.
Proof.
  intros Hsz Hno. destruct (block_bytes_ok sz Hsz Hno) as [-> Hlt].
  unfold block_words, WSIZE, MIN_BLOCK_SIZE_WORDS. rewrite max_spec.
  change (2 ^ 64) with 18446744073709551616 in *.
  Z.div_mod_to_equations. lia.
Qed.

Lemma malloc_size_range sz :
  0 <= sz < 2 ^ 64 -> sz <= malloc_size sz < 2 ^ 64.
Proof.
  intros H. unfold malloc_size.
  destruct (Z.eqb_spec sz 448); [lia|].
  destruct (Z.eqb_spec sz 112); lia.
Qed.

Lemma block_words_mod4 x : block_words (block_bytes x) mod 4 = 0.
Proof.
  unfold block_bytes. rewrite align_eq. unfold block_words, WSIZE, MIN_BLOCK_SIZE_WORDS.
  rewrite max_spec. generalize (size_t (size_t (x + 2 * 4) + 15) / 16). intros k.
  replace (16 * k / 4) with (4 * k)
    by (replace (16 * k) with (4 * k * 4) by lia; now rewrite Z.div_mul).
  destruct (Z.max_spec 8 (4 * k)) as [[_ ->]|[_ ->]].
  - rewrite Z.mul_comm. apply Z_mod_mult.
  - reflexivity.
Qed.

Lemma max_mod4 x y : x mod 4 = 0 -> y mod 4 = 0 -> max x y mod 4 = 0.
Proof. intros Hx Hy. unfold max. now destruct (x >? y). Qed.

(** The block that [place] allocates has the words asked for and fewer than
    a minimum block more. *)
Lemma placed_head_tight P a c Q h :
  sizes_ok P -> MIN_BLOCK_SIZE_WORDS <= a <= c ->
  exists s', lookup h (P ++ placed a c ++ Q) (h + 4 * total P) = Some (s', true) /\
             a <= s' < a + MIN_BLOCK_SIZE_WORDS.
Proof.
  intros HP Ha. unfold placed.
  destruct (Z.geb_spec (c - a) MIN_BLOCK_SIZE_WORDS).
  - exists a. split; [|unfold MIN_BLOCK_SIZE_WORDS; lia]. cbn [app]. now apply lookup_mid.
  - exists c. split; [|lia]. cbn [app]. now apply lookup_mid.
Qed.

Lemma placed_head P a c Q h :
  sizes_ok P -> MIN_BLOCK_SIZE_WORDS <= a <= c ->
  exists s', lookup h (P ++ placed a c ++ Q) (h + 4 * total P) = Some (s', true) /\
             a <= s'.
Proof.
  intros HP Ha. unfold placed.
  destruct (c - a >=? MIN_BLOCK_SIZE_WORDS).
  - exists a. split; [|lia]. cbn [app]. now apply lookup_mid.
  - exists c. split; [|lia]. cbn [app]. now apply lookup_mid.
Qed.

(** ** [mm_malloc] *)

Lemma payload_small bp : 0 <= bp -> bp + 4 < 2 ^ 64 -> payload bp = bp + 4.
Proof. intros. unfold payload. apply ptr_add_small. lia. Qed.

(** [mm_malloc] on a well-formed heap: it returns null exactly when it gives
    up, and then nothing has changed; otherwise the heap is well formed
    again, the result is the payload of a block that was not allocated
    before and has room for the request, and every block allocated before
    is kept with its payload.  The new block has the adjusted size or up to
    seven words more, the arena never shrinks, and a heap of four-word
    units without two free blocks side by side stays one. *)
Lemma mm_malloc_shape st bs sz :
  wf_with st bs -> 0 <= sz < 2 ^ 64 ->
  exists r st', mm_malloc sz st = Some (r, st') /\
    ((r = NULL /\ st' = st /\ malloc_fails sz st) \/
     (r <> NULL /\ ~ malloc_fails sz st /\
      exists bs' s',
        wf_with st' bs' /\
        lookup (heap_listp st) bs' (r - 4) = Some (s', true) /\
        sz + 8 <= 4 * s' /\
        (forall s0, lookup (heap_listp st) bs (r - 4) <> Some (s0, true)) /\
        heap_listp st' = heap_listp st /\ mem_max_addr st' = mem_max_addr st /\
        keeps nowhere (heap_listp st) (mem st) (mem st') bs bs' /\
        malloc_words sz <= s' < malloc_words sz + MIN_BLOCK_SIZE_WORDS /\
        (exists r0,
           find_fit (malloc_words sz) st = Some (r0, st) /\
           ((r0 <> NULL /\ r = r0 + 4 /\ mem_brk st' = mem_brk st) \/
            (r0 = NULL /\
             mem_brk st' = mem_brk st + 4 * max (malloc_words sz) CHUNKSIZE))) /\
        (words4 bs -> words4 bs') /\
        (no_adj_free bs -> no_adj_free bs') /\
        (buckets_ok (heap_listp st) bs (segregatedList st) ->
         buckets_ok (heap_listp st) bs' (segregatedList st')) /\
        (exists P c Q,
           (mem_brk st' = mem_brk st -> bs = P ++ (c, false) :: Q) /\
           bs' = P ++ placed (malloc_words sz) c ++ Q /\
           r - 4 = heap_listp st + 4 * total P /\
           malloc_words sz <= c))).
Proof.
  intros Hwf Hsz. unfold mm_malloc, malloc_fails.
  destruct (Z.eqb_spec sz 0) as [->|Hnz].
  { exists NULL, st. split; [reflexivity|]. left. tauto. }
  pose proof (malloc_size_range sz Hsz) as Hms.
  set (sz' := malloc_size sz) in *.
  destruct (Z.ltb_spec (block_bytes sz') sz') as [Hov|Hnov].
  { exists NULL, st. split; [reflexivity|]. left. tauto. }
  pose proof (block_words_ok sz' ltac:(lia) ltac:(lia)) as (Haw8 & Hawsz & Haw64).
  set (awords := block_words (block_bytes sz')) in *.
  unfold MIN_BLOCK_SIZE_WORDS in Haw8.
  destruct (find_fit_spec st bs awords Hwf ltac:(lia)) as (r0 & Hfind & Hr0).
  run (find_fit awords) by exact Hfind.
  destruct (Z.eqb_spec r0 NULL) as [E0|Hr0ne]; cbn [negb].
  - (* no fit: extend the heap *)
    set (ext := max awords CHUNKSIZE).
    assert (Hext : awords <= ext /\ MIN_BLOCK_SIZE_WORDS <= ext /\ 4 * ext < 2 ^ 64).
    { unfold ext, CHUNKSIZE, MIN_BLOCK_SIZE_WORDS. rewrite max_spec. lia. }
    destruct Hext as (Hext1 & Hext2 & Hext3).
    assert (Hincr : size_t (ext * WSIZE) = 4 * ext).
    { unfold WSIZE. rewrite size_t_small; lia. }
    assert (Haw4 : awords mod 4 = 0) by apply block_words_mod4.
    assert (Hext4 : ext mod 4 = 0) by (now apply max_mod4).
    destruct (extend_heap_shape st bs ext Hwf Hext2 Hext3)
      as [[Hfull Hrun]|(Hroom & r1 & st1 & P' & s' & Q' & Hrun & Hwf1 & Er1 & Hs' & Eh & Em & Hk1
                        & Hbk1 & Ebk1 & A & HbsA & HQ' & Es' & HfA & HlA & _)].
    + run (extend_heap ext) by exact Hrun.
      rewrite Z.eqb_refl. exists NULL, st. split; [reflexivity|]. left.
      split; [reflexivity|]. split; [reflexivity|]. right. right.
      subst r0. split; [exact Hfind|]. exists st. rewrite Hincr.
      destruct Hwf as (Hok & _). pose proof (hk_brk _ _ _ _ _ Hok).
      apply mem_sbrk_fail; unfold MIN_BLOCK_SIZE_WORDS in *; lia.
    + run (extend_heap ext) by exact Hrun.
      pose proof Hwf1 as (Hok1 & _).
      pose proof (heap_ok_at _ _ _ _ _ _ _ Hok1) as
        (_ & _ & _ & _ & Hc & Hb & Hbrk & Hmax & HP' & _).
      rewrite Eh in Hb, Hbrk. rewrite <- Er1 in Hb, Hbrk. cbn [fst] in Hc, Hbrk.
      destruct (Z.eqb_spec r1 NULL) as [E1|_]; [unfold NULL in E1; lia|].
      destruct (place_shape st1 P' s' Q' awords Hwf1
                  ltac:(unfold MIN_BLOCK_SIZE_WORDS; lia))
        as (st2 & Hplace & Hwf2 & (Eh2 & Eb2 & Em2) & Hk2 & Hbk2).
      rewrite Eh in Hplace, Hk2, Hbk2. rewrite <- Er1 in Hplace.
      run (place r1 awords) by exact Hplace.
      rewrite payload_small by lia.
      exists (r1 + 4), st2. split; [reflexivity|]. right.
      split; [unfold NULL; lia|]. split.
      { intros [H0|[H0|(H0 & st' & H1)]]; [lia | lia |].
        rewrite Hincr in H1. destruct Hwf as (Hok & _).
        pose proof (hk_brk _ _ _ _ _ Hok). pose proof (hk_base _ _ _ _ _ Hok).
        pose proof (heap_ok_total _ _ _ _ _ Hok).
        rewrite mem_sbrk_grow in H1 by lia. injection H1 as H1 _.
        unfold NULL in H1. lia. }
      destruct (placed_head_tight P' awords s' Q' (heap_listp st) HP'
                  ltac:(unfold MIN_BLOCK_SIZE_WORDS; lia)) as (s2 & Hl2 & Hs2).
      exists (P' ++ placed awords s' ++ Q'), s2.
      replace (r1 + 4 - 4) with r1 by lia. rewrite Er1.
      split; [exact Hwf2|]. split; [exact Hl2|]. split; [lia|].
      split; [|split; [congruence|split; [congruence|split; [|split; [|split; [|split; [|split; [|split]]]]]]]].
      * intros s0 Hl0. destruct (Hk1 _ _ Hl0 ltac:(tauto)) as [Hl1 _].
        rewrite lookup_mid in Hl1 by assumption. discriminate.
      * apply (keeps_trans _ _ _ (mem st1) _ _ (P' ++ (s', false) :: Q')); assumption.
      * unfold malloc_words. fold sz'. fold awords. exact Hs2.
      * exists r0. unfold malloc_words. fold sz'. fold awords. fold ext.
        split; [exact Hfind|]. right. split; [assumption|]. lia.
      * intros H4. rewrite HbsA in H4. apply words4_app in H4. destruct H4 as [H4P H4A].
        apply words4_app. split; [assumption|]. apply words4_app. split.
        -- apply words4_placed; [assumption|]. rewrite Es'.
           apply words4_total in H4A. rewrite Z.add_mod, H4A, Hext4 by lia. reflexivity.
        -- rewrite HQ'. constructor.
      * intros Hn. apply no_adj_free_placed. rewrite HQ'. rewrite HbsA in Hn, HlA.
        apply (no_adj_free_merged P' A s' [] []); try assumption;
          try solve [constructor | reflexivity].
      * intros Hb0. apply Hbk2, Hbk1, Hb0.
      * exists P', s', Q'. unfold malloc_words. fold sz'. fold awords.
        split; [intros E; exfalso; unfold MIN_BLOCK_SIZE_WORDS in *; lia|].
        split; [reflexivity|]. split; lia.
  - (* a fit was found *)
    destruct Hr0 as [E0|(P & c & Q & -> & Er0 & Hac)]; [contradiction|].
    pose proof Hwf as (Hok & _).
    pose proof (heap_ok_at _ _ _ _ _ _ _ Hok) as
      (_ & _ & _ & _ & Hc & Hb & Hbrk & Hmax & HP & _).
    rewrite <- Er0 in Hb, Hbrk. cbn [fst] in Hc, Hbrk.
    destruct (place_shape st P c Q awords Hwf
                ltac:(unfold MIN_BLOCK_SIZE_WORDS; lia))
      as (st2 & Hplace & Hwf2 & (Eh2 & Eb2 & Em2) & Hk2 & Hbk2).
    rewrite <- Er0 in Hplace.
    run (place r0 awords) by exact Hplace.
    rewrite payload_small by lia.
    exists (r0 + 4), st2. split; [reflexivity|]. right.
    split; [unfold NULL; lia|]. split.
    { intros [H0|[H0|(H0 & _)]]; [lia | lia |].
      fold sz' in H0. fold awords in H0. rewrite Hfind in H0.
      injection H0 as H0. contradiction. }
    destruct (placed_head_tight P awords c Q (heap_listp st) HP
                ltac:(unfold MIN_BLOCK_SIZE_WORDS; lia)) as (s2 & Hl2 & Hs2).
    exists (P ++ placed awords c ++ Q), s2.
    replace (r0 + 4 - 4) with r0 by lia. rewrite Er0.
    split; [exact Hwf2|]. split; [exact Hl2|]. split; [lia|].
    split; [|split; [assumption|split; [assumption|split; [exact Hk2|]]]].
    { intros s0 Hl0. rewrite lookup_mid in Hl0 by assumption. discriminate. }
    split; [|split; [|split; [|split; [|split]]]].
    + unfold malloc_words. fold sz'. fold awords. exact Hs2.
    + exists r0. unfold malloc_words. fold sz'. fold awords.
      split; [exact Hfind|]. left. split; [assumption|]. split; [lia|assumption].
    + intros H4. apply words4_app in H4. destruct H4 as [H4P H4c].
      inversion H4c as [|? ? H4c1 H4Q]; subst. cbn [fst] in H4c1.
      apply words4_app. split; [assumption|]. apply words4_app. split; [|assumption].
      apply words4_placed; [apply block_words_mod4 | assumption].
    + apply no_adj_free_placed.
    + exact Hbk2.
    + exists P, c, Q. unfold malloc_words. fold sz'. fold awords.
      split; [reflexivity|]. split; [reflexivity|]. split; lia.
Qed.

Lemma mm_malloc_spec st bs sz :
  wf_with st bs -> 0 <= sz < 2 ^ 64 ->
  exists r st', mm_malloc sz st = Some (r, st') /\
    ((r = NULL /\ st' = st /\ malloc_fails sz st) \/
     (r <> NULL /\ ~ malloc_fails sz st /\
      exists bs' s',
        wf_with st' bs' /\
        lookup (heap_listp st) bs' (r - 4) = Some (s', true) /\
        sz + 8 <= 4 * s' /\
        (forall s0, lookup (heap_listp st) bs (r - 4) <> Some (s0, true)) /\
        heap_listp st' = heap_listp st /\ mem_max_addr st' = mem_max_addr st /\
        keeps nowhere (heap_listp st) (mem st) (mem st') bs bs')).
Proof.
  intros Hwf Hsz.
  destruct (mm_malloc_shape st bs sz Hwf Hsz) as (r & st' & Hrun & [H|H]).
  - exists r, st'. split; [assumption|]. now left.
  - destruct H as (H1 & H2 & bs' & s' & H3 & H4 & H5 & H6 & H7 & H8 & H9 & _).
    exists r, st'. split; [assumption|]. right.
    split; [assumption|]. split; [assumption|]. now exists bs', s'.
Qed.


(** ** [mm_free] *)

Lemma block_of_small ptr : 4 <= ptr < 2 ^ 64 -> block_of ptr = ptr - 4.
Proof. intros. unfold block_of. apply ptr_sub_small. lia. Qed.

(** [mm_free] of the payload of an allocated block: the heap is well formed
    again, the block now lies inside a free block, and every other
    allocated block is kept with its payload.  The free block is the freed
    one merged with the free blocks [A] and [B] that were next to it. *)
Lemma mm_free_shape st bs ptr s :
  wf_with st bs -> lookup (heap_listp st) bs (ptr - 4) = Some (s, true) ->
  exists st' P' s' Q',
    mm_free ptr st = Some (tt, st') /\
    wf_with st' (P' ++ (s', false) :: Q') /\
    (heap_listp st + 4 * total P' <= ptr - 4 /\
     ptr - 4 + 4 * s <= heap_listp st + 4 * total P' + 4 * s') /\
    same_env st st' /\
    keeps (eq (ptr - 4)) (heap_listp st) (mem st) (mem st')
          bs (P' ++ (s', false) :: Q') /\
    (buckets_ok (heap_listp st) bs (segregatedList st) ->
     buckets_ok (heap_listp st) (P' ++ (s', false) :: Q') (segregatedList st')) /\
    (exists rest, nth (size_class s') (segregatedList st') [] =
                  (heap_listp st + 4 * total P') :: rest) /\
    exists A B,
      bs = (P' ++ A) ++ (s, true) :: B ++ Q' /\ s' = total A + s + total B /\
      all_free A /\ all_free B /\
      (A = [] -> snd (last (P' ++ A) (0, true)) = true) /\
      (B = [] -> snd (hd (0, true) (B ++ Q')) = true) /\
      (length A <= 1)%nat /\ (length B <= 1)%nat /\
      ptr - 4 = heap_listp st + 4 * total (P' ++ A).
Proof.
  intros Hwf Hlk. destruct (lookup_zipper _ _ _ _ Hlk) as (P & Q & -> & Eb).
  destruct Hwf as (Hok & Hl & Hlog).
  pose proof (heap_ok_at _ _ _ _ _ _ _ Hok) as
    (Hh & Hf & _ & _ & Hs & Hb & Hbrk & Hmax & HP & HQ).
  rewrite <- Eb in Hh, Hf, Hb, Hbrk. unfold tag_of in Hh, Hf.
  cbn [fst snd] in Hh, Hf, Hs, Hbrk. unfold MIN_BLOCK_SIZE_WORDS in *.
  set (b := ptr - 4) in *. assert (Eptr : ptr = b + 4) by (unfold b; lia).
  set (st1 := log_write (PairWrite b s false)
                (set_mem (write_tags (mem st) b s false) st)).
  change (P ++ (s, true) :: Q) with (P ++ [(s, true)] ++ Q) in *.
  assert (Hmid : sizes_ok [(s, true)])
    by (apply sizes_ok_one; unfold MIN_BLOCK_SIZE_WORDS; lia).
  assert (Hmid' : sizes_ok [(s, false)])
    by (apply sizes_ok_one; unfold MIN_BLOCK_SIZE_WORDS; lia).
  assert (Hfr : forall x, x < heap_listp st + 4 * total P \/
                 heap_listp st + 4 * total P + 4 * total [(s, true)] <= x ->
                 write_tags (mem st) b s false x = mem st x).
  { cbn [total fst]. intros x Hx. apply write_tags_out; lia. }
  assert (Hwf1 : wf_gen st1 (P ++ (s, false) :: Q)
            (fun x => is_free (heap_listp st1) (P ++ (s, false) :: Q) x /\
                      x <> heap_listp st1 + 4 * total P)).
  { unfold st1. split; [|split]; proj_state.
    - change (P ++ (s, false) :: Q) with (P ++ [(s, false)] ++ Q).
      apply (heap_ok_replace (mem st) _ _ _ _ P [(s, true)]); try assumption.
      + reflexivity.
      + rewrite <- Eb. apply blocks_at_write_tags. lia.
    - revert Hl. apply lists_ok_iff. intros x.
      change (P ++ (s, false) :: Q) with (P ++ [(s, false)] ++ Q).
      rewrite (is_free_replace _ P [(s, true)] [(s, false)] Q x)
        by (assumption || reflexivity).
      free_iff (heap_listp st) Q x HP Hmid.
    - constructor; [exact I | assumption]. }
  destruct (coalesce_shape st1 P s Q Hwf1)
    as (r & st' & P' & s' & Q' & Hrun & Hwf' & Hr & (Hs' & Hlo & Hhi) & (Eh & Ebk & Em) & Hk
        & Hbk & Hfront & A & B & HPA & HQB & Es' & HfA & HfB & HlA & HlB & HnA & HnB).
  unfold st1 in Eh, Ebk, Em, Hr, Hlo, Hhi, Hk, Hrun. proj_state.
  exists st', P', s', Q'.
  split; [|split; [|split; [|split; [|split; [|split; [|split]]]]]].
  - unfold mm_free. rewrite bind_gets.
    rewrite bind_assert
      by (destruct (Z.eqb_spec (heap_listp st) 0); [lia|reflexivity]).
    destruct (Z.eqb_spec ptr 0); [lia|].
    rewrite block_of_small by lia. fold b.
    rewrite bind_assert
      by (unfold NULL; destruct (Z.eqb_spec b 0); [lia|reflexivity]).
    rewrite bind_rd. rewrite (blk_size_tag _ _ _ _ Hh) by lia.
    run (mark_block_free b s) by (apply mark_block_free_run; lia).
    fold st1. rewrite Eb.
    run (coalesce (heap_listp st + 4 * total P)) by exact Hrun.
    reflexivity.
  - exact Hwf'.
  - rewrite <- Hr. lia.
  - repeat split; assumption.
  - apply (keeps_trans _ _ _ (write_tags (mem st) b s false) _ _
             (P ++ [(s, false)] ++ Q)).
    + apply keeps_replace; try assumption; [reflexivity|].
      intros x s0. cbn [lookup fst]. rewrite <- Eb.
      destruct (Z.ltb_spec x b); [discriminate|].
      destruct (Z.eqb_spec x b); [congruence|discriminate].
    + apply (keeps_weaken nowhere); [intros x []|exact Hk].
  - intros Hb0. apply Hbk. unfold st1. proj_state.
    change (P ++ (s, false) :: Q) with (P ++ [(s, false)] ++ Q).
    apply (buckets_replace _ P [(s, true)] _ Q (segregatedList st)); try assumption.
    + reflexivity.
    + intros i x Hx. left. split; [assumption|]. intros s0. rewrite <- Eb. lookup_cases.
  - rewrite <- Hr. exact Hfront.
  - exists A, B. rewrite <- HPA, <- HQB. repeat split; assumption.
Qed.

Lemma mm_free_spec st bs ptr s :
  wf_with st bs -> lookup (heap_listp st) bs (ptr - 4) = Some (s, true) ->
  exists st' P' s' Q',
    mm_free ptr st = Some (tt, st') /\
    wf_with st' (P' ++ (s', false) :: Q') /\
    (heap_listp st + 4 * total P' <= ptr - 4 /\
     ptr - 4 + 4 * s <= heap_listp st + 4 * total P' + 4 * s') /\
    same_env st st' /\
    keeps (eq (ptr - 4)) (heap_listp st) (mem st) (mem st')
          bs (P' ++ (s', false) :: Q').
Proof.
  intros Hwf Hlk.
  destruct (mm_free_shape st bs ptr s Hwf Hlk)
    as (st' & P' & s' & Q' & H1 & H2 & H3 & H4 & H5 & _).
  now exists st', P', s', Q'.
Qed.

(** Freeing keeps a heap of four-word units one, and leaves no two free
    blocks side by side when there were none. *)
Lemma freed_tidy (P' A : list blockd) s s' (B Q' : list blockd) :
  s' = total A + s + total B ->
  all_free A -> all_free B ->
  (A = [] -> snd (last (P' ++ A) (0, true)) = true) ->
  (B = [] -> snd (hd (0, true) (B ++ Q')) = true) ->
  (words4 ((P' ++ A) ++ (s, true) :: B ++ Q') -> words4 (P' ++ (s', false) :: Q')) /\
  (no_adj_free ((P' ++ A) ++ (s, true) :: B ++ Q') ->
   no_adj_free (P' ++ (s', false) :: Q')).
Proof.
  intros Es' HfA HfB HlA HlB. split.
  - intros H4. apply (words4_merged P' A s s' B Q'); [|assumption].
    apply words4_app in H4. destruct H4 as [H4a H4b].
    apply words4_app. split; [assumption|].
    inversion H4b; subst. now constructor.
  - intros Hn. apply no_adj_free_app in Hn. destruct Hn as (HnP & HnQ & _).
    cbn [no_adj_free] in HnQ. destruct HnQ as [_ HnQ].
    now apply (no_adj_free_merged P' A s' B Q').
Qed.


Lemma mm_free_null st :
  heap_listp st <> 0 -> mm_free NULL st = Some (tt, st).
Proof.
  intros H. unfold mm_free. rewrite bind_gets.
  rewrite bind_assert by (destruct (Z.eqb_spec (heap_listp st) 0); [lia|reflexivity]).
  reflexivity.
Qed.

(** Changing bytes inside the payload of one block keeps the heap. *)
Lemma wf_payload_change st m' P s u Q :
  wf_with st (P ++ (s, u) :: Q) ->
  (forall x, x < heap_listp st + 4 * total P + 4 \/
             heap_listp st + 4 * total P + 4 * s - 4 <= x -> m' x = mem st x) ->
  wf_with (set_mem m' st) (P ++ (s, u) :: Q).
Proof.
  intros (Hok & Hl & Hlog) Hfr.
  pose proof (heap_ok_at _ _ _ _ _ _ _ Hok) as
    (Hh & Hf & _ & _ & Hs & Hb & Hbrk & Hmax & HP & HQ).
  unfold tag_of in Hh, Hf. cbn [fst snd] in Hh, Hf, Hs, Hbrk.
  unfold MIN_BLOCK_SIZE_WORDS in *.
  split; [|split]; proj_state; try assumption.
  change (P ++ (s, u) :: Q) with (P ++ [(s, u)] ++ Q) in *.
  apply (heap_ok_replace (mem st) _ _ _ _ P [(s, u)]); try assumption.
  - apply sizes_ok_one. unfold MIN_BLOCK_SIZE_WORDS. lia.
  - reflexivity.
  - apply blocks_at_one. split.
    + rewrite <- Hh. apply load_tag_ext. intros x Hx. apply Hfr. lia.
    + rewrite <- Hf. apply load_tag_ext. intros x Hx. apply Hfr. lia.
  - cbn [total fst]. intros x Hx. apply Hfr. lia.
Qed.

(** ** [mm_init] *)

Lemma list_init_all st :
  length (segregatedList st) = NUM_SIZE_CLASSES ->
  fold_right (fun i k => list_init i ;; k) (ret tt) (seq 0 NUM_SIZE_CLASSES) st =
  Some (tt, set_segregatedList (repeat [] NUM_SIZE_CLASSES) st).
Proof.
  intros H. destruct st as [m b mx h l lg]. cbn [segregatedList] in H.
  do 10 (destruct l as [|? l]; [discriminate H|]).
  destruct l; [|discriminate H]. reflexivity.
Qed.

(** [mm_init] from a fresh state has three outcomes: memlib cannot even hold
    the fences, and nothing is set up; the fences are set up but the first
    chunk does not fit, and the heap is left well formed without a block;
    or the heap is one free block of [CHUNKSIZE] words. *)
Lemma mm_init_shape st :
  fresh st ->
  exists r st', mm_init st = Some (r, st') /\
    ((r = -1 /\ st' = st /\ mem_max_addr st < mem_brk st + 16) \/
     (r = -1 /\ mem_brk st + 16 <= mem_max_addr st < mem_brk st + 16 + 4 * CHUNKSIZE /\
      wf_with st' [] /\ heap_listp st' = mem_brk st + 12 /\
      mem_brk st' = mem_brk st + 16) \/
     (r = 0 /\ mem_brk st + 16 + 4 * CHUNKSIZE <= mem_max_addr st /\
      wf_with st' [(CHUNKSIZE, false)] /\ heap_listp st' = mem_brk st + 12 /\
      mem_brk st' = mem_brk st + 16 + 4 * CHUNKSIZE /\
      buckets_ok (heap_listp st') [(CHUNKSIZE, false)] (segregatedList st') /\
      mem_max_addr st' = mem_max_addr st)).
Proof.
  intros (Hb & Hle & Hcap & Htop & Hlen & Hlog).
  unfold mm_init, WSIZE. change (4 * 4) with 16.
  destruct (Z_lt_dec (mem_max_addr st) (mem_brk st + 16)) as [Hfail|Hgrow].
  { run (mem_sbrk 16) by (apply mem_sbrk_fail; lia).
    rewrite Z.eqb_refl. exists (-1), st. split; [reflexivity|]. left. tauto. }
  run (mem_sbrk 16) by (apply mem_sbrk_grow; lia).
  destruct (Z.eqb_spec (mem_brk st) NULL) as [E|_]; [unfold NULL in E; lia|].
  run (fold_right (fun i k => list_init i ;; k) (ret tt) (seq 0 NUM_SIZE_CLASSES))
    by (apply list_init_all; proj_state; exact Hlen).
  unfold assign_tag. rewrite !bind_modify. proj_state.
  rewrite !ptr_add_small by lia.
  change (2 * 4) with 8. change (3 * 4) with 12.
  set (i0 := mem_brk st).
  set (st1 := log_write _ _).
  assert (Hwf1 : wf_with st1 []).
  { unfold st1. split; [|split]; proj_state.
    - constructor; cbn [total]; try lia.
      + constructor.
      + replace (i0 + 12 - 4) with (i0 + 8) by lia.
        rewrite load_tag_store_tag_other by lia.
        apply (load_tag_store_tag_same _ _ true 0). lia.
      + exact I.
      + replace (i0 + 12 + 4 * 0) with (i0 + 12) by lia.
        apply (load_tag_store_tag_same _ _ true 0). lia.
    - split; [reflexivity|]. split; [constructor|].
      intros x. rewrite is_free_nil. cbn [repeat NUM_SIZE_CLASSES concat app]. tauto.
    - rewrite Hlog. repeat constructor. }
  destruct (extend_heap_shape st1 [] CHUNKSIZE Hwf1
              ltac:(unfold MIN_BLOCK_SIZE_WORDS, CHUNKSIZE; lia)
              ltac:(unfold CHUNKSIZE; lia))
    as [[Hfull Hrun]|(Hroom & r1 & st2 & P' & s' & Q' & Hrun & Hwf2 & Er1 & Hs' & Eh & Em & Hk1
                      & Hbk & Ebk & A & HA & HQ' & Es' & _)].
  - run (extend_heap CHUNKSIZE) by exact Hrun.
    rewrite Z.eqb_refl. exists (-1), st1. split; [reflexivity|]. right. left.
    unfold st1 in Hfull. revert Hfull. proj_state. intros Hfull.
    split; [reflexivity|]. split; [fold i0; lia|]. split; [exact Hwf1|].
    split; reflexivity.
  - run (extend_heap CHUNKSIZE) by exact Hrun.
    pose proof Hwf2 as (Hok2 & _).
    pose proof (heap_ok_at _ _ _ _ _ _ _ Hok2) as (_ & _ & _ & _ & _ & Hb2 & _).
    rewrite Eh in Hb2. rewrite <- Er1 in Hb2.
    destruct (Z.eqb_spec r1 NULL) as [E|_]; [unfold NULL in E; lia|].
    symmetry in HA. apply app_eq_nil in HA. destruct HA as [-> ->].
    cbn [total] in Es'. subst Q'. replace s' with CHUNKSIZE in Hwf2, Hbk by lia.
    assert (Hbk2 : buckets_ok (heap_listp st2) [(CHUNKSIZE, false)] (segregatedList st2)).
    { rewrite Eh. apply Hbk. unfold st1. proj_state. intros i x Hx.
      apply In_nth_concat in Hx. contradiction Hx. }
    unfold st1 in Hroom, Ebk, Eh, Em. revert Hroom Ebk Eh Em. proj_state.
    intros Hroom Ebk Eh Em.
    exists 0, st2. split; [reflexivity|]. right. right.
    split; [reflexivity|]. split; [fold i0; lia|]. split; [exact Hwf2|].
    split; [exact Eh |]. split; [fold i0; lia |]. split; [exact Hbk2 | exact Em].
Qed.

Lemma mm_init_spec st :
  fresh st ->
  exists r st', mm_init st = Some (r, st') /\
    ((r = -1 /\ st' = st /\ mem_max_addr st < mem_brk st + 16) \/
     ((r = 0 \/ r = -1) /\ wf st' /\ heap_listp st' = mem_brk st + 12)).
Proof.
  intros Hf. destruct (mm_init_shape st Hf) as (r & st' & Hrun & H).
  exists r, st'. split; [assumption|].
  destruct H as [H|[(-> & _ & Hwf & Eh & _)|(-> & _ & Hwf & Eh & _)]].
  - now left.
  - right. split; [now right|]. split; [now exists []|assumption].
  - right. split; [now left|]. split; [now exists [(CHUNKSIZE, false)]|assumption].
Qed.

(** ** [mm_realloc] *)

Lemma memmove_out m dst src n x :
  x < dst \/ dst + n <= x -> memmove m dst src n x = m x.
Proof.
  intros H. unfold memmove.
  replace ((dst <=? x) && (x <? dst + n)) with false; [reflexivity|].
  symmetry. apply andb_false_iff.
  destruct H; [left; apply Z.leb_gt | right; apply Z.ltb_ge]; lia.
Qed.

Lemma memmove_in m dst src n i :
  0 <= i < n -> load8 (memmove m dst src n) (dst + i) = load8 m (src + i).
Proof.
  intros H. unfold load8 at 1. unfold memmove.
  replace ((dst <=? dst + i) && (dst + i <? dst + n)) with true.
  - replace (dst + i - dst) with i by lia. unfold load8.
    apply Z.mod_mod. lia.
  - symmetry. apply andb_true_iff. split; [apply Z.leb_le | apply Z.ltb_lt]; lia.
Qed.

(** The first steps of [mm_realloc] on the payload of an allocated block,
    up to the choice of a case. *)
Ltac realloc_preamble b s Hh Hprev Hnext :=
  unfold mm_realloc;
  match goal with |- context [?z =? 0] =>
    destruct (Z.eqb_spec z 0); [lia|] end;
  match goal with |- context [?z =? NULL] =>
    destruct (Z.eqb_spec z NULL) as [?E|_]; [unfold NULL in *; lia|] end;
  rewrite block_of_small by lia;
  replace (b + 4 - 4) with b by lia;
  rewrite bind_assert
    by (unfold NULL; destruct (Z.eqb_spec b 0); [lia|reflexivity]);
  rewrite bind_rd; rewrite (blk_size_tag _ _ _ _ Hh) by lia;
  unfold WSIZE; rewrite (size_t_small (s * 4)) by lia;
  rewrite (size_t_small (s * 4 - 2 * 4)) by lia;
  rewrite bind_assert by (apply Z.gtb_lt; lia);
  rewrite !bind_rd; unfold prev_blk_footer, WSIZE;
  rewrite (ptr_sub_small b 4) by lia;
  rewrite Hprev; cbn [inuse];
  rewrite (next_blk_tag _ b true s) by (assumption || lia);
  rewrite (blk_free_tag _ _ _ _ Hnext); rewrite ?negb_involutive;
  match goal with |- context [block_bytes ?z <? ?z] =>
    destruct (Z.ltb_spec (block_bytes z) z); [lia|] end;
  rewrite !bind_rd;
  rewrite (blk_size_tag _ _ _ _ Hh) by lia;
  rewrite (next_blk_tag _ b true s) by (assumption || lia);
  rewrite (blk_size_tag _ _ _ _ Hnext) by lia;
  cbn [negb andb].

Lemma hd_size_bound (Q : list blockd) :
  sizes_ok Q -> 4 * total Q < 2 ^ 32 -> 0 <= fst (hd (0, true) Q) < 2 ^ 30.
Proof.
  intros HQ Ht. destruct Q as [|[sn un] Q']; cbn [hd fst]; [lia|].
  inversion HQ as [|? ? Hq HQ']; subst. cbn [fst] in Hq. cbn [total fst] in Ht.
  pose proof (total_nonneg Q' HQ'). unfold MIN_BLOCK_SIZE_WORDS in Hq. lia.
Qed.

(** Case 1 of [mm_realloc]: the block is merged into its free predecessor.
    The old payload is found at the new address, and every other allocated
    block is kept with its payload. *)
Lemma realloc_absorb_prev_data st P0 sp s Q sz :
  wf_with st (P0 ++ (sp, false) :: (s, true) :: Q) ->
  snd (hd (0, true) Q) = true ->
  0 < sz < 2 ^ 64 -> ~ block_bytes sz < sz ->
  block_words (block_bytes sz) <= sp + s ->
  let pb := heap_listp st + 4 * total P0 in
  exists st',
    mm_realloc (pb + 4 * sp + 4) sz st = Some (pb + 4, st') /\
    wf_with st' (P0 ++ (sp + s, true) :: Q) /\
    same_env st st' /\
    (forall i, 0 <= i < 4 * s - 8 ->
               load8 (mem st') (pb + 4 + i) = load8 (mem st) (pb + 4 * sp + 4 + i)) /\
    keeps (eq (pb + 4 * sp)) (heap_listp st) (mem st) (mem st')
          (P0 ++ (sp, false) :: (s, true) :: Q) (P0 ++ (sp + s, true) :: Q) /\
    (buckets_ok (heap_listp st) (P0 ++ (sp, false) :: (s, true) :: Q) (segregatedList st) ->
     buckets_ok (heap_listp st) (P0 ++ (sp + s, true) :: Q) (segregatedList st')).
Proof.
  intros Hwf Hnu Hsz Hnov Haw pb.
  destruct Hwf as (Hok & Hl & Hlog).
  pose proof (heap_ok_total _ _ _ _ _ Hok) as [Ht0 Ht1].
  pose proof (hk_brk _ _ _ _ _ Hok) as Ebrk.
  pose proof (heap_ok_at _ _ _ _ _ _ _ Hok) as
    (Hph & Hpf & _ & _ & Hsp & Hpb & _ & Hmax & HP0 & _).
  fold pb in Hph, Hpf, Hpb. unfold tag_of in Hph, Hpf. cbn [fst snd] in Hph, Hpf, Hsp.
  assert (Hok' := Hok).
  change (P0 ++ (sp, false) :: (s, true) :: Q)
    with (P0 ++ [(sp, false)] ++ (s, true) :: Q) in Hok'.
  rewrite app_assoc in Hok'.
  pose proof (heap_ok_at _ _ _ _ _ _ _ Hok') as
    (Hh & Hf & _ & Hnext & Hs & _ & Hbrk & _ & _ & HQ).
  rewrite total_app in Hh, Hf, Hnext, Hbrk. cbn [total fst snd] in Hh, Hf, Hnext, Hs, Hbrk.
  unfold tag_of in Hh, Hf, Hnext. cbn [fst snd] in Hh, Hf, Hnext.
  rewrite Hnu in Hnext.
  rewrite total_app in Ht0, Ht1, Ebrk. cbn [total fst] in Ht0, Ht1, Ebrk.
  pose proof (total_nonneg _ HP0) as HtP. pose proof (total_nonneg _ HQ) as HtQ.
  unfold MIN_BLOCK_SIZE_WORDS in *.
  set (b := pb + 4 * sp) in *.
  assert (Eb : b = heap_listp st + 4 * (total P0 + (sp + 0))) by (unfold b, pb; lia).
  rewrite <- Eb in Hh, Hf, Hnext, Hbrk.
  assert (Epb : pb = heap_listp st + 4 * total P0) by reflexivity.
  assert (Hprev : load_tag (mem st) (b - 4) = {| inuse := false; size := sp |}).
  { exact Hpf. }
  assert (Hfn : 0 <= fst (hd (0, true) Q) < 2 ^ 30).
  { apply hd_size_bound; [assumption|lia]. }
  change (P0 ++ (sp, false) :: (s, true) :: Q)
    with (P0 ++ [(sp, false); (s, true)] ++ Q) in *.
  assert (Hmid : sizes_ok [(sp, false); (s, true)]).
  { repeat constructor; cbn [fst]; unfold MIN_BLOCK_SIZE_WORDS; lia. }
  assert (Hinp : In pb (concat (segregatedList st))).
  { apply Hl. free_iff (heap_listp st) Q pb HP0 Hmid. }
  replace pb with (b - 4 * sp) in Hph, Hinp by lia.
  eexists. split; [|split; [|split; [|split; [|split]]]].
  - realloc_preamble b s Hh Hprev Hnext.
    rewrite bind_bind.
    run (prev_blk b) by (apply (prev_blk_run b false sp); (assumption || lia)).
    rewrite bind_bind, bind_rd. rewrite (blk_size_tag _ _ _ _ Hph) by lia.
    rewrite bind_ret.
    rewrite (size_t_small (sp + s)) by lia.
    destruct (Z.geb_spec (sp + s) (block_words (block_bytes sz))); [|lia].
    run (prev_blk b) by (apply (prev_blk_run b false sp); (assumption || lia)).
    run (list_remove (b - 4 * sp)) by (now apply list_remove_run).
    run (prev_blk b) by (apply (prev_blk_run b false sp); (assumption || lia)).
    rewrite bind_rd. proj_state.
    rewrite (next_blk_tag _ (b - 4 * sp) false sp) by (assumption || lia).
    replace (b - 4 * sp + 4 * sp) with b by lia.
    rewrite (blk_size_tag _ _ _ _ Hh) by lia.
    rewrite (blk_size_tag _ _ _ _ Hph) by lia.
    rewrite (size_t_small (s + sp)) by lia.
    run (mark_block_used (b - 4 * sp) (s + sp)) by (apply mark_block_used_run; lia).
    rewrite bind_modify. proj_state. unfold ret.
    rewrite (payload_small (b - 4 * sp)) by lia.
    replace (b - 4 * sp + 4) with (pb + 4) by lia. reflexivity.
  - change (P0 ++ (sp + s, true) :: Q) with (P0 ++ [(sp + s, true)] ++ Q).
    apply (wf_replace st _ P0 [(sp, false); (s, true)]); proj_state; fold pb; try assumption.
    + repeat split.
    + apply sizes_ok_one. unfold MIN_BLOCK_SIZE_WORDS. lia.
    + cbn [total fst]. lia.
    + replace (b - 4 * sp) with pb by lia. replace (s + sp) with (sp + s) by lia.
      apply blocks_at_one. split.
      * etransitivity; [|apply (write_tags_header (mem st) pb (sp + s) true); lia].
        apply load_tag_ext. intros x Hx. apply memmove_out. lia.
      * etransitivity; [|apply (write_tags_footer (mem st) pb (sp + s) true); lia].
        apply load_tag_ext. intros x Hx. apply memmove_out. lia.
    + cbn [total fst]. intros x Hx. rewrite memmove_out by lia.
      apply write_tags_out; lia.
    + generalize (lists_ok_remove _ _ (b - 4 * sp) Hl). apply lists_ok_iff.
      intros x. free_iff (heap_listp st) Q x HP0 Hmid.
    + constructor; [exact I | assumption].
  - repeat split.
  - proj_state. intros i Hi.
    replace (pb + 4) with (b - 4 * sp + 4) by lia.
    rewrite memmove_in by lia. fold b. unfold load8. f_equal.
    apply write_tags_out; lia.
  - change (P0 ++ (sp + s, true) :: Q) with (P0 ++ [(sp + s, true)] ++ Q).
    apply keeps_replace; try assumption.
    + apply sizes_ok_one. unfold MIN_BLOCK_SIZE_WORDS. lia.
    + cbn [total fst]. lia.
    + proj_state. fold pb. cbn [total fst]. intros x Hx. rewrite memmove_out by lia.
      apply write_tags_out; lia.
    + intros x s0. cbn [lookup fst]. fold pb.
      destruct (Z.ltb_spec x pb); [discriminate|].
      destruct (Z.eqb_spec x pb); [discriminate|].
      destruct (Z.ltb_spec x (pb + 4 * sp)); [discriminate|].
      destruct (Z.eqb_spec x (pb + 4 * sp)); [intros _; unfold b; lia|discriminate].
  - intros Hbk. change (P0 ++ (sp + s, true) :: Q) with (P0 ++ [(sp + s, true)] ++ Q).
    apply (buckets_replace _ P0 [(sp, false); (s, true)] _ Q (segregatedList st));
      try assumption.
    + apply sizes_ok_one. unfold MIN_BLOCK_SIZE_WORDS. lia.
    + cbn [total fst]. lia.
    + proj_state. fold pb. intros i x Hx.
      apply In_nth_removed in Hx. destruct Hx as [Hx Hne].
      left. split; [assumption|]. intros s0. lookup_cases.
Qed.

Lemma realloc_absorb_prev st P0 sp s Q sz :
  wf_with st (P0 ++ (sp, false) :: (s, true) :: Q) ->
  snd (hd (0, true) Q) = true ->
  0 < sz < 2 ^ 64 -> ~ block_bytes sz < sz ->
  block_words (block_bytes sz) <= sp + s ->
  let pb := heap_listp st + 4 * total P0 in
  exists st',
    mm_realloc (pb + 4 * sp + 4) sz st = Some (pb + 4, st') /\
    wf_with st' (P0 ++ (sp + s, true) :: Q) /\
    same_env st st'.
Proof.
  intros Hwf Hnu Hsz Hnov Haw pb.
  destruct (realloc_absorb_prev_data st P0 sp s Q sz Hwf Hnu Hsz Hnov Haw)
    as (st' & H1 & H2 & H3 & _).
  now exists st'.
Qed.


(** Case 2 of [mm_realloc]: the block absorbs its free successor.  The
    payload stays where it is, and every other allocated block is kept. *)
Lemma realloc_absorb_next_data st P s sn Q' sz :
  wf_with st (P ++ (s, true) :: (sn, false) :: Q') ->
  0 < sz < 2 ^ 64 -> ~ block_bytes sz < sz ->
  block_words (block_bytes sz) <= sn + s ->
  let b := heap_listp st + 4 * total P in
  exists st',
    mm_realloc (b + 4) sz st = Some (b + 4, st') /\
    wf_with st' (P ++ (s + sn, true) :: Q') /\
    same_env st st' /\
    (forall i, 0 <= i < 4 * s - 8 ->
               load8 (mem st') (b + 4 + i) = load8 (mem st) (b + 4 + i)) /\
    keeps (eq b) (heap_listp st) (mem st) (mem st')
          (P ++ (s, true) :: (sn, false) :: Q') (P ++ (s + sn, true) :: Q') /\
    (buckets_ok (heap_listp st) (P ++ (s, true) :: (sn, false) :: Q') (segregatedList st) ->
     buckets_ok (heap_listp st) (P ++ (s + sn, true) :: Q') (segregatedList st')).
Proof.
  intros Hwf Hsz Hnov Haw b.
  destruct Hwf as (Hok & Hl & Hlog).
  pose proof (heap_ok_total _ _ _ _ _ Hok) as [Ht0 Ht1].
  pose proof (hk_brk _ _ _ _ _ Hok) as Ebrk.
  pose proof (heap_ok_at _ _ _ _ _ _ _ Hok) as
    (Hh & Hf & Hprev & Hnext & Hs & Hb & Hbrk & Hmax & HP & HQ).
  fold b in Hh, Hf, Hprev, Hnext, Hb, Hbrk.
  unfold tag_of in Hh, Hf, Hprev, Hnext. cbn [fst snd hd] in Hh, Hf, Hnext, Hs, Hbrk.
  assert (Eb : b = heap_listp st + 4 * total P) by reflexivity.
  inversion HQ as [|? ? Hsn HQ']; subst. cbn [fst] in Hsn.
  rewrite total_app in Ht0, Ht1, Ebrk. cbn [total fst] in Ht0, Ht1, Ebrk.
  pose proof (total_nonneg _ HP) as HtP. pose proof (total_nonneg _ HQ') as HtQ.
  unfold MIN_BLOCK_SIZE_WORDS in *.
  change (P ++ (s, true) :: (sn, false) :: Q')
    with (P ++ [(s, true); (sn, false)] ++ Q') in *.
  assert (Hmid : sizes_ok [(s, true); (sn, false)]).
  { repeat constructor; cbn [fst]; unfold MIN_BLOCK_SIZE_WORDS; lia. }
  assert (Hinn : In (b + 4 * s) (concat (segregatedList st))).
  { apply Hl. free_iff (heap_listp st) Q' (b + 4 * s) HP Hmid. }
  eexists. split; [|split; [|split; [|split; [|split]]]].
  - realloc_preamble b s Hh Hprev Hnext.
    rewrite andb_false_r, bind_ret.
    rewrite (size_t_small (sn + s)) by lia.
    destruct (Z.geb_spec (sn + s) (block_words (block_bytes sz))); [|lia].
    rewrite bind_rd.
    rewrite (next_blk_tag _ b true s) by (assumption || lia).
    run (list_remove (b + 4 * s)) by (now apply list_remove_run).
    rewrite bind_rd. proj_state.
    rewrite (next_blk_tag _ b true s) by (assumption || lia).
    rewrite (blk_size_tag _ _ _ _ Hh) by lia.
    rewrite (blk_size_tag _ _ _ _ Hnext) by lia.
    rewrite (size_t_small (sn + s)) by lia.
    run (mark_block_used b (sn + s)) by (apply mark_block_used_run; lia).
    unfold ret. rewrite (payload_small b) by lia. reflexivity.
  - change (P ++ (s + sn, true) :: Q') with (P ++ [(s + sn, true)] ++ Q').
    apply (wf_replace st _ P [(s, true); (sn, false)]); proj_state; fold b; try assumption.
    + repeat split.
    + apply sizes_ok_one. unfold MIN_BLOCK_SIZE_WORDS. lia.
    + cbn [total fst]. lia.
    + replace (sn + s) with (s + sn) by lia. apply blocks_at_write_tags. lia.
    + cbn [total fst]. intros x Hx. apply write_tags_out; lia.
    + generalize (lists_ok_remove _ _ (b + 4 * s) Hl). apply lists_ok_iff.
      intros x. free_iff (heap_listp st) Q' x HP Hmid.
    + constructor; [exact I | assumption].
  - repeat split.
  - proj_state. intros i Hi. unfold load8. f_equal.
    apply write_tags_out; lia.
  - change (P ++ (s + sn, true) :: Q') with (P ++ [(s + sn, true)] ++ Q').
    apply keeps_replace; try assumption.
    + apply sizes_ok_one. unfold MIN_BLOCK_SIZE_WORDS. lia.
    + cbn [total fst]. lia.
    + proj_state. fold b. cbn [total fst]. intros x Hx. apply write_tags_out; lia.
    + intros x s0. cbn [lookup fst]. fold b.
      destruct (Z.ltb_spec x b); [discriminate|].
      destruct (Z.eqb_spec x b); [intros _; lia|].
      destruct (Z.ltb_spec x (b + 4 * s)); [discriminate|].
      destruct (Z.eqb_spec x (b + 4 * s)); discriminate.
  - intros Hbk. change (P ++ (s + sn, true) :: Q') with (P ++ [(s + sn, true)] ++ Q').
    apply (buckets_replace _ P [(s, true); (sn, false)] _ Q' (segregatedList st));
      try assumption.
    + apply sizes_ok_one. unfold MIN_BLOCK_SIZE_WORDS. lia.
    + cbn [total fst]. lia.
    + proj_state. fold b. intros i x Hx.
      apply In_nth_removed in Hx. destruct Hx as [Hx Hne].
      left. split; [assumption|]. intros s0. lookup_cases.
Qed.

Lemma realloc_absorb_next st P s sn Q' sz :
  wf_with st (P ++ (s, true) :: (sn, false) :: Q') ->
  0 < sz < 2 ^ 64 -> ~ block_bytes sz < sz ->
  block_words (block_bytes sz) <= sn + s ->
  let b := heap_listp st + 4 * total P in
  exists st',
    mm_realloc (b + 4) sz st = Some (b + 4, st') /\
    wf_with st' (P ++ (s + sn, true) :: Q') /\
    same_env st st'.
Proof.
  intros Hwf Hsz Hnov Haw b.
  destruct (realloc_absorb_next_data st P s sn Q' sz Hwf Hsz Hnov Haw)
    as (st' & H1 & H2 & H3 & _).
  now exists st'.
Qed.


(** Case 4 of [mm_realloc]: the block is merged with both free neighbours.
    The old payload is found at the new address, and every other allocated
    block is kept with its payload. *)
Lemma realloc_absorb_both_data st P0 sp s sn Q' sz :
  wf_with st (P0 ++ (sp, false) :: (s, true) :: (sn, false) :: Q') ->
  0 < sz < 2 ^ 64 -> ~ block_bytes sz < sz ->
  sn + s < block_words (block_bytes sz) <= sp + s + sn ->
  let pb := heap_listp st + 4 * total P0 in
  exists st',
    mm_realloc (pb + 4 * sp + 4) sz st = Some (pb + 4, st') /\
    wf_with st' (P0 ++ (sp + s + sn, true) :: Q') /\
    same_env st st' /\
    (forall i, 0 <= i < 4 * s - 8 ->
               load8 (mem st') (pb + 4 + i) = load8 (mem st) (pb + 4 * sp + 4 + i)) /\
    keeps (eq (pb + 4 * sp)) (heap_listp st) (mem st) (mem st')
          (P0 ++ (sp, false) :: (s, true) :: (sn, false) :: Q')
          (P0 ++ (sp + s + sn, true) :: Q') /\
    (buckets_ok (heap_listp st) (P0 ++ (sp, false) :: (s, true) :: (sn, false) :: Q')
                (segregatedList st) ->
     buckets_ok (heap_listp st) (P0 ++ (sp + s + sn, true) :: Q') (segregatedList st')).
Proof.
  intros Hwf Hsz Hnov Haw pb.
  destruct Hwf as (Hok & Hl & Hlog).
  pose proof (heap_ok_total _ _ _ _ _ Hok) as [Ht0 Ht1].
  pose proof (hk_brk _ _ _ _ _ Hok) as Ebrk.
  pose proof (heap_ok_at _ _ _ _ _ _ _ Hok) as
    (Hph & Hpf & _ & _ & Hsp & Hpb & _ & Hmax & HP0 & _).
  fold pb in Hph, Hpf, Hpb. unfold tag_of in Hph, Hpf. cbn [fst snd] in Hph, Hpf, Hsp.
  assert (Hok' := Hok).
  change (P0 ++ (sp, false) :: (s, true) :: (sn, false) :: Q')
    with (P0 ++ [(sp, false)] ++ (s, true) :: (sn, false) :: Q') in Hok'.
  rewrite app_assoc in Hok'.
  pose proof (heap_ok_at _ _ _ _ _ _ _ Hok') as
    (Hh & Hf & _ & Hnext & Hs & _ & Hbrk & _ & _ & HQ).
  rewrite total_app in Hh, Hf, Hnext, Hbrk.
  cbn [total fst snd hd] in Hh, Hf, Hnext, Hs, Hbrk.
  unfold tag_of in Hh, Hf, Hnext. cbn [fst snd] in Hh, Hf, Hnext.
  inversion HQ as [|? ? Hsn HQ']; subst. cbn [fst] in Hsn.
  rewrite total_app in Ht0, Ht1, Ebrk. cbn [total fst] in Ht0, Ht1, Ebrk.
  pose proof (total_nonneg _ HP0) as HtP. pose proof (total_nonneg _ HQ') as HtQ.
  unfold MIN_BLOCK_SIZE_WORDS in *.
  set (b := pb + 4 * sp) in *.
  assert (Eb : b = heap_listp st + 4 * (total P0 + (sp + 0))) by (unfold b, pb; lia).
  rewrite <- Eb in Hh, Hf, Hnext, Hbrk.
  assert (Epb : pb = heap_listp st + 4 * total P0) by reflexivity.
  assert (Hprev : load_tag (mem st) (b - 4) = {| inuse := false; size := sp |})
    by exact Hpf.
  change (P0 ++ (sp, false) :: (s, true) :: (sn, false) :: Q')
    with (P0 ++ [(sp, false); (s, true); (sn, false)] ++ Q') in *.
  assert (Hmid : sizes_ok [(sp, false); (s, true); (sn, false)]).
  { repeat constructor; cbn [fst]; unfold MIN_BLOCK_SIZE_WORDS; lia. }
  assert (Hinp : In pb (concat (segregatedList st))).
  { apply Hl. free_iff (heap_listp st) Q' pb HP0 Hmid. }
  assert (Hinn : In (b + 4 * s) (concat (segregatedList st))).
  { apply Hl. free_iff (heap_listp st) Q' (b + 4 * s) HP0 Hmid. }
  replace pb with (b - 4 * sp) in Hph, Hinp by lia.
  eexists. split; [|split; [|split; [|split; [|split]]]].
  - realloc_preamble b s Hh Hprev Hnext.
    rewrite bind_ret.
    rewrite (size_t_small (sn + s)) by lia.
    destruct (Z.geb_spec (sn + s) (block_words (block_bytes sz))); [lia|].
    rewrite bind_bind.
    run (prev_blk b) by (apply (prev_blk_run b false sp); (assumption || lia)).
    rewrite bind_bind, bind_rd. rewrite (blk_size_tag _ _ _ _ Hph) by lia.
    rewrite bind_ret.
    rewrite (size_t_small (sp + s)) by lia.
    rewrite (size_t_small (sp + s + sn)) by lia.
    destruct (Z.geb_spec (sp + s + sn) (block_words (block_bytes sz))); [|lia].
    rewrite bind_rd.
    rewrite (next_blk_tag _ b true s) by (assumption || lia).
    run (list_remove (b + 4 * s)) by (now apply list_remove_run).
    run (prev_blk b) by (apply (prev_blk_run b false sp); (assumption || lia)).
    run (list_remove (b - 4 * sp))
      by (apply list_remove_run; proj_state; apply In_concat_remove; [assumption|lia]).
    run (prev_blk b) by (apply (prev_blk_run b false sp); (assumption || lia)).
    run (prev_blk b) by (apply (prev_blk_run b false sp); (assumption || lia)).
    rewrite bind_rd. proj_state.
    rewrite (next_blk_tag _ b true s) by (assumption || lia).
    rewrite (blk_size_tag _ _ _ _ Hh) by lia.
    rewrite (blk_size_tag _ _ _ _ Hnext) by lia.
    rewrite (blk_size_tag _ _ _ _ Hph) by lia.
    rewrite (size_t_small (sn + s)) by lia.
    rewrite (size_t_small (sn + s + sp)) by lia.
    run (mark_block_used (b - 4 * sp) (sn + s + sp))
      by (apply mark_block_used_run; lia).
    run (prev_blk b)
      by (apply (prev_blk_run b false sp);
          [proj_state; rewrite write_tags_other by lia; exact Hprev | lia ..]).
    rewrite bind_modify. proj_state. unfold ret.
    rewrite (payload_small (b - 4 * sp)) by lia.
    replace (b - 4 * sp + 4) with (pb + 4) by lia. reflexivity.
  - change (P0 ++ (sp + s + sn, true) :: Q') with (P0 ++ [(sp + s + sn, true)] ++ Q').
    apply (wf_replace st _ P0 [(sp, false); (s, true); (sn, false)]);
      proj_state; fold pb; try assumption.
    + repeat split.
    + apply sizes_ok_one. unfold MIN_BLOCK_SIZE_WORDS. lia.
    + cbn [total fst]. lia.
    + replace (b - 4 * sp) with pb by lia.
      replace (sn + s + sp) with (sp + s + sn) by lia.
      apply blocks_at_one. split.
      * etransitivity;
          [|apply (write_tags_header (mem st) pb (sp + s + sn) true); lia].
        apply load_tag_ext. intros x Hx. apply memmove_out. lia.
      * etransitivity;
          [|apply (write_tags_footer (mem st) pb (sp + s + sn) true); lia].
        apply load_tag_ext. intros x Hx. apply memmove_out. lia.
    + cbn [total fst]. intros x Hx. rewrite memmove_out by lia.
      apply write_tags_out; lia.
    + generalize (lists_ok_remove _ _ (b - 4 * sp)
                    (lists_ok_remove _ _ (b + 4 * s) Hl)).
      apply lists_ok_iff. intros x. free_iff (heap_listp st) Q' x HP0 Hmid.
    + constructor; [exact I | assumption].
  - repeat split.
  - proj_state. intros i Hi.
    replace (pb + 4) with (b - 4 * sp + 4) by lia.
    rewrite memmove_in by lia. fold b. unfold load8. f_equal.
    apply write_tags_out; lia.
  - change (P0 ++ (sp + s + sn, true) :: Q') with (P0 ++ [(sp + s + sn, true)] ++ Q').
    apply keeps_replace; try assumption.
    + apply sizes_ok_one. unfold MIN_BLOCK_SIZE_WORDS. lia.
    + cbn [total fst]. lia.
    + proj_state. fold pb. cbn [total fst]. intros x Hx. rewrite memmove_out by lia.
      apply write_tags_out; lia.
    + intros x s0. cbn [lookup fst]. fold pb.
      destruct (Z.ltb_spec x pb); [discriminate|].
      destruct (Z.eqb_spec x pb); [discriminate|].
      destruct (Z.ltb_spec x (pb + 4 * sp)); [discriminate|].
      destruct (Z.eqb_spec x (pb + 4 * sp)); [intros _; unfold b; lia|].
      destruct (Z.ltb_spec x (pb + 4 * sp + 4 * s)); [discriminate|].
      destruct (Z.eqb_spec x (pb + 4 * sp + 4 * s)); discriminate.
  - intros Hbk.
    change (P0 ++ (sp + s + sn, true) :: Q') with (P0 ++ [(sp + s + sn, true)] ++ Q').
    apply (buckets_replace _ P0 [(sp, false); (s, true); (sn, false)] _ Q'
             (segregatedList st)); try assumption.
    + apply sizes_ok_one. unfold MIN_BLOCK_SIZE_WORDS. lia.
    + cbn [total fst]. lia.
    + proj_state. fold pb. intros i x Hx.
      apply In_nth_removed in Hx. destruct Hx as [Hx Hne].
      apply In_nth_removed in Hx. destruct Hx as [Hx Hne'].
      left. split; [assumption|]. intros s0. lookup_cases.
Qed.

Lemma realloc_absorb_both st P0 sp s sn Q' sz :
  wf_with st (P0 ++ (sp, false) :: (s, true) :: (sn, false) :: Q') ->
  0 < sz < 2 ^ 64 -> ~ block_bytes sz < sz ->
  sn + s < block_words (block_bytes sz) <= sp + s + sn ->
  let pb := heap_listp st + 4 * total P0 in
  exists st',
    mm_realloc (pb + 4 * sp + 4) sz st = Some (pb + 4, st') /\
    wf_with st' (P0 ++ (sp + s + sn, true) :: Q') /\
    same_env st st'.
Proof.
  intros Hwf Hsz Hnov Haw pb.
  destruct (realloc_absorb_both_data st P0 sp s sn Q' sz Hwf Hsz Hnov Haw)
    as (st' & H1 & H2 & H3 & _).
  now exists st'.
Qed.


(** The free predecessor of a block, found through its footer. *)
Lemma heap_ok_prev_free m h brk maxa P b Q :
  heap_ok m h brk maxa (P ++ b :: Q) ->
  snd (last P (0, true)) = false ->
  exists P0 sp,
    P = P0 ++ [(sp, false)] /\
    load_tag m (h + 4 * total P - 4 * sp) = {| inuse := false; size := sp |} /\
    MIN_BLOCK_SIZE_WORDS <= sp < 2 ^ 30 /\
    h + 4 * total P - 4 * sp = h + 4 * total P0 /\ sizes_ok P0.
Proof.
  intros Hok Hpu. apply last_free_inv in Hpu. destruct Hpu as (P0 & sp & ->).
  exists P0, sp. split; [reflexivity|].
  rewrite <- app_assoc in Hok. cbn [app] in Hok.
  pose proof (heap_ok_at _ _ _ _ _ _ _ Hok) as
    (Hph & _ & _ & _ & Hsp & _ & _ & _ & HP0 & _).
  unfold tag_of in Hph. cbn [fst snd] in Hph, Hsp.
  rewrite total_app. cbn [total fst].
  replace (h + 4 * (total P0 + (sp + 0)) - 4 * sp) with (h + 4 * total P0) by lia.
  repeat split; (assumption || lia).
Qed.

(** When no in-place case applies, [mm_realloc] is its general case:
    the test of the arena-edge case compares a block address with null and
    never holds. *)
Lemma realloc_general st P s Q sz :
  wf_with st (P ++ (s, true) :: Q) ->
  0 < sz < 2 ^ 64 -> ~ block_bytes sz < sz ->
  realloc_path_of (block_words (block_bytes sz))
                  (last P (0, true)) s (hd (0, true) Q) = General ->
  mm_realloc (heap_listp st + 4 * total P + 4) sz st =
  realloc_fallback (heap_listp st + 4 * total P + 4) sz (4 * s - 8) st.
Proof.
  intros Hwf Hsz Hnov Hpath. set (b := heap_listp st + 4 * total P).
  destruct Hwf as (Hok & Hl & Hlog).
  pose proof (heap_ok_total _ _ _ _ _ Hok) as [Ht0 Ht1].
  pose proof (hk_brk _ _ _ _ _ Hok) as Ebrk.
  pose proof (heap_ok_at _ _ _ _ _ _ _ Hok) as
    (Hh & Hf & Hprev & Hnext & Hs & Hb & Hbrk & Hmax & HP & HQ).
  pose proof (heap_ok_prev_free _ _ _ _ _ _ _ Hok) as Hpfree.
  fold b in Hh, Hf, Hprev, Hnext, Hb, Hbrk, Hpfree.
  unfold tag_of in Hh, Hf, Hprev, Hnext. cbn [fst snd] in Hh, Hf, Hs, Hbrk.
  assert (Eb : b = heap_listp st + 4 * total P) by reflexivity.
  rewrite total_app in Ht0, Ht1, Ebrk. cbn [total fst] in Ht0, Ht1, Ebrk.
  pose proof (total_nonneg _ HP) as HtP. pose proof (total_nonneg _ HQ) as HtQ.
  unfold MIN_BLOCK_SIZE_WORDS in *.
  pose proof (hd_size_bound Q HQ ltac:(lia)) as Hfn.
  unfold realloc_path_of in Hpath.
  change (@last blockd) with (@last (Z * bool)) in *.
  change (@hd blockd) with (@hd (Z * bool)) in *.
  remember (hd (0, true) Q) as n eqn:En in *.
  remember (last P (0, true)) as p eqn:Ep in *.
  destruct n as [sn nu]. destruct p as [sp pu]. cbn [fst snd] in *.
  replace (4 * s - 8) with (s * 4 - 2 * 4) by lia.
  destruct pu.
  - (* predecessor in use *)
    cbn [negb andb] in Hpath.
    destruct (negb nu && (sn + s >=? block_words (block_bytes sz))) eqn:E2;
      [discriminate|].
    realloc_preamble b s Hh Hprev Hnext.
    rewrite bind_ret. rewrite (size_t_small (sn + s)) by lia.
    rewrite E2. rewrite bind_ret. rewrite bind_rd.
    rewrite (next_blk_tag _ b true s) by (assumption || lia).
    destruct (Z.eqb_spec (b + 4 * s) NULL) as [E|_]; [unfold NULL in E; lia|].
    reflexivity.
  - (* predecessor free *)
    destruct (Hpfree eq_refl) as (P0 & sp' & HPeq & Hph & Hsp & Epb & HP0).
    assert (sp' = sp).
    { rewrite HPeq, last_snoc in Ep. congruence. }
    subst sp'. pose proof (total_nonneg _ HP0) as HtP0.
    assert (Hrun : prev_blk b st = Some (b - 4 * sp, st)).
    { apply (prev_blk_run b false sp); (assumption || lia). }
    destruct nu; cbn [negb andb] in Hpath.
    + destruct (sp + s >=? block_words (block_bytes sz)) eqn:E1; [discriminate|].
      realloc_preamble b s Hh Hprev Hnext.
      rewrite bind_bind. run (prev_blk b) by exact Hrun.
      rewrite bind_bind, bind_rd. rewrite (blk_size_tag _ _ _ _ Hph) by lia.
      rewrite bind_ret. rewrite (size_t_small (sp + s)) by lia. rewrite E1.
      rewrite bind_ret. rewrite bind_rd. reflexivity.
    + destruct (sn + s >=? block_words (block_bytes sz)) eqn:E2; [discriminate|].
      destruct (sp + s + sn >=? block_words (block_bytes sz)) eqn:E4; [discriminate|].
      realloc_preamble b s Hh Hprev Hnext.
      rewrite bind_ret. rewrite (size_t_small (sn + s)) by lia. rewrite E2.
      rewrite bind_bind. run (prev_blk b) by exact Hrun.
      rewrite bind_bind, bind_rd. rewrite (blk_size_tag _ _ _ _ Hph) by lia.
      rewrite bind_ret. rewrite (size_t_small (sp + s)) by lia.
      rewrite (size_t_small (sp + s + sn)) by lia. rewrite E4.
      rewrite bind_rd. reflexivity.
Qed.

Lemma lookup_inside_free h P s' Q x :
  sizes_ok P ->
  h + 4 * total P <= x < h + 4 * total P + 4 * s' ->
  forall s0, lookup h (P ++ (s', false) :: Q) x <> Some (s0, true).
Proof.
  intros HP Hx s0. rewrite lookup_app by assumption.
  destruct (Z.ltb_spec x (h + 4 * total P)); [lia|].
  cbn [lookup fst].
  destruct (Z.ltb_spec x (h + 4 * total P)); [lia|].
  destruct (Z.eqb_spec x (h + 4 * total P)); [discriminate|].
  rewrite lookup_lt by lia. discriminate.
Qed.

(** The general case of [mm_realloc], on the payload of an allocated block
    of [s] words.  A heap of four-word units without two free blocks side by
    side stays one. *)
Lemma realloc_fallback_shape st bs ptr s sz :
  wf_with st bs -> lookup (heap_listp st) bs (ptr - 4) = Some (s, true) ->
  0 <= sz < 2 ^ 64 ->
  exists r st', realloc_fallback ptr sz (4 * s - 8) st = Some (r, st') /\
    ((malloc_fails sz st /\ r = NULL /\ st' = st) \/
     (~ malloc_fails sz st /\ r <> NULL /\ r <> ptr /\
      exists st1 bs',
        mm_malloc sz st = Some (r, st1) /\
        mm_free ptr (set_mem (memcpy (mem st1) r ptr (Z.min sz (4 * s - 8))) st1)
          = Some (tt, st') /\
        wf_with st' bs' /\
        (exists s', lookup (heap_listp st) bs' (r - 4) = Some (s', true) /\
                    sz + 8 <= 4 * s') /\
        (forall s0, lookup (heap_listp st) bs' (ptr - 4) <> Some (s0, true)) /\
        (forall i, 0 <= i < Z.min sz (4 * s - 8) ->
                   load8 (mem st') (r + i) = load8 (mem st) (ptr + i)) /\
        heap_listp st' = heap_listp st /\
        keeps (eq (ptr - 4)) (heap_listp st) (mem st) (mem st') bs bs' /\
        (words4 bs -> words4 bs') /\
        (no_adj_free bs -> no_adj_free bs') /\
        (buckets_ok (heap_listp st) bs (segregatedList st) ->
         buckets_ok (heap_listp st) bs' (segregatedList st')) /\
        mem_brk st <= mem_brk st' /\ mem_max_addr st' = mem_max_addr st)).
Proof.
  intros Hwf Hlk Hsz. unfold realloc_fallback.
  destruct (mm_malloc_shape st bs sz Hwf Hsz)
    as (r & st1 & Hrun & [(Hr & Est & Hfail)|(Hr & Hnf & bs1 & s1 & Hwf1 & Hl1 & Hroom & Hfresh & Eh1 & Em1 & Hk1
                                              & _ & Hbrkm & H4m & Hnm & Hbm & _)]).
  - run (mm_malloc sz) by exact Hrun.
    subst r st1. rewrite Z.eqb_refl. exists NULL, st. split; [reflexivity|]. left. tauto.
  - run (mm_malloc sz) by exact Hrun.
    destruct (Z.eqb_spec r NULL) as [E|_]; [contradiction|].
    rewrite bind_modify.
    replace (if sz <? 4 * s - 8 then sz else 4 * s - 8) with (Z.min sz (4 * s - 8))
      by (destruct (Z.ltb_spec sz (4 * s - 8)); lia).
    set (n := Z.min sz (4 * s - 8)).
    set (st2 := set_mem (memcpy (mem st1) r ptr n) st1).
    (* the old block is still allocated after the allocation *)
    destruct (Hk1 _ _ Hlk ltac:(tauto)) as [Hlk1 Hbytes1].
    assert (Hne : r <> ptr).
    { intros ->. exact (Hfresh s Hlk). }
    (* the copy only writes into the payload of the new block *)
    destruct (lookup_zipper _ _ _ _ Hl1) as (P1 & Q1 & -> & Er).
    pose proof Hwf1 as (Hok1 & _). rewrite Eh1 in Hok1.
    pose proof (heap_ok_at _ _ _ _ _ _ _ Hok1) as
      (_ & _ & _ & _ & Hs1 & Hb1 & Hbrk1 & Hmax1 & HP1 & HQ1).
    cbn [fst] in Hs1, Hbrk1. rewrite <- Er in Hb1, Hbrk1.
    unfold MIN_BLOCK_SIZE_WORDS in Hs1.
    assert (Hcopy : forall x, x < r \/ r + n <= x ->
                      memcpy (mem st1) r ptr n x = mem st1 x).
    { intros x Hx. unfold memcpy. now apply memmove_out. }
    assert (Hwf2 : wf_with st2 (P1 ++ (s1, true) :: Q1)).
    { unfold st2. apply wf_payload_change; [assumption|].
      rewrite Eh1, <- Er. intros x Hx. apply Hcopy. lia. }
    assert (Hlk2 : lookup (heap_listp st2) (P1 ++ (s1, true) :: Q1) (ptr - 4)
                   = Some (s, true)).
    { unfold st2. proj_state. rewrite Eh1. exact Hlk1. }
    destruct (mm_free_shape st2 _ ptr s Hwf2 Hlk2)
      as (st' & P' & s' & Q' & Hfree & Hwf' & (Hlo & Hhi) & (Eh' & Eb' & Em') & Hk'
          & Hbf & _ & A & B & HAB & Es' & HfA & HfB & HlA & HlB & _).
    destruct (freed_tidy P' A s s' B Q' Es' HfA HfB HlA HlB) as [H4f Hnf'].
    assert (H4f' : words4 (P1 ++ (s1, true) :: Q1) -> words4 (P' ++ (s', false) :: Q'))
      by (intros H; apply H4f; exact (eq_ind _ words4 H _ HAB)).
    assert (Hnf'' : no_adj_free (P1 ++ (s1, true) :: Q1) ->
                    no_adj_free (P' ++ (s', false) :: Q'))
      by (intros H; apply Hnf'; exact (eq_ind _ no_adj_free H _ HAB)).
    unfold st2 in Hlo, Hhi, Eh', Eb', Em', Hk'. proj_state.
    rewrite Eh1 in Hlo, Hhi, Hk'.
    run (mm_free ptr) by exact Hfree.
    exists r, st'. split; [reflexivity|]. right.
    split; [assumption|]. split; [assumption|]. split; [assumption|].
    exists st1, (P' ++ (s', false) :: Q').
    assert (Hnew : lookup (heap_listp st) (P' ++ (s', false) :: Q') (r - 4)
                   = Some (s1, true) /\
                   forall y, r - 4 + 4 <= y < r - 4 + 4 * s1 - 4 ->
                             mem st' y = memcpy (mem st1) r ptr n y).
    { apply Hk'; [exact Hl1 | lia]. }
    destruct Hnew as [Hnew Hnewb].
    pose proof (lookup_range _ _ _ _ (hk_sizes _ _ _ _ _ (proj1 Hwf)) Hlk) as Hrg.
    cbn [fst] in Hrg. unfold MIN_BLOCK_SIZE_WORDS in Hrg.
    split; [exact Hrun|]. split; [exact Hfree|]. split; [exact Hwf'|].
    split; [exists s1; split; [exact Hnew | exact Hroom]|].
    split; [|split; [|split; [|split; [|split; [|split; [|split; [|split]]]]]]];
      [| | | |tauto|tauto| | |].
    + pose proof Hwf' as (Hok' & _). rewrite Eh', Eh1 in Hok'.
      apply lookup_inside_free.
      * pose proof (hk_sizes _ _ _ _ _ Hok') as Hsz'.
        apply sizes_ok_app in Hsz'. tauto.
      * lia.
    + intros i Hi. unfold load8 at 1. rewrite Hnewb by lia.
      fold (load8 (memcpy (mem st1) r ptr n) (r + i)).
      unfold memcpy. rewrite memmove_in by lia.
      apply load8_ext. apply Hbytes1. lia.
    + congruence.
    + intros x s0 Hx Hxne.
      destruct (Hk1 _ _ Hx ltac:(tauto)) as [Hx1 Hxb1].
      assert (Hxr : x <> r - 4).
      { intros ->. exact (Hfresh s0 Hx). }
      destruct (Hk' _ _ Hx1 Hxne) as [Hx' Hxb'].
      split; [exact Hx'|]. intros y Hy.
      rewrite Hxb' by assumption. rewrite <- Hxb1 by assumption.
      apply Hcopy.
      (* the block at [x] does not overlap the new block *)
      change (P1 ++ (s1, true) :: Q1) with (P1 ++ [(s1, true)] ++ Q1) in Hx1.
      rewrite lookup_app in Hx1 by assumption.
      pose proof (lookup_range _ _ _ _ (hk_sizes _ _ _ _ _ (proj1 Hwf)) Hx) as Hrx.
      cbn [fst] in Hrx.
      destruct (Z.ltb_spec x (heap_listp st + 4 * total P1)).
      * apply lookup_range in Hx1; [|assumption]. cbn [fst] in Hx1. lia.
      * cbn [lookup app fst] in Hx1.
        destruct (Z.ltb_spec x (heap_listp st + 4 * total P1)); [lia|].
        destruct (Z.eqb_spec x (heap_listp st + 4 * total P1)); [lia|].
        apply lookup_range in Hx1; [|assumption]. cbn [fst] in Hx1. lia.
    + intros Hb0. apply Hbm in Hb0. revert Hbf. unfold st2. proj_state.
      rewrite Eh1. intros Hbf. apply Hbf, Hb0.
    + destruct Hbrkm as (r0 & _ & [(_ & _ & E)|(_ & E)]); [lia|].
      rewrite max_spec in E. unfold CHUNKSIZE, WSIZE in *. lia.
    + congruence.
Qed.

Lemma realloc_fallback_spec st bs ptr s sz :
  wf_with st bs -> lookup (heap_listp st) bs (ptr - 4) = Some (s, true) ->
  0 <= sz < 2 ^ 64 ->
  exists r st', realloc_fallback ptr sz (4 * s - 8) st = Some (r, st') /\
    ((malloc_fails sz st /\ r = NULL /\ st' = st) \/
     (~ malloc_fails sz st /\ r <> NULL /\ r <> ptr /\
      exists st1 bs',
        mm_malloc sz st = Some (r, st1) /\
        mm_free ptr (set_mem (memcpy (mem st1) r ptr (Z.min sz (4 * s - 8))) st1)
          = Some (tt, st') /\
        wf_with st' bs' /\
        (exists s', lookup (heap_listp st) bs' (r - 4) = Some (s', true) /\
                    sz + 8 <= 4 * s') /\
        (forall s0, lookup (heap_listp st) bs' (ptr - 4) <> Some (s0, true)) /\
        (forall i, 0 <= i < Z.min sz (4 * s - 8) ->
                   load8 (mem st') (r + i) = load8 (mem st) (ptr + i)) /\
        heap_listp st' = heap_listp st /\
        keeps (eq (ptr - 4)) (heap_listp st) (mem st) (mem st') bs bs')).
Proof.
  intros Hwf Hlk Hsz.
  destruct (realloc_fallback_shape st bs ptr s sz Hwf Hlk Hsz) as (r & st' & Hrun & [H|H]).
  - exists r, st'. split; [assumption|]. now left.
  - destruct H as (H1 & H2 & H3 & st1 & bs' & H4 & H5 & H6 & H7 & H8 & H9 & H10 & H11 & _).
    exists r, st'. split; [assumption|]. right.
    split; [assumption|]. split; [assumption|]. split; [assumption|].
    now exists st1, bs'.
Qed.


(** ** Soundness of the checker *)

Lemma tag_eqb_eq t1 t2 : tag_eqb t1 t2 = true -> t1 = t2.
Proof.
  destruct t1 as [u1 s1], t2 as [u2 s2]. unfold tag_eqb. cbn [inuse size].
  intros H. apply andb_true_iff in H. destruct H as [Hu Hs].
  apply Bool.eqb_prop in Hu. apply Z.eqb_eq in Hs. now subst.
Qed.

Lemma blocks_atb_sound m a bs : blocks_atb m a bs = true -> blocks_at m a bs.
Proof.
  revert a. induction bs as [|b bs IH]; intros a; cbn [blocks_atb blocks_at].
  - trivial.
  - intros H. apply andb_true_iff in H. destruct H as [H H3].
    apply andb_true_iff in H. destruct H as [H1 H2].
    repeat split; [now apply tag_eqb_eq | now apply tag_eqb_eq | now apply IH].
Qed.

Lemma nodupb_sound l : nodupb l = true -> NoDup l.
Proof.
  induction l as [|x l IH]; cbn [nodupb]; intros H; constructor.
  - apply andb_true_iff in H. destruct H as [H _].
    intros Hin. apply Z_mem_In in Hin. rewrite Hin in H. discriminate.
  - apply andb_true_iff in H. now apply IH.
Qed.

Lemma free_addrs_ge a bs x : sizes_ok bs -> In x (free_addrs a bs) -> a <= x.
Proof.
  intros Hs. revert a. induction Hs as [|b bs Hb _ IH]; intros a; cbn [free_addrs].
  - contradiction.
  - unfold MIN_BLOCK_SIZE_WORDS in Hb. intros H. apply in_app_or in H.
    destruct H as [H|H].
    + destruct (snd b); [contradiction|]. destruct H as [<-|[]]. lia.
    + apply IH in H. lia.
Qed.

Lemma is_free_free_addrs a bs x :
  sizes_ok bs -> (is_free a bs x <-> In x (free_addrs a bs)).
Proof.
  intros Hs. revert a. induction Hs as [|[s u] bs Hb Hbs IH]; intros a.
  - rewrite is_free_nil. cbn [free_addrs]. tauto.
  - rewrite is_free_cons, IH. cbn [free_addrs fst snd].
    cbn [fst] in Hb. unfold MIN_BLOCK_SIZE_WORDS in Hb. split.
    + intros [[-> ->]|[_ H]]; [now left|].
      apply in_or_app. now right.
    + intros H. apply in_app_or in H. destruct H as [H|H].
      * destruct u; [contradiction|]. destruct H as [<-|[]]. now left.
      * right. split; [|assumption]. apply free_addrs_ge in H; [lia|assumption].
Qed.

Lemma andb_split a b : a && b = true -> a = true /\ b = true.
Proof. apply andb_true_iff. Qed.

Theorem check_heap_sound st bs : check_heap st bs = true -> wf_with st bs.
Proof.
  unfold check_heap. intros H.
  apply andb_split in H. destruct H as [H Hlog].
  apply andb_split in H. destruct H as [H Hin2].
  apply andb_split in H. destruct H as [H Hin1].
  apply andb_split in H. destruct H as [H Hnd].
  apply andb_split in H. destruct H as [H Hlen].
  apply andb_split in H. destruct H as [H Htop].
  apply andb_split in H. destruct H as [H Hcap].
  apply andb_split in H. destruct H as [H Hmax].
  apply andb_split in H. destruct H as [H Hbrk].
  apply andb_split in H. destruct H as [H Hepi].
  apply andb_split in H. destruct H as [H Hblk].
  apply andb_split in H. destruct H as [H Hpro].
  apply andb_split in H. destruct H as [Hbase Hsizes].
  assert (Hsz : sizes_ok bs).
  { apply Forall_forall. intros b Hb. rewrite forallb_forall in Hsizes.
    apply Z.leb_le. now apply Hsizes. }
  split; [|split].
  - constructor.
    + now apply Z.leb_le.
    + assumption.
    + now apply tag_eqb_eq.
    + now apply blocks_atb_sound.
    + now apply tag_eqb_eq.
    + now apply Z.eqb_eq.
    + now apply Z.leb_le.
    + now apply Z.ltb_lt.
    + now apply Z.ltb_lt.
  - split; [now apply Nat.eqb_eq|]. split; [now apply nodupb_sound|].
    intros x. rewrite is_free_free_addrs by assumption.
    rewrite forallb_forall in Hin1, Hin2. split.
    + intros Hin. apply Z_mem_In. now apply Hin1.
    + intros Hin. apply Z_mem_In. now apply Hin2.
  - apply Forall_forall. intros w Hw. rewrite forallb_forall in Hlog.
    specialize (Hlog w Hw). destruct w as [? ? ?|a t]; cbn [fence_write fence_writeb] in *.
    + exact I.
    + now apply tag_eqb_eq.
Qed.

(** * Properties of the specification *)

(** ** C1: the fit search *)

Lemma scan_list_firstn m asize count es :
  0 <= count <= 4 ->
  scan_list m asize count es =
  find (fits m asize) (firstn (Z.to_nat (4 - count)) es).
Proof.
  revert count. induction es as [|e es IH]; intros count Hc; cbn [scan_list].
  - now rewrite firstn_nil.
  - destruct (Z.geb_spec (count + 1) 5) as [Hge|Hlt].
    + replace (Z.to_nat (4 - count)) with 0%nat by lia. reflexivity.
    + replace (Z.to_nat (4 - count)) with (S (Z.to_nat (4 - (count + 1)))) by lia.
      cbn [firstn find]. fold (fits m asize e).
      destruct (fits m asize e); [reflexivity|]. apply IH. lia.
Qed.

Lemma scan_classes_seq m asize pre l :
  scan_classes m asize (pre ++ l) (seq (length pre) (length l)) =
  bounded_first_fit 4 m asize l.
Proof.
  revert pre. induction l as [|b l IH]; intros pre; cbn [length seq scan_classes bounded_first_fit].
  - reflexivity.
  - rewrite nth_middle. rewrite scan_list_firstn by lia.
    change (Z.to_nat (4 - 0)) with 4%nat.
    destruct (find (fits m asize) (firstn 4 b)); [reflexivity|].
    specialize (IH (pre ++ [b])). rewrite <- app_assoc in IH. cbn [app] in IH.
    rewrite length_app in IH. cbn [length] in IH.
    replace (length pre + 1)%nat with (S (length pre)) in IH by lia. exact IH.
Qed.

(** C1, as amended: for every needed size and every state with its ten
    free lists, [find_fit] returns without changing the state, and what it
    returns is the bounded first fit with a bound of FOUR candidates: in each
    bucket in ascending order it scans in list order, returns the first of
    the first four blocks that is free and has at least the needed size,
    and abandons the bucket when its counter reaches five, that is before
    looking at a fifth block. *)
Theorem find_fit_examines_four asize st :
  0 < asize -> length (segregatedList st) = NUM_SIZE_CLASSES ->
  find_fit asize st =
  Some (bounded_first_fit 4 (mem st) asize (segregatedList st), st).
Proof.
  intros Ha Hlen. rewrite find_fit_run by assumption. f_equal. f_equal.
  rewrite <- Hlen. apply (scan_classes_seq (mem st) asize []).
Qed.

Lemma find_fit_examines_four_witness :
  find_fit 28 five_candidates =
  Some (bounded_first_fit 4 (mem five_candidates) 28
          (segregatedList five_candidates), five_candidates).
Proof.
  apply (find_fit_examines_four 28 five_candidates).
  - lia.
  - vm_compute. reflexivity.
Defined.

(** C1, as stated, fails: in [five_candidates] the fifth block of the first
    list (at 4108, 28 words) is free and large enough for 28 words and no
    earlier block of the list is, so a search examining five candidates
    returns it; [find_fit] returns null. *)
Lemma find_fit_skips_fifth :
  nth 4 (nth 0 (segregatedList five_candidates) []) 0 = 4108 /\
  fits (mem five_candidates) 28 4108 = true /\
  find (fits (mem five_candidates) 28)
       (firstn 4 (nth 0 (segregatedList five_candidates) [])) = None /\
  bounded_first_fit 5 (mem five_candidates) 28
    (segregatedList five_candidates) = 4108 /\
  result_of (find_fit 28) five_candidates = Some NULL.
Proof. vm_compute. repeat split; reflexivity. Qed.

(** ** C2: size normalization *)

Lemma block_words_normalized n :
  0 <= n -> n + 23 < 2 ^ 64 ->
  block_words (block_bytes n) = normalized_words n.
Proof.
  intros H0 Hn.
  destruct (block_bytes_cases n ltac:(lia)) as [[_ ->]|[Hov _]]; [|lia].
  unfold block_words, normalized_words, round_up, WSIZE, ALIGNMENT.
  rewrite max_spec. f_equal. f_equal.
  replace (n + 2 * 4 + 16 - 1) with (n + 23) by lia. lia.
Qed.

(** C2, as amended: for every requested size n > 0 whose normalization does
    not overflow, resize computes the normalized block size by the rule
    applied to n itself (add the two tags, round up to the alignment,
    express in words, clamp to 8 words); allocate applies the same rule,
    but to the request after its two literal remaps (448 becomes 512, 112
    becomes 128), hence to n itself only when n is neither 448 nor 112. *)
Theorem normalization_rule n :
  0 < n -> n + 23 < 2 ^ 64 ->
  realloc_words n = normalized_words n /\
  malloc_words n = normalized_words (malloc_size n) /\
  malloc_size 448 = 512 /\ malloc_size 112 = 128 /\
  (n <> 448 -> n <> 112 -> malloc_words n = normalized_words n).
Proof.
  intros H0 Hn. unfold realloc_words, malloc_words.
  split; [apply block_words_normalized; lia|].
  split; [|split; [reflexivity|split; [reflexivity|]]].
  - apply block_words_normalized; unfold malloc_size;
      destruct (n =? 448); try lia; destruct (n =? 112); lia.
  - intros H1 H2. unfold malloc_size.
    destruct (Z.eqb_spec n 448); [contradiction|].
    destruct (Z.eqb_spec n 112); [contradiction|].
    apply block_words_normalized; lia.
Qed.

Lemma normalization_rule_witness :
  realloc_words 448 = normalized_words 448 /\
  malloc_words 448 = normalized_words (malloc_size 448) /\
  malloc_size 448 = 512 /\ malloc_size 112 = 128 /\
  (448 <> 448 -> 448 <> 112 -> malloc_words 448 = normalized_words 448).
Proof. apply (normalization_rule 448); lia. Defined.

(** C2, as stated, fails for allocate: a request of 448 bytes is normalized
    to 132 words, not to the 116 words of the rule; on a fresh heap, whose
    free block of 128 words would hold 116 words, the arena is grown and the
    allocated block has 132 words. *)
Lemma malloc_448_not_normalized :
  malloc_words 448 = 132 /\ normalized_words 448 = 116 /\
  realloc_words 448 = 116 /\
  (let st := state_after mm_init arena in
   let st' := state_after (mm_malloc 448) st in
   result_of (mm_malloc 448) st = Some 4112 /\
   blk_size (mem st') (block_of 4112) = 132 /\
   mem_brk st < mem_brk st').
Proof. vm_compute. repeat split; reflexivity. Qed.

(** ** C4: the two special cases of resize *)

Lemma realloc_zero_is_free st p :
  mm_realloc p 0 st =
    match mm_free p st with
    | Some (_, st') => Some (NULL, st')
    | None => None
    end.
Proof.
  unfold mm_realloc. cbn [Z.eqb]. unfold bind, ret.
  destruct (mm_free p st) as [[[] st']|]; reflexivity.
Qed.

Lemma realloc_null_is_malloc st n :
  heap_listp st <> 0 -> mm_realloc NULL n st = mm_malloc n st.
Proof.
  intros Hinit. unfold mm_realloc. destruct (Z.eqb_spec n 0) as [->|Hn].
  - run (mm_free NULL) by (now apply mm_free_null). reflexivity.
  - reflexivity.
Qed.

(** C4: once the allocator is initialized, resize(p, 0) performs exactly
    the state change of free(p) and returns null, and resize(null, n)
    performs exactly the state change of allocate(n) and returns what
    allocate(n) returns, for every n. *)
Theorem realloc_special_cases st p n :
  heap_listp st <> 0 ->
  mm_realloc p 0 st =
    match mm_free p st with
    | Some (_, st') => Some (NULL, st')
    | None => None
    end /\
  mm_realloc NULL n st = mm_malloc n st.
Proof.
  intros Hinit. split.
  - apply realloc_zero_is_free.
  - now apply realloc_null_is_malloc.
Qed.

Lemma realloc_special_cases_witness :
  let st := block_before_free in
  mm_realloc 4112 0 st =
    match mm_free 4112 st with
    | Some (_, st') => Some (NULL, st')
    | None => None
    end /\
  mm_realloc NULL 0 st = mm_malloc 0 st.
Proof.
  intros st. apply (realloc_special_cases st 4112 0).
  vm_compute. discriminate.
Defined.

(** ** C7: placement *)

Lemma nth_upd_nth {A} i (f : A -> A) l d :
  (i < length l)%nat -> nth i (upd_nth i f l) d = f (nth i l d).
Proof.
  revert i. induction l as [|x l IH]; intros [|i] H; cbn [length] in H;
    cbn [upd_nth nth]; try lia; [reflexivity|]. apply IH. lia.
Qed.

Lemma not_In_concat_remove (e : Z) l :
  ~ In e (concat (map (remove Z.eq_dec e) l)).
Proof. rewrite remove_concat. apply remove_In. Qed.

Lemma In_concat_upd_nth i (e x : Z) l :
  (i < length l)%nat ->
  (In x (concat (upd_nth i (cons e) l)) <-> x = e \/ In x (concat l)).
Proof.
  intros Hi. pose proof (concat_upd_nth_cons i e l Hi) as Hp. split.
  - intros H. apply (Permutation_in _ Hp) in H. destruct H; [left; congruence|now right].
  - intros H. apply (Permutation_in _ (Permutation_sym Hp)).
    destruct H; [left; congruence|now right].
Qed.

(** C7: for every free block of csize words on a free list, placed with a
    needed size of asize words, 0 < asize <= csize: [place] returns, the
    block is detached from the lists, and if csize - asize is at least 8
    words the block is split -- header and footer of the left part read
    (allocated, asize), those of the right remainder read
    (free, csize - asize), and the remainder is in the list of its size
    class -- while otherwise header and footer of the whole block read
    (allocated, csize). *)
Theorem place_splits_or_fills bp asize csize st :
  load_tag (mem st) bp = {| inuse := false; size := csize |} ->
  0 < asize <= csize -> csize < 2 ^ 30 ->
  In bp (concat (segregatedList st)) ->
  length (segregatedList st) = NUM_SIZE_CLASSES ->
  0 < bp -> bp + 4 * csize < 2 ^ 64 ->
  exists st',
    place bp asize st = Some (tt, st') /\
    ~ In bp (concat (segregatedList st')) /\
    if csize - asize >=? MIN_BLOCK_SIZE_WORDS then
      load_tag (mem st') bp = {| inuse := true; size := asize |} /\
      load_tag (mem st') (bp + 4 * asize - 4) = {| inuse := true; size := asize |} /\
      load_tag (mem st') (bp + 4 * asize)
        = {| inuse := false; size := csize - asize |} /\
      load_tag (mem st') (bp + 4 * csize - 4)
        = {| inuse := false; size := csize - asize |} /\
      In (bp + 4 * asize)
         (nth (size_class (csize - asize)) (segregatedList st') [])
    else
      load_tag (mem st') bp = {| inuse := true; size := csize |} /\
      load_tag (mem st') (bp + 4 * csize - 4) = {| inuse := true; size := csize |}.
Proof.
  intros Ht Ha Hc Hin Hlen Hb Hle.
  pose proof (size_class_bound (csize - asize)) as Hcl.
  destruct (Z.geb_spec (csize - asize) MIN_BLOCK_SIZE_WORDS) as [Hge|Hlt].
  - eexists. split.
    { apply (place_run_split bp asize false csize); (assumption || lia). }
    unfold MIN_BLOCK_SIZE_WORDS in Hge. proj_state.
    split; [|repeat split].
    + rewrite In_concat_upd_nth by (rewrite length_map; lia).
      intros [H|H]; [lia|]. now apply not_In_concat_remove in H.
    + rewrite write_tags_other by lia. apply write_tags_header. lia.
    + rewrite write_tags_other by lia. apply write_tags_footer. lia.
    + apply write_tags_header. lia.
    + replace (bp + 4 * csize - 4) with (bp + 4 * asize + 4 * (csize - asize) - 4) by lia.
      apply write_tags_footer. lia.
    + rewrite nth_upd_nth by (rewrite length_map; lia). now left.
  - eexists. split.
    { apply (place_run_whole bp asize false csize); (assumption || lia). }
    proj_state. split; [apply not_In_concat_remove|]. split.
    + apply write_tags_header. lia.
    + apply write_tags_footer. lia.
Qed.

Lemma place_splits_or_fills_witness :
  let st := state_after mm_init arena in
  exists st',
    place 4108 20 st = Some (tt, st') /\
    ~ In 4108 (concat (segregatedList st')) /\
    if 128 - 20 >=? MIN_BLOCK_SIZE_WORDS then
      load_tag (mem st') 4108 = {| inuse := true; size := 20 |} /\
      load_tag (mem st') (4108 + 4 * 20 - 4) = {| inuse := true; size := 20 |} /\
      load_tag (mem st') (4108 + 4 * 20) = {| inuse := false; size := 128 - 20 |} /\
      load_tag (mem st') (4108 + 4 * 128 - 4) = {| inuse := false; size := 128 - 20 |} /\
      In (4108 + 4 * 20) (nth (size_class (128 - 20)) (segregatedList st') [])
    else
      load_tag (mem st') 4108 = {| inuse := true; size := 128 |} /\
      load_tag (mem st') (4108 + 4 * 128 - 4) = {| inuse := true; size := 128 |}.
Proof.
  intros st. apply (place_splits_or_fills 4108 20 128 st).
  - vm_compute. reflexivity.
  - lia.
  - lia.
  - vm_compute. left. reflexivity.
  - vm_compute. reflexivity.
  - lia.
  - lia.
Defined.

(** ** C6: the coalescer *)

Lemma NoDup_concat_upd_nth i (e : Z) l :
  (i < length l)%nat -> ~ In e (concat l) -> NoDup (concat l) ->
  NoDup (concat (upd_nth i (cons e) l)).
Proof.
  intros Hi He Hnd.
  apply (Permutation_NoDup (Permutation_sym (concat_upd_nth_cons i e l Hi))).
  now constructor.
Qed.

Lemma NoDup_concat_remove (e : Z) l :
  NoDup (concat l) -> NoDup (concat (map (remove Z.eq_dec e) l)).
Proof. intros H. rewrite remove_concat. now apply NoDup_remove_elt. Qed.

Lemma In_concat_remove_iff (e x : Z) l :
  In x (concat (map (remove Z.eq_dec e) l)) <-> In x (concat l) /\ x <> e.
Proof. rewrite remove_concat. apply In_remove_iff. Qed.

Lemma listed_once (x : Z) i l :
  NoDup (concat l) -> In x (nth i l []) ->
  count_occ Z.eq_dec (concat l) x = 1%nat.
Proof.
  intros Hnd Hin. apply NoDup_count_occ'; [assumption|].
  now apply (In_nth_concat x i).
Qed.

(** C6, as amended: for every free block passed to the coalescer, with
    matching header and footer, not yet in a free list, the lists holding
    no block twice, the case is decided by the in-use bits read from the
    predecessor's footer and the successor's header.  The merged size is
    the block's size plus those of its free neighbours, the returned
    address is the block's own when the predecessor is in use and the
    predecessor's otherwise; on return header and footer at the returned
    address read (free, merged size) and the block is in the list of the
    size class of the merged size.  Both absorbed neighbours have been
    detached: an absorbed successor is in no list, and the lists still hold
    no block twice, so the returned address, which is the predecessor's
    when that one is absorbed, occurs in them exactly once, the entry just
    inserted; every other block is in the lists afterwards exactly when it
    was before.  In the three merging cases exactly one header/footer write
    is made, with the merged size; when both neighbours are in use the
    coalescer writes no tag at all. *)
Theorem coalesce_cases st bp s sp pu sn nu :
  load_tag (mem st) bp = {| inuse := false; size := s |} ->
  load_tag (mem st) (bp + 4 * s - 4) = {| inuse := false; size := s |} ->
  load_tag (mem st) (bp - 4) = {| inuse := pu; size := sp |} ->
  load_tag (mem st) (bp + 4 * s) = {| inuse := nu; size := sn |} ->
  (pu = false ->
   load_tag (mem st) (bp - 4 * sp) = {| inuse := false; size := sp |} /\
   2 <= sp /\ 4 <= bp - 4 * sp /\ In (bp - 4 * sp) (concat (segregatedList st))) ->
  (nu = false -> 1 <= sn /\ In (bp + 4 * s) (concat (segregatedList st))) ->
  1 <= s -> 0 <= sp -> 0 <= sn -> s + sn + sp < 2 ^ 30 ->
  4 <= bp -> bp + 4 * (s + sn) < 2 ^ 64 ->
  length (segregatedList st) = NUM_SIZE_CLASSES ->
  NoDup (concat (segregatedList st)) ->
  ~ In bp (concat (segregatedList st)) ->
  let merged := s + (if nu then 0 else sn) + (if pu then 0 else sp) in
  let r := if pu then bp else bp - 4 * sp in
  exists st',
    coalesce bp st = Some (r, st') /\
    load_tag (mem st') r = {| inuse := false; size := merged |} /\
    load_tag (mem st') (r + 4 * merged - 4) = {| inuse := false; size := merged |} /\
    In r (nth (size_class merged) (segregatedList st') []) /\
    (nu = false -> ~ In (bp + 4 * s) (concat (segregatedList st'))) /\
    NoDup (concat (segregatedList st')) /\
    count_occ Z.eq_dec (concat (segregatedList st')) r = 1%nat /\
    (forall x, x <> r ->
       (In x (concat (segregatedList st')) <->
        In x (concat (segregatedList st)) /\ (nu = false -> x <> bp + 4 * s))) /\
    tag_writes st' =
      (if pu && nu then [] else [PairWrite r merged false]) ++ tag_writes st.
Proof.
  intros Hh Hf Hp Hn Hpf Hnf Hs Hsp Hsn Hsum Hb Hle Hlen Hnd Hnb merged r.
  pose proof (size_class_bound merged) as Hcl.
  assert (Hfin : forall l' (B E F : Prop),
    NoDup (concat l') -> In r (nth (size_class merged) l' []) -> B -> E -> F ->
    In r (nth (size_class merged) l' []) /\ B /\
    NoDup (concat l') /\ count_occ Z.eq_dec (concat l') r = 1%nat /\ E /\ F).
  { intros l' B E F H1 H2 HB HE HF. repeat split; try assumption.
    now apply (listed_once r (size_class merged)). }
  destruct pu, nu; subst merged r; cbn [andb app].
  - (* both in use *)
    eexists. split; [apply (coalesce_run1 bp sp false s sn); (assumption || lia)|].
    proj_state. replace (s + 0 + 0) with s in * by lia.
    split; [assumption|]. split; [assumption|]. apply Hfin.
    + apply NoDup_concat_upd_nth; (assumption || lia).
    + rewrite nth_upd_nth by lia. now left.
    + discriminate.
    + intros x Hx. rewrite In_concat_upd_nth by lia.
      split; [intros [H|H]; [contradiction|split; [assumption|discriminate]]|].
      intros [H _]. now right.
    + reflexivity.
  - (* successor free *)
    destruct (Hnf eq_refl) as (Hsn1 & Hinn).
    eexists. split; [apply (coalesce_run2 bp sp false s sn); (assumption || lia)|].
    proj_state. replace (s + sn + 0) with (s + sn) in * by lia.
    split; [apply write_tags_header; lia|].
    split; [apply write_tags_footer; lia|]. apply Hfin.
    + apply NoDup_concat_upd_nth; [rewrite length_map; lia| |].
      * rewrite In_concat_remove_iff. tauto.
      * now apply NoDup_concat_remove.
    + rewrite nth_upd_nth by (rewrite length_map; lia). now left.
    + intros _. rewrite In_concat_upd_nth by (rewrite length_map; lia).
      intros [H|H]; [lia|]. now apply not_In_concat_remove in H.
    + intros x Hx. rewrite In_concat_upd_nth by (rewrite length_map; lia).
      rewrite In_concat_remove_iff. tauto.
    + reflexivity.
  - (* predecessor free *)
    destruct (Hpf eq_refl) as (Hph & Hsp2 & Hpb & Hinp).
    eexists. split; [apply (coalesce_run3 bp false sp false s sn); (assumption || lia)|].
    proj_state. replace (s + 0 + sp) with (s + sp) in * by lia.
    split; [apply write_tags_header; lia|].
    split; [apply write_tags_footer; lia|]. apply Hfin.
    + apply NoDup_concat_upd_nth; [rewrite length_map; lia| |].
      * apply not_In_concat_remove.
      * now apply NoDup_concat_remove.
    + rewrite nth_upd_nth by (rewrite length_map; lia). now left.
    + discriminate.
    + intros x Hx. rewrite In_concat_upd_nth by (rewrite length_map; lia).
      rewrite In_concat_remove_iff.
      split; [intros [H|[H _]]; [contradiction|split; [assumption|discriminate]]|].
      intros [H _]. right. now split.
    + reflexivity.
  - (* both free *)
    destruct (Hpf eq_refl) as (Hph & Hsp2 & Hpb & Hinp).
    destruct (Hnf eq_refl) as (Hsn1 & Hinn).
    eexists. split; [apply (coalesce_run4 bp false sp false s sn); (assumption || lia)|].
    proj_state.
    split; [apply write_tags_header; lia|].
    split; [apply write_tags_footer; lia|]. apply Hfin.
    + apply NoDup_concat_upd_nth; [rewrite !length_map; lia| |].
      * rewrite In_concat_remove_iff. intros [H _].
        now apply not_In_concat_remove in H.
      * now apply NoDup_concat_remove, NoDup_concat_remove.
    + rewrite nth_upd_nth by (rewrite !length_map; lia). now left.
    + intros _. rewrite In_concat_upd_nth by (rewrite !length_map; lia).
      intros [H|H]; [lia|]. now apply not_In_concat_remove in H.
    + intros x Hx. rewrite In_concat_upd_nth by (rewrite !length_map; lia).
      rewrite !In_concat_remove_iff. tauto.
    + reflexivity.
Qed.

Lemma coalesce_cases_witness :
  let st := pending_between_free in
  let merged := 20 + (if false then 0 else 20) + (if false then 0 else 20) in
  let r := if false then 4188 else 4188 - 4 * 20 in
  exists st',
    coalesce 4188 st = Some (r, st') /\
    load_tag (mem st') r = {| inuse := false; size := merged |} /\
    load_tag (mem st') (r + 4 * merged - 4) = {| inuse := false; size := merged |} /\
    In r (nth (size_class merged) (segregatedList st') []) /\
    (false = false -> ~ In (4188 + 4 * 20) (concat (segregatedList st'))) /\
    NoDup (concat (segregatedList st')) /\
    count_occ Z.eq_dec (concat (segregatedList st')) r = 1%nat /\
    (forall x, x <> r ->
       (In x (concat (segregatedList st')) <->
        In x (concat (segregatedList st)) /\ (false = false -> x <> 4188 + 4 * 20))) /\
    tag_writes st' =
      (if false && false then [] else [PairWrite r merged false]) ++ tag_writes st.
Proof.
  intros st.
  apply (coalesce_cases st 4188 20 20 false 20 false).
  - vm_compute. reflexivity.
  - vm_compute. reflexivity.
  - vm_compute. reflexivity.
  - vm_compute. reflexivity.
  - intros _. split; [vm_compute; reflexivity|]. split; [lia|]. split; [lia|].
    vm_compute. right. left. reflexivity.
  - intros _. split; [lia|]. vm_compute. left. reflexivity.
  - lia.
  - lia.
  - lia.
  - lia.
  - lia.
  - lia.
  - vm_compute. reflexivity.
  - vm_compute. repeat (constructor; [cbn [In]; intuition discriminate|]). constructor.
  - vm_compute. intuition discriminate.
Defined.

(** C6, as stated, fails in the case where both neighbours are in use: in
    [pending_between_used] the block at 4108 is free, the prologue fence
    before it and the block after it are in use, and [coalesce] returns the
    block without having written any header or footer. *)
Lemma coalesce_unmerged_writes_nothing :
  let st := pending_between_used in
  blk_free (mem st) 4108 = true /\
  inuse (load_tag (mem st) (prev_blk_footer 4108)) = true /\
  blk_free (mem st) (next_blk (mem st) 4108) = false /\
  result_of (coalesce 4108) st = Some 4108 /\
  tag_writes (state_after (coalesce 4108) st) = tag_writes st.
Proof. vm_compute. repeat split; reflexivity. Qed.

(** ** C9: when allocate returns null *)

Lemma round_up_overflow x :
  0 <= x -> (2 ^ 64 <= round_up x ALIGNMENT <-> 2 ^ 64 <= x + 15).
Proof.
  intros Hx. unfold round_up, ALIGNMENT.
  replace (x + 16 - 1) with (x + 15) by lia.
  change (2 ^ 64) with (1152921504606846976 * 16).
  Z.div_mod_to_equations. lia.
Qed.

(** C9: on a well-formed heap, for every size, allocate returns, and it
    returns null exactly in three situations: the requested size is 0, the
    size computation overflows, or no fit is found and memlib refuses to
    grow the arena.  Whenever it returns null the allocator state is exactly
    what it was (in particular for size 0, and after a failed growth: no
    partial block is committed); in every case the state it leaves is a
    well-formed heap.  The overflow test of the code holds exactly when the
    rounded-up block size does not fit 64 bits, so an overflowing request
    fails instead of wrapping into an undersized block. *)
Theorem mm_malloc_null_iff st sz :
  wf st -> 0 <= sz < 2 ^ 64 ->
  exists r st',
    mm_malloc sz st = Some (r, st') /\
    (r = NULL <-> malloc_fails sz st) /\
    (r = NULL -> st' = st) /\
    wf st' /\
    (block_bytes (malloc_size sz) < malloc_size sz <->
     2 ^ 64 <= round_up (malloc_size sz + 2 * WSIZE) ALIGNMENT).
Proof.
  intros [bs Hwf] Hsz.
  destruct (mm_malloc_spec st bs sz Hwf Hsz)
    as (r & st' & Hrun & [(Hr & Est & Hfail)|(Hr & Hnf & bs' & s' & Hwf' & _)]).
  - exists r, st'. split; [assumption|]. split; [tauto|]. split; [tauto|].
    split; [subst st'; now exists bs|].
    pose proof (malloc_size_range sz Hsz).
    rewrite block_bytes_overflow by lia. rewrite round_up_overflow by (unfold WSIZE; lia).
    unfold WSIZE. lia.
  - exists r, st'. split; [assumption|]. split; [tauto|]. split; [tauto|].
    split; [now exists bs'|].
    pose proof (malloc_size_range sz Hsz).
    rewrite block_bytes_overflow by lia. rewrite round_up_overflow by (unfold WSIZE; lia).
    unfold WSIZE. lia.
Qed.

Lemma mm_malloc_null_iff_witness :
  let st := block_before_free in
  let sz := 2 ^ 64 - 1 in
  exists r st',
    mm_malloc sz st = Some (r, st') /\
    (r = NULL <-> malloc_fails sz st) /\
    (r = NULL -> st' = st) /\
    wf st' /\
    (block_bytes (malloc_size sz) < malloc_size sz <->
     2 ^ 64 <= round_up (malloc_size sz + 2 * WSIZE) ALIGNMENT).
Proof.
  intros st sz. apply (mm_malloc_null_iff st sz).
  - exists [(20, true); (108, false)]. apply check_heap_sound.
    vm_compute. reflexivity.
  - unfold sz. lia.
Defined.

(** ** C5: the general case of resize *)

Lemma realloc_general_spec st P s Q sz :
  wf_with st (P ++ (s, true) :: Q) ->
  0 < sz < 2 ^ 64 -> ~ block_bytes sz < sz ->
  realloc_path_of (realloc_words sz) (last P (0, true)) s (hd (0, true) Q)
    = General ->
  let ptr := heap_listp st + 4 * total P + 4 in
  exists r st', mm_realloc ptr sz st = Some (r, st') /\
    ((malloc_fails sz st /\ r = NULL /\ st' = st) \/
     (~ malloc_fails sz st /\ r <> NULL /\ r <> ptr /\
      exists st1 bs',
        mm_malloc sz st = Some (r, st1) /\
        mm_free ptr (set_mem (memcpy (mem st1) r ptr (Z.min sz (4 * s - 8))) st1)
          = Some (tt, st') /\
        wf_with st' bs' /\
        (exists s', lookup (heap_listp st) bs' (r - 4) = Some (s', true) /\
                    sz + 8 <= 4 * s') /\
        (forall s0, lookup (heap_listp st) bs' (ptr - 4) <> Some (s0, true)) /\
        (forall i, 0 <= i < Z.min sz (4 * s - 8) ->
                   load8 (mem st') (r + i) = load8 (mem st) (ptr + i)) /\
        heap_listp st' = heap_listp st /\
        keeps (eq (ptr - 4)) (heap_listp st) (mem st) (mem st')
              (P ++ (s, true) :: Q) bs')).
Proof.
  intros Hwf Hsz Hnov Hpath ptr. unfold ptr.
  rewrite (realloc_general st P s Q sz Hwf Hsz Hnov Hpath).
  apply realloc_fallback_spec; [assumption| |lia].
  replace (heap_listp st + 4 * total P + 4 - 4) with (heap_listp st + 4 * total P) by lia.
  apply lookup_mid. destruct Hwf as (Hok & _).
  pose proof (hk_sizes _ _ _ _ _ Hok) as Hs. apply sizes_ok_app in Hs. tauto.
Qed.

(** C5: for every resize call on the payload of an allocated block that
    reaches the general case (no overflow, no in-place case applies), the
    call returns.  If the fresh allocation fails, the result is null and the
    allocator state, hence the original block, is exactly what it was.  If
    it succeeds, the result is the payload of another block with room for
    the new size; the state is the one left by freeing the old block after
    copying exactly min(newSize, old payload size) bytes from the old
    payload to the new one; in it the heap is well formed, the first
    min(newSize, old payload size) bytes of the new payload are those of the
    old payload, the old block is no longer allocated, and every other
    allocated block is kept with its payload. *)
Theorem realloc_general_case st P s Q sz :
  wf_with st (P ++ (s, true) :: Q) ->
  0 < sz < 2 ^ 64 -> ~ block_bytes sz < sz ->
  realloc_path_of (realloc_words sz) (last P (0, true)) s (hd (0, true) Q)
    = General ->
  let ptr := heap_listp st + 4 * total P + 4 in
  exists r st', mm_realloc ptr sz st = Some (r, st') /\
    ((malloc_fails sz st /\ r = NULL /\ st' = st) \/
     (~ malloc_fails sz st /\ r <> NULL /\ r <> ptr /\
      exists st1 bs',
        mm_malloc sz st = Some (r, st1) /\
        mm_free ptr (set_mem (memcpy (mem st1) r ptr (Z.min sz (4 * s - 8))) st1)
          = Some (tt, st') /\
        wf_with st' bs' /\
        (exists s', lookup (heap_listp st) bs' (r - 4) = Some (s', true) /\
                    sz + 8 <= 4 * s') /\
        (forall s0, lookup (heap_listp st) bs' (ptr - 4) <> Some (s0, true)) /\
        (forall i, 0 <= i < Z.min sz (4 * s - 8) ->
                   load8 (mem st') (r + i) = load8 (mem st) (ptr + i)) /\
        heap_listp st' = heap_listp st /\
        keeps (eq (ptr - 4)) (heap_listp st) (mem st) (mem st')
              (P ++ (s, true) :: Q) bs')).
Proof. exact (realloc_general_spec st P s Q sz). Qed.

Lemma realloc_general_case_witness :
  let st := block_at_edge in
  let ptr := heap_listp st + 4 * total [] + 4 in
  exists r st', mm_realloc ptr 1000 st = Some (r, st') /\
    ((malloc_fails 1000 st /\ r = NULL /\ st' = st) \/
     (~ malloc_fails 1000 st /\ r <> NULL /\ r <> ptr /\
      exists st1 bs',
        mm_malloc 1000 st = Some (r, st1) /\
        mm_free ptr (set_mem (memcpy (mem st1) r ptr (Z.min 1000 (4 * 128 - 8))) st1)
          = Some (tt, st') /\
        wf_with st' bs' /\
        (exists s', lookup (heap_listp st) bs' (r - 4) = Some (s', true) /\
                    1000 + 8 <= 4 * s') /\
        (forall s0, lookup (heap_listp st) bs' (ptr - 4) <> Some (s0, true)) /\
        (forall i, 0 <= i < Z.min 1000 (4 * 128 - 8) ->
                   load8 (mem st') (r + i) = load8 (mem st) (ptr + i)) /\
        heap_listp st' = heap_listp st /\
        keeps (eq (ptr - 4)) (heap_listp st) (mem st) (mem st')
              ([] ++ (128, true) :: []) bs')).
Proof.
  intros st. apply (realloc_general_case st [] 128 [] 1000).
  - apply check_heap_sound. vm_compute. reflexivity.
  - lia.
  - vm_compute. discriminate.
  - vm_compute. reflexivity.
Defined.

(** ** C10: in-place resize keeps the whole merged block *)

Lemma in_place_result st st' P0 mid Q' merged :
  wf_with st (P0 ++ mid ++ Q') ->
  wf_with st' (P0 ++ (merged, true) :: Q') ->
  heap_listp st' = heap_listp st -> total mid = merged ->
  let r := heap_listp st + 4 * total P0 + 4 in
  lookup (heap_listp st) (P0 ++ (merged, true) :: Q') (r - 4) = Some (merged, true) /\
  blk_size (mem st') (block_of r) = merged /\
  blk_free (mem st') (block_of r) = false /\
  total (P0 ++ (merged, true) :: Q') = total (P0 ++ mid ++ Q') /\
  forall x, is_free (heap_listp st) (P0 ++ (merged, true) :: Q') x ->
            is_free (heap_listp st) (P0 ++ mid ++ Q') x.
Proof.
  intros (Hok & _) (Hok' & _) Eh Ht r.
  pose proof (heap_ok_at _ _ _ _ _ _ _ Hok') as
    (Hh & _ & _ & _ & Hm & Hb & Hbrk & Hmax & HP0 & HQ').
  rewrite Eh in Hh, Hb, Hbrk. unfold tag_of in Hh. cbn [fst snd] in Hh, Hm, Hbrk.
  unfold MIN_BLOCK_SIZE_WORDS in Hm.
  pose proof (hk_sizes _ _ _ _ _ Hok) as Hsz.
  apply sizes_ok_app in Hsz. destruct Hsz as [_ Hsz].
  apply sizes_ok_app in Hsz. destruct Hsz as [Hmid _].
  unfold r. rewrite block_of_small by lia.
  replace (heap_listp st + 4 * total P0 + 4 - 4) with (heap_listp st + 4 * total P0) by lia.
  split; [now apply lookup_mid|].
  split; [apply (blk_size_tag _ _ _ _ Hh); lia|].
  split; [apply (blk_free_tag _ _ _ _ Hh)|].
  split; [rewrite !total_app; cbn [total fst]; lia|].
  intros x Hx.
  change (P0 ++ (merged, true) :: Q') with (P0 ++ [(merged, true)] ++ Q') in Hx.
  apply (is_free_replace _ P0 mid [(merged, true)] Q' x) in Hx; try assumption.
  - destruct Hx as [[Hx _]|Hx]; [assumption|].
    rewrite is_free_cons, is_free_nil in Hx. destruct Hx as [[_ Hx]|[_ []]]. discriminate.
  - apply sizes_ok_one. unfold MIN_BLOCK_SIZE_WORDS. lia.
  - cbn [total fst]. lia.
Qed.

Lemma realloc_in_place_spec st P s Q sz :
  wf_with st (P ++ (s, true) :: Q) ->
  0 < sz < 2 ^ 64 -> ~ block_bytes sz < sz ->
  let p := last P (0, true) in
  let n := hd (0, true) Q in
  let path := realloc_path_of (realloc_words sz) p s n in
  path <> General ->
  let ptr := heap_listp st + 4 * total P + 4 in
  let merged := match path with
                | AbsorbPrev => fst p + s
                | AbsorbNext => s + fst n
                | AbsorbBoth => fst p + s + fst n
                | General => s
                end in
  let r := match path with
           | AbsorbNext => ptr
           | _ => ptr - 4 * fst p
           end in
  exists st' bs',
    mm_realloc ptr sz st = Some (r, st') /\
    wf_with st' bs' /\
    lookup (heap_listp st) bs' (r - 4) = Some (merged, true) /\
    blk_size (mem st') (block_of r) = merged /\
    blk_free (mem st') (block_of r) = false /\
    realloc_words sz <= merged /\
    total bs' = total (P ++ (s, true) :: Q) /\
    forall x, is_free (heap_listp st) bs' x ->
              is_free (heap_listp st) (P ++ (s, true) :: Q) x.
Proof.
  intros Hwf Hsz Hnov p n path Hpath ptr merged r.
  subst merged r ptr. unfold path in *. clear path. unfold realloc_words in *.
  subst p n. unfold realloc_path_of in *.
  change (@last blockd) with (@last (Z * bool)) in *.
  change (@hd blockd) with (@hd (Z * bool)) in *.
  remember (hd (0, true) Q) as n eqn:En.
  remember (last P (0, true)) as p eqn:Ep.
  destruct n as [sn nu]. destruct p as [sp pu]. cbn [fst snd] in *.
  set (aw := block_words (block_bytes sz)) in *.
  destruct (negb pu && nu && (sp + s >=? aw)) eqn:E1.
  - (* predecessor absorbed *)
    apply andb_split in E1. destruct E1 as [E1 Ege].
    apply andb_split in E1. destruct E1 as [Epu Enu].
    apply negb_true_iff in Epu. subst pu nu. apply Z.geb_le in Ege.
    destruct (last_free_inv P) as (P0 & sp' & HPeq).
    { change (@last blockd) with (@last (Z * bool)). now rewrite <- Ep. }
    assert (sp' = sp) by (rewrite HPeq, last_snoc in Ep; congruence). subst sp'.
    subst P. rewrite <- app_assoc in *. cbn [app] in *.
    destruct (realloc_absorb_prev st P0 sp s Q sz Hwf ltac:(now rewrite <- En)
                Hsz Hnov Ege) as (st' & Hrun & Hwf' & (Eh & _)).
    rewrite total_app. cbn [total fst].
    replace (heap_listp st + 4 * (total P0 + (sp + 0)) + 4)
      with (heap_listp st + 4 * total P0 + 4 * sp + 4) by lia.
    replace (heap_listp st + 4 * total P0 + 4 * sp + 4 - 4 * sp)
      with (heap_listp st + 4 * total P0 + 4) by lia.
    exists st', (P0 ++ (sp + s, true) :: Q).
    split; [exact Hrun|]. split; [exact Hwf'|].
    change (P0 ++ (sp, false) :: (s, true) :: Q)
      with (P0 ++ [(sp, false); (s, true)] ++ Q) in *.
    destruct (in_place_result st st' P0 [(sp, false); (s, true)] Q (sp + s)
                Hwf Hwf' Eh ltac:(cbn [total fst]; lia))
      as (H1 & H2 & H3 & H4 & H5).
    repeat split; (assumption || lia).
  - destruct (negb nu && (sn + s >=? aw)) eqn:E2.
    + (* successor absorbed *)
      apply andb_split in E2. destruct E2 as [Enu Ege].
      apply negb_true_iff in Enu. subst nu. apply Z.geb_le in Ege.
      destruct (hd_free_inv Q) as (sn' & Q' & HQeq).
      { change (@hd blockd) with (@hd (Z * bool)). now rewrite <- En. }
      assert (sn' = sn) by (rewrite HQeq in En; cbn [hd] in En; congruence).
      subst sn'. subst Q.
      destruct (realloc_absorb_next st P s sn Q' sz Hwf Hsz Hnov Ege)
        as (st' & Hrun & Hwf' & (Eh & _)).
      exists st', (P ++ (s + sn, true) :: Q').
      split; [exact Hrun|]. split; [exact Hwf'|].
      change (P ++ (s, true) :: (sn, false) :: Q')
        with (P ++ [(s, true); (sn, false)] ++ Q') in *.
      destruct (in_place_result st st' P [(s, true); (sn, false)] Q' (s + sn)
                  Hwf Hwf' Eh ltac:(cbn [total fst]; lia))
        as (H1 & H2 & H3 & H4 & H5).
      repeat split; (assumption || lia).
    + destruct (negb pu && negb nu && (sp + s + sn >=? aw)) eqn:E4;
        [|contradiction].
      (* both neighbours absorbed *)
      apply andb_split in E4. destruct E4 as [E4 Ege].
      apply andb_split in E4. destruct E4 as [Epu Enu].
      apply negb_true_iff in Epu, Enu. subst pu nu. apply Z.geb_le in Ege.
      cbn [negb andb] in E2.
      assert (Hlt : sn + s < aw).
      { revert E2. destruct (Z.geb_spec (sn + s) aw); [discriminate|lia]. }
      destruct (last_free_inv P) as (P0 & sp' & HPeq).
      { change (@last blockd) with (@last (Z * bool)). now rewrite <- Ep. }
      assert (sp' = sp) by (rewrite HPeq, last_snoc in Ep; congruence). subst sp'.
      destruct (hd_free_inv Q) as (sn' & Q' & HQeq).
      { change (@hd blockd) with (@hd (Z * bool)). now rewrite <- En. }
      assert (sn' = sn) by (rewrite HQeq in En; cbn [hd] in En; congruence).
      subst sn'. subst P Q. rewrite <- app_assoc in *. cbn [app] in *.
      destruct (realloc_absorb_both st P0 sp s sn Q' sz Hwf Hsz Hnov
                  ltac:(fold aw; lia)) as (st' & Hrun & Hwf' & (Eh & _)).
      rewrite total_app. cbn [total fst].
      replace (heap_listp st + 4 * (total P0 + (sp + 0)) + 4)
        with (heap_listp st + 4 * total P0 + 4 * sp + 4) by lia.
      replace (heap_listp st + 4 * total P0 + 4 * sp + 4 - 4 * sp)
        with (heap_listp st + 4 * total P0 + 4) by lia.
      exists st', (P0 ++ (sp + s + sn, true) :: Q').
      split; [exact Hrun|]. split; [exact Hwf'|].
      change (P0 ++ (sp, false) :: (s, true) :: (sn, false) :: Q')
        with (P0 ++ [(sp, false); (s, true); (sn, false)] ++ Q') in *.
      destruct (in_place_result st st' P0 [(sp, false); (s, true); (sn, false)] Q'
                  (sp + s + sn) Hwf Hwf' Eh ltac:(cbn [total fst]; lia))
        as (H1 & H2 & H3 & H4 & H5).
      repeat split; (assumption || lia).
Qed.

(** C10: for every resize call on the payload of an allocated block that
    takes one of the three in-place cases (predecessor-absorb,
    successor-absorb, both-neighbours-absorb), the call returns the payload
    of a block that is allocated and whose size is the full sum of the sizes
    of the merged blocks, which is at least the needed normalized size; the
    heap is well formed, the arena has not grown, and every free block of
    the new heap was already a free block before: nothing of the surplus is
    split off into a free remainder. *)
Theorem realloc_in_place_keeps_all st P s Q sz :
  wf_with st (P ++ (s, true) :: Q) ->
  0 < sz < 2 ^ 64 -> ~ block_bytes sz < sz ->
  let p := last P (0, true) in
  let n := hd (0, true) Q in
  let path := realloc_path_of (realloc_words sz) p s n in
  path <> General ->
  let ptr := heap_listp st + 4 * total P + 4 in
  let merged := match path with
                | AbsorbPrev => fst p + s
                | AbsorbNext => s + fst n
                | AbsorbBoth => fst p + s + fst n
                | General => s
                end in
  let r := match path with
           | AbsorbNext => ptr
           | _ => ptr - 4 * fst p
           end in
  exists st' bs',
    mm_realloc ptr sz st = Some (r, st') /\
    wf_with st' bs' /\
    lookup (heap_listp st) bs' (r - 4) = Some (merged, true) /\
    blk_size (mem st') (block_of r) = merged /\
    blk_free (mem st') (block_of r) = false /\
    realloc_words sz <= merged /\
    total bs' = total (P ++ (s, true) :: Q) /\
    forall x, is_free (heap_listp st) bs' x ->
              is_free (heap_listp st) (P ++ (s, true) :: Q) x.
Proof. exact (realloc_in_place_spec st P s Q sz). Qed.

Lemma realloc_in_place_keeps_all_witness :
  let st := block_before_free in
  let P : list blockd := [] in
  let Q : list blockd := [(108, false)] in
  (let p := last P (0, true) in
   let n := hd (0, true) Q in
   let path := realloc_path_of (realloc_words 200) p 20 n in
   let ptr := heap_listp st + 4 * total P + 4 in
   let merged := match path with
                 | AbsorbPrev => fst p + 20
                 | AbsorbNext => 20 + fst n
                 | AbsorbBoth => fst p + 20 + fst n
                 | General => 20
                 end in
   let r := match path with
            | AbsorbNext => ptr
            | _ => ptr - 4 * fst p
            end in
   exists st' bs',
     mm_realloc ptr 200 st = Some (r, st') /\
     wf_with st' bs' /\
     lookup (heap_listp st) bs' (r - 4) = Some (merged, true) /\
     blk_size (mem st') (block_of r) = merged /\
     blk_free (mem st') (block_of r) = false /\
     realloc_words 200 <= merged /\
     total bs' = total (P ++ (20, true) :: Q) /\
     forall x, is_free (heap_listp st) bs' x ->
               is_free (heap_listp st) (P ++ (20, true) :: Q) x) /\
  MIN_BLOCK_SIZE_WORDS <= (20 + 108) - realloc_words 200.
Proof.
  intros st P Q. split.
  - apply (realloc_in_place_keeps_all st P 20 Q 200).
    + apply check_heap_sound. vm_compute. reflexivity.
    + lia.
    + vm_compute. discriminate.
    + vm_compute. discriminate.
  - vm_compute. discriminate.
Defined.

(** ** C8: headers and footers *)

Lemma load_tag_word m a u s :
  load_tag m a = {| inuse := u; size := s |} -> 0 <= s < 2 ^ 30 ->
  load32 m a = Z.b2z u + 2 * s.
Proof.
  unfold load_tag, word_tag. intros H Hs.
  pose proof (load32_range m a) as Hw. set (w := load32 m a) in *.
  pose proof (f_equal inuse H) as Hu. pose proof (f_equal size H) as Hsz.
  cbn [inuse size] in Hu, Hsz. clear H.
  rewrite Z.shiftr_div_pow2 in Hsz by lia. change (2 ^ 1) with 2 in Hsz.
  change (2 ^ 31 - 1) with (Z.ones 31) in Hsz. rewrite Z.land_ones in Hsz by lia.
  assert (Hw2 : 0 <= w / 2 < 2 ^ 31).
  { change (2 ^ 32) with 4294967296 in Hw. change (2 ^ 31) with 2147483648.
    Z.div_mod_to_equations. lia. }
  rewrite Z.mod_small in Hsz by assumption.
  unfold sext31 in Hsz. destruct (Z.ltb_spec (w / 2) (2 ^ 30)); [|lia].
  pose proof (Z.bit0_mod w) as Hb. rewrite Hu in Hb.
  rewrite Hb. subst s. Z.div_mod_to_equations. lia.
Qed.

Lemma load32_bytes m a b :
  load32 m a = load32 m b ->
  forall i, 0 <= i < 4 -> load8 m (a + i) = load8 m (b + i).
Proof.
  unfold load32. intros H i Hi.
  pose proof (load8_range m a). pose proof (load8_range m (a + 1)).
  pose proof (load8_range m (a + 2)). pose proof (load8_range m (a + 3)).
  pose proof (load8_range m b). pose proof (load8_range m (b + 1)).
  pose proof (load8_range m (b + 2)). pose proof (load8_range m (b + 3)).
  change (2 ^ 8) with 256 in H. change (2 ^ 16) with 65536 in H.
  change (2 ^ 24) with 16777216 in H.
  assert (Hc : i = 0 \/ i = 1 \/ i = 2 \/ i = 3) by lia.
  destruct Hc as [Hc|[Hc|[Hc|Hc]]]; subst i; rewrite ?Z.add_0_r; lia.
Qed.

(** In a well-formed heap the footer of every block is byte for byte its
    header. *)
Lemma wf_footer_matches st bs x b :
  wf_with st bs -> lookup (heap_listp st) bs x = Some b ->
  footer_matches (mem st) x.
Proof.
  intros (Hok & _) Hl. destruct (lookup_zipper _ _ _ _ Hl) as (P & Q & -> & ->).
  pose proof (heap_ok_at _ _ _ _ _ _ _ Hok) as
    (Hh & Hf & _ & _ & Hs & Hb & Hbrk & Hmax & _).
  destruct b as [s u]. unfold tag_of in Hh, Hf. cbn [fst snd] in Hh, Hf, Hs, Hbrk.
  unfold MIN_BLOCK_SIZE_WORDS in Hs.
  unfold footer_matches.
  rewrite (get_footer_tag _ _ u s) by (assumption || lia).
  apply load32_bytes.
  rewrite (load_tag_word _ _ _ _ Hh), (load_tag_word _ _ _ _ Hf) by lia.
  reflexivity.
Qed.

Lemma realloc_overflow st bs ptr s sz :
  wf_with st bs -> lookup (heap_listp st) bs (ptr - 4) = Some (s, true) ->
  sz <> 0 -> block_bytes sz < sz ->
  mm_realloc ptr sz st = Some (NULL, st).
Proof.
  intros (Hok & _) Hl Hnz Hov.
  destruct (lookup_zipper _ _ _ _ Hl) as (P & Q & -> & Eb).
  pose proof (heap_ok_at _ _ _ _ _ _ _ Hok) as
    (Hh & _ & _ & _ & Hs & Hb & Hbrk & Hmax & _).
  rewrite <- Eb in Hh, Hb, Hbrk. unfold tag_of in Hh. cbn [fst snd] in Hh, Hs, Hbrk.
  unfold MIN_BLOCK_SIZE_WORDS in Hs.
  unfold mm_realloc.
  destruct (Z.eqb_spec sz 0); [contradiction|].
  destruct (Z.eqb_spec ptr NULL) as [E|_]; [unfold NULL in E; lia|].
  rewrite block_of_small by lia.
  rewrite bind_assert
    by (unfold NULL; destruct (Z.eqb_spec (ptr - 4) 0); [lia|reflexivity]).
  rewrite bind_rd. rewrite (blk_size_tag _ _ _ _ Hh) by lia.
  unfold WSIZE. rewrite (size_t_small (s * 4)) by lia.
  rewrite (size_t_small (s * 4 - 2 * 4)) by lia.
  rewrite bind_assert by (apply Z.gtb_lt; lia).
  rewrite !bind_rd.
  destruct (Z.ltb_spec (block_bytes sz) sz); [reflexivity|lia].
Qed.

Lemma wf_heap_listp st : wf st -> heap_listp st <> 0.
Proof. intros [bs (Hok & _)]. pose proof (hk_base _ _ _ _ _ Hok). lia. Qed.

(** Every public operation on valid arguments returns and leaves a
    well-formed heap. *)
Lemma wf_step st o :
  wf st -> valid_op st o ->
  exists r st', run_op o st = Some (r, st') /\ wf st'.
Proof.
  intros Hwf Hv. destruct o as [sz|ptr|ptr sz]; cbn [run_op valid_op] in *.
  - destruct Hwf as [bs Hwf].
    destruct (mm_malloc_spec st bs sz Hwf Hv)
      as (r & st' & Hrun & [(_ & -> & _)|(_ & _ & bs' & s' & Hwf' & _)]).
    + exists r, st. split; [assumption | now exists bs].
    + exists r, st'. split; [assumption | now exists bs'].
  - destruct Hv as [->|(bs & s & Hwfb & Hl)].
    + exists 0, st. split; [|assumption].
      run (mm_free NULL) by (apply mm_free_null; now apply wf_heap_listp).
      reflexivity.
    + destruct (mm_free_spec st bs ptr s Hwfb Hl)
        as (st' & P' & s' & Q' & Hrun & Hwf' & _).
      exists 0, st'. split; [|now exists (P' ++ (s', false) :: Q')].
      run (mm_free ptr) by exact Hrun. reflexivity.
  - destruct Hv as [Hp Hsz].
    pose proof (wf_heap_listp st Hwf) as Hh.
    destruct Hp as [->|(bs & s & Hwfb & Hl)].
    + rewrite (realloc_null_is_malloc st sz Hh).
      destruct Hwf as [bs Hwf].
      destruct (mm_malloc_spec st bs sz Hwf Hsz)
        as (r & st' & Hrun & [(_ & -> & _)|(_ & _ & bs' & s' & Hwf' & _)]).
      * exists r, st. split; [assumption | now exists bs].
      * exists r, st'. split; [assumption | now exists bs'].
    + destruct (Z.eq_dec sz 0) as [->|Hnz].
      { rewrite (realloc_zero_is_free st ptr).
        destruct (mm_free_spec st bs ptr s Hwfb Hl)
          as (st' & P' & s' & Q' & Hrun & Hwf' & _).
        rewrite Hrun. exists NULL, st'.
        split; [reflexivity | now exists (P' ++ (s', false) :: Q')]. }
      destruct (Z_lt_dec (block_bytes sz) sz) as [Hov|Hnov].
      { exists NULL, st. split; [|assumption].
        now apply (realloc_overflow st bs ptr s sz). }
      destruct (lookup_zipper _ _ _ _ Hl) as (P & Q & -> & Eb).
      replace ptr with (heap_listp st + 4 * total P + 4) by lia.
      pose proof (realloc_in_place_spec st P s Q sz Hwfb ltac:(lia) Hnov)
        as Hin.
      cbv zeta in Hin.
      match type of Hin with
      | context [realloc_path_of ?a ?p ?s0 ?n] =>
          destruct (realloc_path_of a p s0 n) eqn:Epath
      end.
      1-3: destruct (Hin ltac:(discriminate)) as (st' & bs' & Hrun & Hwf' & _);
           eexists _, st'; split; [exact Hrun | now exists bs'].
      destruct (realloc_general_spec st P s Q sz Hwfb ltac:(lia) Hnov Epath)
        as (r & st' & Hrun & [(_ & _ & ->)|(_ & _ & _ & st1 & bs' & _ & _ & Hwf' & _)]).
      * exists r, st. split; [assumption|now exists (P ++ (s, true) :: Q)].
      * exists r, st'. split; [assumption|now exists bs'].
Qed.

Lemma state_after_run {A} (c : M A) st a st' :
  c st = Some (a, st') -> state_after c st = st'.
Proof. intros H. unfold state_after. now rewrite H. Qed.

Lemma reachable_wf st : reachable st -> wf st.
Proof.
  induction 1 as [st Hfresh Hres|st o Hreach IH Hv].
  - destruct (mm_init_spec st Hfresh)
      as (r & st' & Hrun & [(Hr & _)|(_ & Hwf & _)]).
    + unfold result_of in Hres. rewrite Hrun in Hres. congruence.
    + now rewrite (state_after_run _ _ _ _ Hrun).
  - destruct (wf_step st o IH Hv) as (r & st' & Hrun & Hwf).
    now rewrite (state_after_run _ _ _ _ Hrun).
Qed.

(** C8, as amended: after [mm_init] and any sequence of public operations
    on valid arguments, for every block of the arena, allocated or free,
    the footer is byte-identical to the header; every tag assigned directly,
    not through [set_header_and_footer], is a fence (the fences are single
    tags, written directly by [mm_init] and [extend_heap]); and every
    further public operation on valid arguments returns, in a state of
    which the same holds. *)
Theorem footers_match_headers st :
  reachable st ->
  (exists bs, wf_with st bs /\
     forall x b, lookup (heap_listp st) bs x = Some b ->
                 footer_matches (mem st) x) /\
  Forall fence_write (tag_writes st) /\
  (forall o, valid_op st o ->
     exists r st', run_op o st = Some (r, st') /\ reachable st').
Proof.
  intros Hreach. pose proof (reachable_wf st Hreach) as [bs Hwf].
  split; [|split].
  - exists bs. split; [assumption|]. intros x b. now apply wf_footer_matches.
  - apply Hwf.
  - intros o Hv.
    destruct (wf_step st o ltac:(now exists bs) Hv) as (r & st' & Hrun & _).
    exists r, st'. split; [assumption|].
    rewrite <- (state_after_run _ _ _ _ Hrun). now apply reach_op.
Qed.

Lemma fresh_arena : fresh arena.
Proof.
  unfold fresh, arena. proj_state.
  repeat split; try lia; reflexivity.
Qed.

Lemma footers_match_headers_witness :
  let st := state_after mm_init arena in
  (exists bs, wf_with st bs /\
     forall x b, lookup (heap_listp st) bs x = Some b ->
                 footer_matches (mem st) x) /\
  Forall fence_write (tag_writes st) /\
  (forall o, valid_op st o ->
     exists r st', run_op o st = Some (r, st') /\ reachable st').
Proof.
  intros st. apply (footers_match_headers st).
  apply (reach_init arena).
  - exact fresh_arena.
  - vm_compute. reflexivity.
Defined.

(** C8, as stated, fails on the fences: [mm_init] assigns three boundary
    tags directly (the prologue footer, the first epilogue header, and
    through [extend_heap] the new epilogue header), and the epilogue fence,
    a tag of size 0, has no footer: the tag that [get_footer] locates for
    it is the footer of the block before it, which differs from it. *)
Lemma fences_are_written_directly :
  let st := state_after mm_init arena in
  tag_writes st =
    [DirectWrite 4620 FENCE; PairWrite 4108 128 false;
     DirectWrite 4108 FENCE; DirectWrite 4104 FENCE] /\
  load_tag (mem st) 4620 = FENCE /\
  ~ footer_matches (mem st) 4620.
Proof.
  intros st. split; [vm_compute; reflexivity|]. split; [vm_compute; reflexivity|].
  intros H. specialize (H 0 ltac:(lia)). vm_compute in H. discriminate.
Qed.

(** ** C3: resize at the right edge of the arena *)

(** The test of the arena-edge case compares the address of the successor
    with null; in a well-formed heap it never holds, and a block whose
    successor is the epilogue fence and whose predecessor is in use is
    resized by the general case. *)
Lemma realloc_at_edge_is_general st P s sz :
  wf_with st (P ++ (s, true) :: []) ->
  snd (last P (0, true)) = true ->
  0 < sz < 2 ^ 64 -> ~ block_bytes sz < sz ->
  mm_realloc (heap_listp st + 4 * total P + 4) sz st =
  realloc_fallback (heap_listp st + 4 * total P + 4) sz (4 * s - 8) st.
Proof.
  intros Hwf Hpu Hsz Hnov. apply (realloc_general st P s [] sz); try assumption.
  unfold realloc_path_of. cbn [hd fst snd negb andb].
  change (@last blockd) with (@last (Z * bool)) in *.
  rewrite Hpu. reflexivity.
Qed.

(** C3 fails on the code: in [block_at_edge] the block of payload 4112 has
    the epilogue fence as successor (at 4620, not null) and the prologue
    fence, in use, before it; no in-place case applies to a resize to 1000
    bytes, yet the heap is not extended in place: the call behaves as the
    general case, returns another payload (4624) and frees the old block. *)
Theorem realloc_at_edge_moves :
  let st := block_at_edge in
  inuse (load_tag (mem st) (prev_blk_footer 4108)) = true /\
  next_blk (mem st) 4108 = 4620 /\
  load_tag (mem st) 4620 = FENCE /\
  realloc_path_of (realloc_words 1000) (0, true) 128 (0, true) = General /\
  result_of (mm_realloc 4112 1000) st = Some 4624 /\
  result_of (realloc_fallback 4112 1000 504) st = Some 4624 /\
  blk_free (mem (state_after (mm_realloc 4112 1000) st)) 4108 = true.
Proof. vm_compute. repeat split; reflexivity. Qed.

(** * Further properties of the allocator *)

(** ** The layout of a well-formed heap is determined by its memory *)

Lemma blocks_at_unique m a bs bs' :
  sizes_ok bs -> sizes_ok bs' ->
  blocks_at m a bs -> blocks_at m a bs' -> total bs = total bs' ->
  bs = bs'.
Proof.
  intros Hs. revert a bs'. induction Hs as [|b bs Hb Hbs IH]; intros a bs' Hs' H H' Ht.
  - destruct Hs' as [|b' bs' Hb' Hbs']; [reflexivity|].
    pose proof (total_nonneg _ Hbs'). cbn [total] in Ht.
    unfold MIN_BLOCK_SIZE_WORDS in *. lia.
  - destruct Hs' as [|b' bs' Hb' Hbs'].
    + pose proof (total_nonneg _ Hbs). cbn [total] in Ht.
      unfold MIN_BLOCK_SIZE_WORDS in *. lia.
    + cbn [blocks_at] in H, H'. destruct H as (Hh & _ & Hr). destruct H' as (Hh' & _ & Hr').
      assert (b = b').
      { rewrite Hh in Hh'. destruct b, b'. unfold tag_of in Hh'. cbn [fst snd] in Hh'.
        congruence. }
      subst b'. f_equal. apply (IH (a + 4 * fst b)); try assumption.
      cbn [total] in Ht. lia.
Qed.

Lemma wf_with_unique st bs bs' : wf_with st bs -> wf_with st bs' -> bs = bs'.
Proof.
  intros (Hok & _) (Hok' & _).
  apply (blocks_at_unique (mem st) (heap_listp st)); try apply Hok; try apply Hok'.
  pose proof (hk_brk _ _ _ _ _ Hok). pose proof (hk_brk _ _ _ _ _ Hok'). lia.
Qed.

(** ** Resizing in place *)

Lemma words4_absorbed P (mid : list blockd) t Q :
  words4 (P ++ mid ++ Q) -> t = total mid -> words4 (P ++ (t, true) :: Q).
Proof.
  intros H ->. apply words4_app in H. destruct H as [HP H].
  apply words4_app in H. destruct H as [Hm HQ].
  apply words4_app. split; [assumption|]. constructor; [|assumption].
  cbn [fst]. now apply words4_total.
Qed.

Lemma no_adj_free_absorbed P (mid : list blockd) t Q :
  no_adj_free (P ++ mid ++ Q) -> no_adj_free (P ++ (t, true) :: Q).
Proof.
  intros H. apply no_adj_free_app in H. destruct H as (HP & H & _).
  apply no_adj_free_app in H. destruct H as (_ & HQ & _).
  apply no_adj_free_app. cbn [no_adj_free hd snd]. auto.
Qed.

(** The three in-place cases of [mm_realloc]: the old payload, all of it, is
    found at the returned address, in a block at least as large as the old
    one; every other allocated block is kept with its payload. *)
Lemma realloc_in_place_data st P s Q sz :
  wf_with st (P ++ (s, true) :: Q) ->
  0 < sz < 2 ^ 64 -> ~ block_bytes sz < sz ->
  realloc_path_of (realloc_words sz) (last P (0, true)) s (hd (0, true) Q)
    <> General ->
  let ptr := heap_listp st + 4 * total P + 4 in
  exists r st' bs' s',
    mm_realloc ptr sz st = Some (r, st') /\
    wf_with st' bs' /\ same_env st st' /\
    lookup (heap_listp st) bs' (r - 4) = Some (s', true) /\
    s <= s' /\ realloc_words sz <= s' /\
    (forall i, 0 <= i < 4 * s - 8 ->
               load8 (mem st') (r + i) = load8 (mem st) (ptr + i)) /\
    keeps (eq (ptr - 4)) (heap_listp st) (mem st) (mem st')
          (P ++ (s, true) :: Q) bs' /\
    (words4 (P ++ (s, true) :: Q) -> words4 bs') /\
    (no_adj_free (P ++ (s, true) :: Q) -> no_adj_free bs') /\
    (buckets_ok (heap_listp st) (P ++ (s, true) :: Q) (segregatedList st) ->
     buckets_ok (heap_listp st) bs' (segregatedList st')).
Proof.
  intros Hwf Hsz Hnov Hpath ptr. subst ptr. unfold realloc_words in *.
  unfold realloc_path_of in *.
  pose proof Hwf as (Hok & _).
  pose proof (heap_ok_at _ _ _ _ _ _ _ Hok) as (_ & _ & _ & _ & Hs & _ & _ & _ & HP & HQ).
  cbn [fst] in Hs. unfold MIN_BLOCK_SIZE_WORDS in Hs.
  change (@last blockd) with (@last (Z * bool)) in *.
  change (@hd blockd) with (@hd (Z * bool)) in *.
  remember (hd (0, true) Q) as n eqn:En.
  remember (last P (0, true)) as p eqn:Ep.
  destruct n as [sn nu]. destruct p as [sp pu]. cbn [fst snd] in *.
  set (aw := block_words (block_bytes sz)) in *.
  destruct (negb pu && nu && (sp + s >=? aw)) eqn:E1.
  - (* predecessor absorbed *)
    apply andb_split in E1. destruct E1 as [E1 Ege].
    apply andb_split in E1. destruct E1 as [Epu Enu].
    apply negb_true_iff in Epu. subst pu nu. apply Z.geb_le in Ege.
    destruct (last_free_inv P) as (P0 & sp' & HPeq).
    { change (@last blockd) with (@last (Z * bool)). now rewrite <- Ep. }
    assert (sp' = sp) by (rewrite HPeq, last_snoc in Ep; congruence). subst sp'.
    subst P. rewrite <- app_assoc in *. cbn [app] in *.
    apply sizes_ok_app in HP. destruct HP as [HP0 Hsp].
    inversion Hsp as [|? ? Hsp8 _]; subst. cbn [fst] in Hsp8.
    unfold MIN_BLOCK_SIZE_WORDS in Hsp8.
    destruct (realloc_absorb_prev_data st P0 sp s Q sz Hwf ltac:(now rewrite <- En)
                Hsz Hnov Ege) as (st' & Hrun & Hwf' & Henv & Hdata & Hk & Hbk).
    rewrite total_app. cbn [total fst].
    replace (heap_listp st + 4 * (total P0 + (sp + 0)) + 4)
      with (heap_listp st + 4 * total P0 + 4 * sp + 4) by lia.
    exists (heap_listp st + 4 * total P0 + 4), st', (P0 ++ (sp + s, true) :: Q), (sp + s).
    split; [exact Hrun|]. split; [exact Hwf'|]. split; [exact Henv|].
    split.
    { replace (heap_listp st + 4 * total P0 + 4 - 4) with (heap_listp st + 4 * total P0)
        by lia. now apply lookup_mid. }
    split; [lia|]. split; [exact Ege|]. split; [exact Hdata|]. split.
    { replace (heap_listp st + 4 * total P0 + 4 * sp + 4 - 4)
        with (heap_listp st + 4 * total P0 + 4 * sp) by lia. exact Hk. }
    split; [|split].
    + intros H4. apply (words4_absorbed P0 [(sp, false); (s, true)]); [exact H4|].
      cbn [total fst]. lia.
    + apply (no_adj_free_absorbed P0 [(sp, false); (s, true)]).
    + exact Hbk.
  - destruct (negb nu && (sn + s >=? aw)) eqn:E2.
    + (* successor absorbed *)
      apply andb_split in E2. destruct E2 as [Enu Ege].
      apply negb_true_iff in Enu. subst nu. apply Z.geb_le in Ege.
      destruct (hd_free_inv Q) as (sn' & Q' & HQeq).
      { change (@hd blockd) with (@hd (Z * bool)). now rewrite <- En. }
      assert (sn' = sn) by (rewrite HQeq in En; cbn [hd] in En; congruence).
      subst sn'. subst Q.
      inversion HQ as [|? ? Hsn8 _]; subst. cbn [fst] in Hsn8.
      unfold MIN_BLOCK_SIZE_WORDS in Hsn8.
      destruct (realloc_absorb_next_data st P s sn Q' sz Hwf Hsz Hnov Ege)
        as (st' & Hrun & Hwf' & Henv & Hdata & Hk & Hbk).
      exists (heap_listp st + 4 * total P + 4), st', (P ++ (s + sn, true) :: Q'), (s + sn).
      split; [exact Hrun|]. split; [exact Hwf'|]. split; [exact Henv|].
      split.
      { replace (heap_listp st + 4 * total P + 4 - 4) with (heap_listp st + 4 * total P)
          by lia. now apply lookup_mid. }
      split; [lia|]. split; [lia|]. split; [exact Hdata|]. split.
      { replace (heap_listp st + 4 * total P + 4 - 4)
          with (heap_listp st + 4 * total P) by lia. exact Hk. }
      split; [|split].
      * intros H4. apply (words4_absorbed P [(s, true); (sn, false)]); [exact H4|].
        cbn [total fst]. lia.
      * apply (no_adj_free_absorbed P [(s, true); (sn, false)]).
      * exact Hbk.
    + destruct (negb pu && negb nu && (sp + s + sn >=? aw)) eqn:E4;
        [|contradiction].
      (* both neighbours absorbed *)
      apply andb_split in E4. destruct E4 as [E4 Ege].
      apply andb_split in E4. destruct E4 as [Epu Enu].
      apply negb_true_iff in Epu, Enu. subst pu nu. apply Z.geb_le in Ege.
      cbn [negb andb] in E2.
      assert (Hlt : sn + s < aw).
      { revert E2. destruct (Z.geb_spec (sn + s) aw); [discriminate|lia]. }
      destruct (last_free_inv P) as (P0 & sp' & HPeq).
      { change (@last blockd) with (@last (Z * bool)). now rewrite <- Ep. }
      assert (sp' = sp) by (rewrite HPeq, last_snoc in Ep; congruence). subst sp'.
      destruct (hd_free_inv Q) as (sn' & Q' & HQeq).
      { change (@hd blockd) with (@hd (Z * bool)). now rewrite <- En. }
      assert (sn' = sn) by (rewrite HQeq in En; cbn [hd] in En; congruence).
      subst sn'. subst P Q. rewrite <- app_assoc in *. cbn [app] in *.
      apply sizes_ok_app in HP. destruct HP as [HP0 Hsp].
      inversion Hsp as [|? ? Hsp8 _]; subst. cbn [fst] in Hsp8.
      inversion HQ as [|? ? Hsn8 _]; subst. cbn [fst] in Hsn8.
      unfold MIN_BLOCK_SIZE_WORDS in Hsp8, Hsn8.
      destruct (realloc_absorb_both_data st P0 sp s sn Q' sz Hwf Hsz Hnov
                  ltac:(fold aw; lia)) as (st' & Hrun & Hwf' & Henv & Hdata & Hk & Hbk).
      rewrite total_app. cbn [total fst].
      replace (heap_listp st + 4 * (total P0 + (sp + 0)) + 4)
        with (heap_listp st + 4 * total P0 + 4 * sp + 4) by lia.
      exists (heap_listp st + 4 * total P0 + 4), st',
             (P0 ++ (sp + s + sn, true) :: Q'), (sp + s + sn).
      split; [exact Hrun|]. split; [exact Hwf'|]. split; [exact Henv|].
      split.
      { replace (heap_listp st + 4 * total P0 + 4 - 4) with (heap_listp st + 4 * total P0)
          by lia. now apply lookup_mid. }
      split; [lia|]. split; [exact Ege|]. split; [exact Hdata|]. split.
      { replace (heap_listp st + 4 * total P0 + 4 * sp + 4 - 4)
          with (heap_listp st + 4 * total P0 + 4 * sp) by lia. exact Hk. }
      split; [|split].
      * intros H4.
        apply (words4_absorbed P0 [(sp, false); (s, true); (sn, false)]); [exact H4|].
        cbn [total fst]. lia.
      * apply (no_adj_free_absorbed P0 [(sp, false); (s, true); (sn, false)]).
      * exact Hbk.
Qed.

(** ** [mm_realloc] on the payload of an allocated block, all cases *)

Lemma mm_realloc_shape st bs ptr s sz :
  wf_with st bs -> lookup (heap_listp st) bs (ptr - 4) = Some (s, true) ->
  0 <= sz < 2 ^ 64 ->
  exists r st' bs',
    mm_realloc ptr sz st = Some (r, st') /\
    wf_with st' bs' /\ heap_listp st' = heap_listp st /\
    (mem_brk st <= mem_brk st' /\ mem_max_addr st' = mem_max_addr st) /\
    (sz = 0 -> r = NULL /\
               forall s0, lookup (heap_listp st) bs' (ptr - 4) <> Some (s0, true)) /\
    (r = NULL -> sz <> 0 -> st' = st /\ bs' = bs) /\
    (r <> NULL ->
     exists s', lookup (heap_listp st) bs' (r - 4) = Some (s', true) /\
                sz + 8 <= 4 * s' /\
                forall i, 0 <= i < Z.min sz (4 * s - 8) ->
                          load8 (mem st') (r + i) = load8 (mem st) (ptr + i)) /\
    keeps (eq (ptr - 4)) (heap_listp st) (mem st) (mem st') bs bs' /\
    (words4 bs -> words4 bs') /\
    (no_adj_free bs -> no_adj_free bs') /\
    (buckets_ok (heap_listp st) bs (segregatedList st) ->
     buckets_ok (heap_listp st) bs' (segregatedList st')).
Proof.
  intros Hwf Hl Hsz.
  destruct (Z.eq_dec sz 0) as [->|Hnz].
  { rewrite (realloc_zero_is_free st ptr).
    destruct (mm_free_shape st bs ptr s Hwf Hl)
      as (st' & P' & s' & Q' & Hrun & Hwf' & (Hlo & Hhi) & (Eh & Ebk & Emx) & Hk
          & Hbf & _ & A & B & HAB & Es' & HfA & HfB & HlA & HlB & _).
    destruct (freed_tidy P' A s s' B Q' Es' HfA HfB HlA HlB) as [H4f Hnf].
    rewrite Hrun. exists NULL, st', (P' ++ (s', false) :: Q').
    split; [reflexivity|]. split; [assumption|]. split; [assumption|].
    split; [split; [lia|assumption]|].
    split.
    { intros _. split; [reflexivity|].
      pose proof Hwf' as (Hok' & _).
      pose proof (hk_sizes _ _ _ _ _ Hok') as Hs'. apply sizes_ok_app in Hs'.
      pose proof (lookup_range _ _ _ _ (hk_sizes _ _ _ _ _ (proj1 Hwf)) Hl) as Hrg.
      cbn [fst] in Hrg. unfold MIN_BLOCK_SIZE_WORDS in Hrg.
      apply lookup_inside_free; [tauto|lia]. }
    split; [intros _ H; contradiction|]. split; [intros H; contradiction|].
    split; [assumption|]. subst bs. tauto. }
  destruct (Z_lt_dec (block_bytes sz) sz) as [Hov|Hnov].
  { exists NULL, st, bs. split; [now apply (realloc_overflow st bs ptr s sz)|].
    split; [assumption|]. split; [reflexivity|]. split; [split; [lia|reflexivity]|].
    split; [intros; contradiction|].
    split; [tauto|]. split; [intros H; contradiction|].
    split; [apply keeps_refl|tauto]. }
  pose proof (block_words_ok sz Hsz Hnov) as (_ & Hroom & _).
  destruct (lookup_zipper _ _ _ _ Hl) as (P & Q & -> & Eb).
  pose proof Hwf as (Hok & _).
  pose proof (heap_ok_at _ _ _ _ _ _ _ Hok) as (_ & _ & _ & _ & Hs & Hb & _ & _ & HP & _).
  cbn [fst] in Hs. unfold MIN_BLOCK_SIZE_WORDS in Hs. rewrite <- Eb in Hb.
  assert (Eptr : ptr = heap_listp st + 4 * total P + 4) by lia.
  pose proof (realloc_in_place_data st P s Q sz Hwf ltac:(lia) Hnov) as Hin.
  cbv zeta in Hin.
  match type of Hin with
  | context [realloc_path_of ?a ?p ?s0 ?n] =>
      destruct (realloc_path_of a p s0 n) eqn:Epath
  end.
  1-3: destruct (Hin ltac:(discriminate))
         as (r & st' & bs' & s' & Hrun & Hwf' & (Eh & Ebk & Emx) & Hlk' & Hss' & Haw & Hdata
             & Hk & H4 & Hn & Hb');
       rewrite <- Eptr in Hrun, Hdata, Hk;
       destruct (lookup_range (heap_listp st) bs' (r - 4) (s', true)
                   (hk_sizes _ _ _ _ _ (proj1 Hwf')) Hlk') as [Hrg _];
       exists r, st', bs';
       (split; [exact Hrun|]); (split; [exact Hwf'|]); (split; [exact Eh|]);
       (split; [split; [lia|exact Emx]|]);
       (split; [intros; contradiction|]);
       (split; [intros E; unfold NULL in E; lia|]);
       (split; [intros _; exists s';
                split; [exact Hlk'|]; split; [unfold realloc_words in Haw; lia|];
                intros i Hi; apply Hdata; lia|]);
       (split; [exact Hk|]); tauto.
  pose proof (realloc_general st P s Q sz Hwf ltac:(lia) Hnov Epath) as Egen.
  rewrite <- Eptr in Egen.
  destruct (realloc_fallback_shape st _ ptr s sz Hwf Hl Hsz)
    as (r & st' & Hrun & [(_ & -> & ->)|(_ & Hr & _ & st1 & bs' & _ & _ & Hwf' & (s' & Hlk' & Hroom')
                                          & _ & Hdata & Eh & Hk & H4 & Hn & Hb' & Ebk & Emx)]).
  - exists NULL, st, (P ++ (s, true) :: Q).
    split; [now rewrite Egen|].
    split; [assumption|]. split; [reflexivity|]. split; [split; [lia|reflexivity]|].
    split; [intros; contradiction|].
    split; [tauto|]. split; [intros H; contradiction|].
    split; [apply keeps_refl|tauto].
  - exists r, st', bs'.
    split; [now rewrite Egen|].
    split; [assumption|]. split; [assumption|]. split; [split; assumption|].
    split; [intros; contradiction|].
    split; [intros; contradiction|].
    split; [intros _; exists s'; tauto|].
    split; [assumption|tauto].
Qed.

(** ** The invariants kept by the public operations *)

(** Every public operation on valid arguments returns, keeps the heap tidy
    and the first block where it is, and what it returns is null or the
    payload of a block a whole number of 16-byte units from the first. *)
Lemma tidy_step st o :
  tidy st -> valid_op st o ->
  exists r st',
    run_op o st = Some (r, st') /\ tidy st' /\
    heap_listp st' = heap_listp st /\
    (r = 0 \/ (r - 4 - heap_listp st) mod 16 = 0) /\
    mem_brk st <= mem_brk st' /\ mem_max_addr st' = mem_max_addr st.
Proof.
  intros (bs & Hwf & H4 & Hn & Hb) Hv.
  assert (Hmalloc : forall sz, 0 <= sz < 2 ^ 64 ->
            exists r st', mm_malloc sz st = Some (r, st') /\ tidy st' /\
              heap_listp st' = heap_listp st /\
              (r = 0 \/ (r - 4 - heap_listp st) mod 16 = 0) /\
              mem_brk st <= mem_brk st' /\ mem_max_addr st' = mem_max_addr st).
  { intros sz Hsz.
    destruct (mm_malloc_shape st bs sz Hwf Hsz)
      as (r & st' & Hrun & [(-> & -> & _)|(_ & _ & bs' & s' & Hwf' & Hlk & _ & _ & Eh & Emx & _
                                          & _ & Hbrk & H4' & Hn' & Hb' & _)]).
    - exists NULL, st. split; [assumption|]. split; [now exists bs|]. split; [reflexivity|].
      split; [now left|]. split; [lia|reflexivity].
    - exists r, st'. split; [assumption|]. split; [exists bs'; rewrite Eh; tauto|].
      split; [assumption|].
      split; [right; apply (lookup_words4 _ bs' _ (s', true)); tauto|].
      split; [|assumption].
      destruct Hbrk as (r0 & _ & [(_ & _ & E)|(_ & E)]); [lia|].
      rewrite max_spec in E. unfold CHUNKSIZE, WSIZE in *. lia. }
  assert (Hfree : forall ptr s, lookup (heap_listp st) bs (ptr - 4) = Some (s, true) ->
            exists st', mm_free ptr st = Some (tt, st') /\ tidy st' /\
              heap_listp st' = heap_listp st /\
              mem_brk st <= mem_brk st' /\ mem_max_addr st' = mem_max_addr st).
  { intros ptr s Hl.
    destruct (mm_free_shape st bs ptr s Hwf Hl)
      as (st' & P' & s' & Q' & Hrun & Hwf' & _ & (Eh & Ebk & Emx) & _
          & Hbf & _ & A & B & HAB & Es' & HfA & HfB & HlA & HlB & _).
    destruct (freed_tidy P' A s s' B Q' Es' HfA HfB HlA HlB) as [H4f Hnf].
    exists st'. split; [assumption|].
    split; [|split; [assumption|split; [lia|assumption]]].
    exists (P' ++ (s', false) :: Q'). rewrite Eh. subst bs. tauto. }
  pose proof (wf_heap_listp st ltac:(now exists bs)) as Hh.
  destruct o as [sz|ptr|ptr sz]; cbn [run_op valid_op] in *.
  - now apply Hmalloc.
  - destruct Hv as [->|(bs0 & s & Hwf0 & Hl)].
    + exists 0, st. split.
      * run (mm_free NULL) by (now apply mm_free_null). reflexivity.
      * split; [now exists bs|]. split; [reflexivity|]. split; [now left|].
        split; [lia|reflexivity].
    + rewrite (wf_with_unique _ _ _ Hwf0 Hwf) in Hl.
      destruct (Hfree ptr s Hl) as (st' & Hrun & Ht & Eh & Ebk & Emx).
      exists 0, st'. split.
      * run (mm_free ptr) by exact Hrun. reflexivity.
      * split; [assumption|]. split; [assumption|]. split; [now left|].
        split; assumption.
  - destruct Hv as [[->|(bs0 & s & Hwf0 & Hl)] Hsz].
    + rewrite (realloc_null_is_malloc st sz Hh). now apply Hmalloc.
    + rewrite (wf_with_unique _ _ _ Hwf0 Hwf) in Hl.
      destruct (mm_realloc_shape st bs ptr s sz Hwf Hl Hsz)
        as (r & st' & bs' & Hrun & Hwf' & Eh & Henv & _ & _ & Hr & _ & H4' & Hn' & Hb').
      exists r, st'. split; [assumption|]. split; [exists bs'; rewrite Eh; tauto|].
      split; [assumption|]. split; [|exact Henv].
      destruct (Z.eq_dec r NULL) as [->|Hne]; [now left|right].
      destruct (Hr Hne) as (s' & Hlk & _).
      apply (lookup_words4 _ bs' _ (s', true)); tauto.
Qed.

Lemma reachable_from_tidy st0 st :
  reachable_from st0 st ->
  tidy st /\ heap_listp st = mem_brk st0 + 12 /\
  mem_brk st0 + 16 + 4 * CHUNKSIZE <= mem_brk st /\
  mem_max_addr st = mem_max_addr st0.
Proof.
  induction 1 as [Hfresh Hres|st o Hreach (IH & Eh & Ebk & Emx) Hv].
  - destruct (mm_init_shape st0 Hfresh)
      as (r & st' & Hrun & [(Hr & _)|[(Hr & _)|(_ & _ & Hwf & Eh & Ebk & Hb & Emx)]]).
    + unfold result_of in Hres. rewrite Hrun in Hres. congruence.
    + unfold result_of in Hres. rewrite Hrun in Hres. congruence.
    + rewrite (state_after_run _ _ _ _ Hrun).
      split; [|split; [assumption|split; [lia|]]].
      * exists [(CHUNKSIZE, false)]. split; [assumption|].
        split; [repeat constructor |]. split; [cbn; auto | assumption].
      * exact Emx.
  - destruct (tidy_step st o IH Hv) as (r & st' & Hrun & Ht & Eh' & _ & Ebk' & Emx').
    rewrite (state_after_run _ _ _ _ Hrun).
    split; [assumption|]. split; [congruence|]. split; [lia|congruence].
Qed.

Lemma reachable_from_reachable st0 st : reachable_from st0 st -> reachable st.
Proof.
  induction 1; [now apply reach_init | now apply reach_op].
Qed.

Lemma reachable_reachable_from st :
  reachable st -> exists st0, reachable_from st0 st.
Proof.
  induction 1 as [st Hf Hr|st o _ [st0 IH] Hv].
  - exists st. now apply from_init.
  - exists st0. now apply from_op.
Qed.

(** ** Rounding to the alignment *)

(** X1: for a [size_t] value [x], [align x] is a multiple of the alignment.
    When [x + 15] does not wrap, it is the least multiple of the alignment
    that is at least [x], so an aligned size is left as it is; when
    [x + 15] wraps past 2^64, the result is 0. *)
Theorem align_rounds_up x :
  0 <= x < 2 ^ 64 ->
  is_aligned (align x) = true /\
  (x + 15 < 2 ^ 64 ->
   x <= align x < x + ALIGNMENT /\ (is_aligned x = true -> align x = x)) /\
  (2 ^ 64 <= x + 15 -> align x = 0).
Proof.
  intros Hx. rewrite align_eq. unfold is_aligned, ALIGNMENT.
  change (2 ^ 64) with 18446744073709551616 in *.
  split; [|split].
  - rewrite Z.mul_comm, Z_mod_mult. reflexivity.
  - intros Hlt. rewrite size_t_small by (change (2 ^ 64) with 18446744073709551616; lia).
    split.
    + Z.div_mod_to_equations. lia.
    + intros Ha. apply Z.eqb_eq in Ha. Z.div_mod_to_equations. lia.
  - intros Hge. unfold size_t. change (2 ^ 64) with 18446744073709551616.
    replace ((x + 15) mod 18446744073709551616) with (x + 15 - 18446744073709551616)
      by (apply Z.mod_unique with 1; lia).
    rewrite Z.div_small by lia. reflexivity.
Qed.

Lemma align_rounds_up_witness :
  is_aligned (align 100) = true /\
  (100 + 15 < 2 ^ 64 ->
   100 <= align 100 < 100 + ALIGNMENT /\ (is_aligned 100 = true -> align 100 = 100)) /\
  (2 ^ 64 <= 100 + 15 -> align 100 = 0).
Proof. apply (align_rounds_up 100). lia. Defined.

(** ** Boundary tags *)

(** X2: writing the header and footer of a block of [sz] words, with
    [1 <= sz < 2^30], and reading them back: the block has size [sz] and the
    in-use flag written, its footer is the last word of the block and is a
    copy of the header, the next block starts right after the footer, and
    from there [prev_blk] leads back to the block.  Only the header word and
    the footer word are written. *)
Theorem header_footer_round_trip blk sz (u : bool) st :
  1 <= sz < 2 ^ 30 -> 0 <= blk -> blk + 4 * sz < 2 ^ 64 ->
  exists st',
    set_header_and_footer blk sz (Z.b2z u) st = Some (tt, st') /\
    blk_size (mem st') blk = sz /\
    blk_free (mem st') blk = negb u /\
    get_footer (mem st') blk = blk + 4 * sz - 4 /\
    load_tag (mem st') (get_footer (mem st') blk) = load_tag (mem st') blk /\
    next_blk (mem st') blk = blk + 4 * sz /\
    prev_blk (next_blk (mem st') blk) st' = Some (blk, st') /\
    forall x, x < blk \/ blk + 4 <= x < blk + 4 * sz - 4 \/ blk + 4 * sz <= x ->
              mem st' x = mem st x.
Proof.
  intros Hs Hb Hle. eexists. split; [now apply set_header_and_footer_run|].
  proj_state.
  pose proof (write_tags_header (mem st) blk sz u Hs) as Hh.
  pose proof (write_tags_footer (mem st) blk sz u Hs) as Hf.
  rewrite (get_footer_tag _ _ _ _ Hh), (next_blk_tag _ _ _ _ Hh) by lia.
  split; [apply (blk_size_tag _ _ _ _ Hh); lia|].
  split; [apply (blk_free_tag _ _ _ _ Hh)|].
  split; [reflexivity|]. split; [congruence|]. split; [reflexivity|].
  split.
  - rewrite (prev_blk_run (blk + 4 * sz) u sz); proj_state;
      [f_equal; f_equal; lia | | lia ..].
    exact Hf.
  - intros x Hx. apply write_tags_out; lia.
Qed.

Lemma header_footer_round_trip_witness :
  exists st',
    set_header_and_footer 4108 20 (Z.b2z true) arena = Some (tt, st') /\
    blk_size (mem st') 4108 = 20 /\
    blk_free (mem st') 4108 = negb true /\
    get_footer (mem st') 4108 = 4108 + 4 * 20 - 4 /\
    load_tag (mem st') (get_footer (mem st') 4108) = load_tag (mem st') 4108 /\
    next_blk (mem st') 4108 = 4108 + 4 * 20 /\
    prev_blk (next_blk (mem st') 4108) st' = Some (4108, st') /\
    forall x, x < 4108 \/ 4108 + 4 <= x < 4108 + 4 * 20 - 4 \/ 4108 + 4 * 20 <= x ->
              mem st' x = mem arena x.
Proof. apply (header_footer_round_trip 4108 20 true arena); lia. Defined.

(** ** Walking a well-formed heap *)

(** X3: in a well-formed heap, for every block: [blk_size] and [blk_free]
    read its size and its state, [next_blk] is the address right after it,
    which is the next block of the heap or the epilogue fence, and
    [prev_blk] from there leads back to the block without failing. *)
Theorem heap_walk st bs x b :
  wf_with st bs -> lookup (heap_listp st) bs x = Some b ->
  blk_size (mem st) x = fst b /\
  blk_free (mem st) x = negb (snd b) /\
  next_blk (mem st) x = x + 4 * fst b /\
  (next_blk (mem st) x = mem_brk st - 4 \/
   exists b', lookup (heap_listp st) bs (next_blk (mem st) x) = Some b') /\
  prev_blk (next_blk (mem st) x) st = Some (x, st).
Proof.
  intros (Hok & _) Hlk. destruct (lookup_zipper _ _ _ _ Hlk) as (P & Q & -> & Ex).
  pose proof (heap_ok_at _ _ _ _ _ _ _ Hok) as
    (Hh & Hf & _ & _ & Hs & Hb & Hbrk & Hmax & HP & HQ).
  pose proof (hk_brk _ _ _ _ _ Hok) as Ebrk.
  rewrite <- Ex in Hh, Hf, Hb, Hbrk. unfold tag_of in Hh, Hf.
  unfold MIN_BLOCK_SIZE_WORDS in Hs.
  rewrite (next_blk_tag _ _ _ _ Hh) by lia.
  split; [apply (blk_size_tag _ _ _ _ Hh); lia|].
  split; [apply (blk_free_tag _ _ _ _ Hh)|].
  split; [reflexivity|]. split.
  - destruct Q as [|q Q']; [left|right].
    + rewrite Ebrk, total_app. cbn [total]. lia.
    + exists q. change (P ++ b :: q :: Q') with (P ++ [b] ++ q :: Q').
      rewrite app_assoc.
      replace (x + 4 * fst b) with (heap_listp st + 4 * total (P ++ [b]))
        by (rewrite total_app; cbn [total]; lia).
      apply lookup_mid. apply sizes_ok_app. split; [assumption|].
      repeat constructor. unfold MIN_BLOCK_SIZE_WORDS. lia.
  - rewrite (prev_blk_run (x + 4 * fst b) (snd b) (fst b)); try lia.
    + f_equal. f_equal. lia.
    + exact Hf.
Qed.

Lemma heap_walk_witness :
  let st := block_before_free in
  blk_size (mem st) 4108 = fst (20, true) /\
  blk_free (mem st) 4108 = negb (snd (20, true)) /\
  next_blk (mem st) 4108 = 4108 + 4 * fst (20, true) /\
  (next_blk (mem st) 4108 = mem_brk st - 4 \/
   exists b', lookup (heap_listp st) [(20, true); (108, false)]
                (next_blk (mem st) 4108) = Some b') /\
  prev_blk (next_blk (mem st) 4108) st = Some (4108, st).
Proof.
  intros st. apply (heap_walk st [(20, true); (108, false)] 4108 (20, true)).
  - apply check_heap_sound. vm_compute. reflexivity.
  - vm_compute. reflexivity.
Defined.

(** X4: the two ends of a well-formed heap.  [prev_blk] on the first block
    fails its assertion, because the prologue fence before it has size 0;
    the epilogue fence, the last word of the arena, reads as an allocated
    block of size 0, so that [next_blk] maps it to itself. *)
Theorem heap_ends st bs :
  wf_with st bs ->
  prev_blk (heap_listp st) st = None /\
  blk_size (mem st) (mem_brk st - 4) = 0 /\
  blk_free (mem st) (mem_brk st - 4) = false /\
  next_blk (mem st) (mem_brk st - 4) = mem_brk st - 4.
Proof.
  intros (Hok & _).
  pose proof (heap_ok_total _ _ _ _ _ Hok) as [Ht0 Ht1].
  destruct Hok as [Hbase Hsz Hpro Hblk Hepi Hbrk Hmax Hcap Htop].
  replace (mem_brk st - 4) with (heap_listp st + 4 * total bs) by lia.
  split; [|split; [|split]].
  - unfold prev_blk, bind, rd, assert, prev_blk_footer, WSIZE.
    rewrite ptr_sub_small by lia. rewrite Hpro. reflexivity.
  - apply (blk_size_tag _ _ _ _ Hepi). lia.
  - apply (blk_free_tag _ _ _ _ Hepi).
  - rewrite (next_blk_tag _ _ _ _ Hepi) by lia. lia.
Qed.

Lemma heap_ends_witness :
  let st := block_before_free in
  prev_blk (heap_listp st) st = None /\
  blk_size (mem st) (mem_brk st - 4) = 0 /\
  blk_free (mem st) (mem_brk st - 4) = false /\
  next_blk (mem st) (mem_brk st - 4) = mem_brk st - 4.
Proof.
  intros st. apply (heap_ends st [(20, true); (108, false)]).
  apply check_heap_sound. vm_compute. reflexivity.
Defined.

(** ** [mm_init] *)

(** X5: [mm_init] on a fresh memlib arena always returns, in one of three
    ways.  With less than 16 bytes of room it returns -1 and changes
    nothing.  With room for the fences but not for the first chunk it
    returns -1 too, but leaves the fences in place: a well-formed heap
    without any block.  Otherwise it returns 0 and the heap is one free
    block of [CHUNKSIZE] words, whose first block is 12 bytes above the
    start of the arena. *)
Theorem mm_init_outcomes st :
  fresh st ->
  exists r st', mm_init st = Some (r, st') /\
    ((r = -1 /\ st' = st /\ mem_max_addr st < mem_brk st + 16) \/
     (r = -1 /\ mem_brk st + 16 <= mem_max_addr st < mem_brk st + 16 + 4 * CHUNKSIZE /\
      wf_with st' [] /\ heap_listp st' = mem_brk st + 12 /\
      mem_brk st' = mem_brk st + 16) \/
     (r = 0 /\ mem_brk st + 16 + 4 * CHUNKSIZE <= mem_max_addr st /\
      wf_with st' [(CHUNKSIZE, false)] /\ heap_listp st' = mem_brk st + 12 /\
      mem_brk st' = mem_brk st + 16 + 4 * CHUNKSIZE)).
Proof.
  intros Hf. destruct (mm_init_shape st Hf) as (r & st' & Hrun & H).
  exists r, st'. split; [assumption|].
  destruct H as [H|[H|(H1 & H2 & H3 & H4 & H5 & _)]]; [now left | right; now left |].
  right. right. tauto.
Qed.

Lemma mm_init_outcomes_witness :
  let st := arena in
  exists r st', mm_init st = Some (r, st') /\
    ((r = -1 /\ st' = st /\ mem_max_addr st < mem_brk st + 16) \/
     (r = -1 /\ mem_brk st + 16 <= mem_max_addr st < mem_brk st + 16 + 4 * CHUNKSIZE /\
      wf_with st' [] /\ heap_listp st' = mem_brk st + 12 /\
      mem_brk st' = mem_brk st + 16) \/
     (r = 0 /\ mem_brk st + 16 + 4 * CHUNKSIZE <= mem_max_addr st /\
      wf_with st' [(CHUNKSIZE, false)] /\ heap_listp st' = mem_brk st + 12 /\
      mem_brk st' = mem_brk st + 16 + 4 * CHUNKSIZE)).
Proof. intros st. apply (mm_init_outcomes st). exact fresh_arena. Defined.

(** ** [mm_malloc] *)

Lemma lookup_disjoint h bs x y bx b_y :
  sizes_ok bs ->
  lookup h bs x = Some bx -> lookup h bs y = Some b_y -> x < y ->
  x + 4 * fst bx <= y.
Proof.
  intros Hs Hx Hy Hlt. destruct (lookup_zipper _ _ _ _ Hx) as (P & Q & -> & Ex).
  apply sizes_ok_app in Hs. destruct Hs as [HP HQ].
  inversion HQ as [|? ? _ HQ']; subst.
  rewrite lookup_app in Hy by assumption.
  destruct (Z.ltb_spec y (h + 4 * total P)); [lia|].
  cbn [lookup] in Hy.
  destruct (Z.ltb_spec y (h + 4 * total P)); [lia|].
  destruct (Z.eqb_spec y (h + 4 * total P)); [lia|].
  apply lookup_range in Hy; [lia | assumption].
Qed.

Lemma wf_block_tag st bs x b :
  wf_with st bs -> lookup (heap_listp st) bs x = Some b ->
  load_tag (mem st) x = tag_of b /\ MIN_BLOCK_SIZE_WORDS <= fst b < 2 ^ 30 /\
  16 <= x /\ x + 4 * fst b + 4 <= mem_brk st /\ mem_brk st < 2 ^ 64.
Proof.
  intros (Hok & _) Hlk. destruct (lookup_zipper _ _ _ _ Hlk) as (P & Q & -> & Ex).
  pose proof (heap_ok_at _ _ _ _ _ _ _ Hok) as
    (Hh & _ & _ & _ & Hs & Hb & Hbrk & Hmax & _).
  rewrite <- Ex in Hh, Hb, Hbrk. repeat split; (assumption || lia).
Qed.

(** X6: [mm_malloc] on a well-formed heap always returns.  A null result
    leaves the state unchanged.  Otherwise the result is the payload of an
    allocated block with room for the request, the heap is well formed, and
    every block that was allocated before is still allocated with the same
    size, does not overlap the new block, and has its payload unchanged. *)
Theorem mm_malloc_keeps_others st bs sz :
  wf_with st bs -> 0 <= sz < 2 ^ 64 ->
  exists r st', mm_malloc sz st = Some (r, st') /\
    (r = NULL -> st' = st) /\
    (r <> NULL ->
     exists bs' s',
       wf_with st' bs' /\
       lookup (heap_listp st') bs' (r - 4) = Some (s', true) /\
       sz <= 4 * s' - 8 /\
       forall x s, lookup (heap_listp st) bs x = Some (s, true) ->
         lookup (heap_listp st') bs' x = Some (s, true) /\
         (x + 4 * s <= r - 4 \/ r - 4 + 4 * s' <= x) /\
         forall y, x + 4 <= y < x + 4 * s - 4 -> mem st' y = mem st y).
Proof.
  intros Hwf Hsz.
  destruct (mm_malloc_shape st bs sz Hwf Hsz)
    as (r & st' & Hrun & [(Hr & Est & _)|(Hr & _ & bs' & s' & Hwf' & Hlk & Hroom & Hfresh
                                          & Eh & _ & Hk & _)]).
  - exists r, st'. split; [assumption|]. split; [tauto|]. intros H. contradiction.
  - exists r, st'. split; [assumption|]. split; [intros H; contradiction|].
    intros _. exists bs', s'. rewrite Eh.
    split; [assumption|]. split; [assumption|]. split; [lia|].
    intros x s Hx. destruct (Hk x s Hx ltac:(tauto)) as [Hx' Hbytes].
    split; [assumption|]. split; [|assumption].
    pose proof (hk_sizes _ _ _ _ _ (proj1 Hwf')) as Hs'.
    destruct (Z.lt_trichotomy x (r - 4)) as [Hlt|[Heq|Hgt]].
    + left. apply (lookup_disjoint _ _ _ _ _ _ Hs' Hx' Hlk Hlt).
    + subst x. exfalso. exact (Hfresh s Hx).
    + right. apply (lookup_disjoint _ _ _ _ _ _ Hs' Hlk Hx' Hgt).
Qed.

Lemma mm_malloc_keeps_others_witness :
  let st := block_before_free in
  let bs := [(20, true); (108, false)] in
  exists r st', mm_malloc 100 st = Some (r, st') /\
    (r = NULL -> st' = st) /\
    (r <> NULL ->
     exists bs' s',
       wf_with st' bs' /\
       lookup (heap_listp st') bs' (r - 4) = Some (s', true) /\
       100 <= 4 * s' - 8 /\
       forall x s, lookup (heap_listp st) bs x = Some (s, true) ->
         lookup (heap_listp st') bs' x = Some (s, true) /\
         (x + 4 * s <= r - 4 \/ r - 4 + 4 * s' <= x) /\
         forall y, x + 4 <= y < x + 4 * s - 4 -> mem st' y = mem st y).
Proof.
  intros st bs. apply (mm_malloc_keeps_others st bs 100).
  - apply check_heap_sound. vm_compute. reflexivity.
  - lia.
Defined.

(** X7: how [mm_malloc] finds its block.  For a non-zero request whose size
    computation does not overflow, on a well-formed heap: when [find_fit]
    finds a block for the adjusted size, the result is the payload of that
    very block and the arena does not grow; when it finds none, the arena
    grows by exactly max(adjusted size, CHUNKSIZE) words, or the call
    returns null and changes nothing.  The block allocated has the adjusted
    size or up to seven words more, never a minimum block more. *)
Theorem mm_malloc_fit_or_grow st bs sz :
  wf_with st bs -> 0 < sz < 2 ^ 64 ->
  ~ block_bytes (malloc_size sz) < malloc_size sz ->
  exists r st' r0,
    mm_malloc sz st = Some (r, st') /\
    find_fit (malloc_words sz) st = Some (r0, st) /\
    (r0 <> NULL -> r = payload r0 /\ mem_brk st' = mem_brk st) /\
    (r0 = NULL ->
     (r = NULL /\ st' = st) \/
     (r <> NULL /\
      mem_brk st' = mem_brk st + WSIZE * max (malloc_words sz) CHUNKSIZE)) /\
    (r <> NULL ->
     blk_free (mem st') (block_of r) = false /\
     malloc_words sz <= blk_size (mem st') (block_of r)
       < malloc_words sz + MIN_BLOCK_SIZE_WORDS).
Proof.
  intros Hwf Hsz Hnov.
  destruct (mm_malloc_shape st bs sz Hwf ltac:(lia))
    as (r & st' & Hrun & [(Hr & Est & Hfail)|(Hr & _ & bs' & s' & Hwf' & Hlk & _ & _
                                             & Eh & _ & _ & Hs' & (r0 & Hfind & Hcase) & _)]).
  - destruct Hfail as [H0|[H0|(Hfind & _)]]; [lia|contradiction|].
    exists r, st', NULL. split; [assumption|]. split; [exact Hfind|].
    split; [intros H; contradiction|]. split; [now left|]. intros H. contradiction.
  - rewrite <- Eh in Hlk.
    destruct (wf_block_tag st' bs' _ _ Hwf' Hlk) as (Hh & Hsz' & Hb & Hbrk & Htop).
    unfold tag_of in Hh. cbn [fst snd] in Hh, Hsz', Hbrk.
    unfold MIN_BLOCK_SIZE_WORDS in Hsz'.
    exists r, st', r0. split; [assumption|]. split; [assumption|].
    split; [|split].
    + intros Hne. destruct Hcase as [(_ & -> & Eb)|(E & _)]; [|contradiction].
      split; [|assumption]. rewrite payload_small by lia. reflexivity.
    + intros E. right. split; [assumption|].
      destruct Hcase as [(Hne & _)|(_ & Eb)]; [contradiction|exact Eb].
    + intros _. rewrite block_of_small by lia.
      split; [apply (blk_free_tag _ _ _ _ Hh)|].
      rewrite (blk_size_tag _ _ _ _ Hh) by lia. exact Hs'.
Qed.

Lemma mm_malloc_fit_or_grow_witness :
  let st := block_before_free in
  exists r st' r0,
    mm_malloc 100 st = Some (r, st') /\
    find_fit (malloc_words 100) st = Some (r0, st) /\
    (r0 <> NULL -> r = payload r0 /\ mem_brk st' = mem_brk st) /\
    (r0 = NULL ->
     (r = NULL /\ st' = st) \/
     (r <> NULL /\
      mem_brk st' = mem_brk st + WSIZE * max (malloc_words 100) CHUNKSIZE)) /\
    (r <> NULL ->
     blk_free (mem st') (block_of r) = false /\
     malloc_words 100 <= blk_size (mem st') (block_of r)
       < malloc_words 100 + MIN_BLOCK_SIZE_WORDS).
Proof.
  intros st. apply (mm_malloc_fit_or_grow st [(20, true); (108, false)] 100).
  - apply check_heap_sound. vm_compute. reflexivity.
  - lia.
  - vm_compute. discriminate.
Defined.

(** ** Alignment and coalescing, in every reachable state *)

(** X8: when the memlib arena starts at an aligned address, every pointer
    that [mm_malloc] or [mm_realloc] returns, in any state reached from
    [mm_init] by public operations on valid arguments, is aligned (null
    included). *)
Theorem returned_pointers_aligned st0 st :
  reachable_from st0 st -> is_aligned (mem_brk st0) = true ->
  (forall sz r st', 0 <= sz < 2 ^ 64 ->
     mm_malloc sz st = Some (r, st') -> is_aligned r = true) /\
  (forall ptr sz r st', valid_ptr st ptr -> 0 <= sz < 2 ^ 64 ->
     mm_realloc ptr sz st = Some (r, st') -> is_aligned r = true).
Proof.
  intros Hreach Hal. destruct (reachable_from_tidy _ _ Hreach) as (Ht & Eh & _).
  unfold is_aligned, ALIGNMENT in *. apply Z.eqb_eq in Hal.
  assert (Hres : forall r, r = 0 \/ (r - 4 - heap_listp st) mod 16 = 0 ->
                           (r mod 16 =? 0) = true).
  { intros r Hr. apply Z.eqb_eq. destruct Hr as [->|Hr]; [reflexivity|].
    rewrite Eh in Hr. revert Hal Hr. generalize (mem_brk st0). intros a Ha Hr.
    Z.div_mod_to_equations. lia. }
  split.
  - intros sz r st' Hsz Hrun.
    destruct (tidy_step st (Malloc sz) Ht Hsz) as (r1 & st1 & Hrun1 & _ & _ & Hr & _).
    cbn [run_op] in Hrun1. rewrite Hrun in Hrun1. injection Hrun1 as -> _.
    now apply Hres.
  - intros ptr sz r st' Hp Hsz Hrun.
    destruct (tidy_step st (Realloc ptr sz) Ht (conj Hp Hsz))
      as (r1 & st1 & Hrun1 & _ & _ & Hr & _).
    cbn [run_op] in Hrun1. rewrite Hrun in Hrun1. injection Hrun1 as -> _.
    now apply Hres.
Qed.

Lemma returned_pointers_aligned_witness :
  let st := state_after mm_init arena in
  (forall sz r st', 0 <= sz < 2 ^ 64 ->
     mm_malloc sz st = Some (r, st') -> is_aligned r = true) /\
  (forall ptr sz r st', valid_ptr st ptr -> 0 <= sz < 2 ^ 64 ->
     mm_realloc ptr sz st = Some (r, st') -> is_aligned r = true).
Proof.
  intros st. apply (returned_pointers_aligned arena st).
  - apply from_init; [exact fresh_arena | vm_compute; reflexivity].
  - reflexivity.
Defined.

(** X9: in every state reached from [mm_init] by public operations on valid
    arguments, the size in bytes of every block of the heap, allocated or
    free, is a multiple of the alignment. *)
Theorem block_sizes_aligned st :
  reachable st ->
  exists bs, wf_with st bs /\
    forall x b, lookup (heap_listp st) bs x = Some b ->
                is_aligned (WSIZE * blk_size (mem st) x) = true.
Proof.
  intros Hreach. destruct (reachable_reachable_from _ Hreach) as [st0 Hfrom].
  destruct (reachable_from_tidy _ _ Hfrom) as ((bs & Hwf & H4 & _) & _).
  exists bs. split; [assumption|]. intros x b Hlk.
  destruct (wf_block_tag st bs x b Hwf Hlk) as (Hh & Hs & _).
  unfold tag_of in Hh. unfold MIN_BLOCK_SIZE_WORDS in Hs.
  rewrite (blk_size_tag _ _ _ _ Hh) by lia.
  destruct (lookup_zipper _ _ _ _ Hlk) as (P & Q & -> & _).
  apply words4_app in H4. destruct H4 as [_ H4]. inversion H4 as [|? ? Hb _]; subst.
  unfold is_aligned, ALIGNMENT, WSIZE. apply Z.eqb_eq.
  revert Hb. generalize (fst b). intros z Hz. Z.div_mod_to_equations. lia.
Qed.

Lemma block_sizes_aligned_witness :
  let st := state_after mm_init arena in
  exists bs, wf_with st bs /\
    forall x b, lookup (heap_listp st) bs x = Some b ->
                is_aligned (WSIZE * blk_size (mem st) x) = true.
Proof.
  intros st. apply (block_sizes_aligned st).
  apply (reach_init arena); [exact fresh_arena | vm_compute; reflexivity].
Defined.

(** X10: in every state reached from [mm_init] by public operations on
    valid arguments, no two free blocks are adjacent: for every free block
    of the heap, the tag before it and the tag after it are marked in use
    (each is an allocated block or a fence). *)
Theorem free_blocks_never_adjacent st :
  reachable st ->
  exists bs, wf_with st bs /\
    forall x b, lookup (heap_listp st) bs x = Some b ->
      blk_free (mem st) x = true ->
      inuse (load_tag (mem st) (prev_blk_footer x)) = true /\
      blk_free (mem st) (next_blk (mem st) x) = false.
Proof.
  intros Hreach. destruct (reachable_reachable_from _ Hreach) as [st0 Hfrom].
  destruct (reachable_from_tidy _ _ Hfrom) as ((bs & Hwf & _ & Hn & _) & _).
  exists bs. split; [assumption|]. intros x b Hlk Hfree.
  destruct (lookup_zipper _ _ _ _ Hlk) as (P & Q & -> & Ex).
  pose proof Hwf as (Hok & _).
  pose proof (heap_ok_at _ _ _ _ _ _ _ Hok) as
    (Hh & _ & Hprev & Hnext & Hs & Hb & Hbrk & Hmax & _).
  rewrite <- Ex in Hh, Hprev, Hnext, Hb, Hbrk. unfold tag_of in Hh, Hprev, Hnext.
  unfold MIN_BLOCK_SIZE_WORDS in Hs.
  rewrite (blk_free_tag _ _ _ _ Hh) in Hfree. apply negb_true_iff in Hfree.
  apply no_adj_free_app in Hn. cbn [no_adj_free hd] in Hn.
  destruct Hn as (_ & ([Hu|Hq] & _) & [Hp|Hu']); try congruence.
  unfold prev_blk_footer, WSIZE. rewrite ptr_sub_small by lia.
  rewrite (next_blk_tag _ _ _ _ Hh) by lia.
  rewrite Hprev, (blk_free_tag _ _ _ _ Hnext). cbn [inuse].
  change (@last blockd) with (@last (Z * bool)) in *.
  change (@hd blockd) with (@hd (Z * bool)) in *.
  rewrite Hp, Hq. split; reflexivity.
Qed.

Lemma free_blocks_never_adjacent_witness :
  let st := state_after mm_init arena in
  exists bs, wf_with st bs /\
    forall x b, lookup (heap_listp st) bs x = Some b ->
      blk_free (mem st) x = true ->
      inuse (load_tag (mem st) (prev_blk_footer x)) = true /\
      blk_free (mem st) (next_blk (mem st) x) = false.
Proof.
  intros st. apply (free_blocks_never_adjacent st).
  apply (reach_init arena); [exact fresh_arena | vm_compute; reflexivity].
Defined.

(** ** [mm_free] *)

(** X11: [mm_free] on the payload of an allocated block, in a well-formed
    heap, always returns.  The heap is well formed again; in place of the
    block and of those of its two immediate neighbours that were free
    ([A] before it and [B] after it, at most one block each) there is one
    free block, of the sum of their sizes.  The arena bounds are unchanged
    and every other allocated block is kept with its payload. *)
Theorem mm_free_merges_neighbours st bs ptr s :
  wf_with st bs -> lookup (heap_listp st) bs (ptr - 4) = Some (s, true) ->
  exists st' P' A B Q',
    mm_free ptr st = Some (tt, st') /\
    bs = (P' ++ A) ++ (s, true) :: B ++ Q' /\
    all_free A /\ all_free B /\ (length A <= 1)%nat /\ (length B <= 1)%nat /\
    (A = [] -> snd (last P' (0, true)) = true) /\
    (B = [] -> snd (hd (0, true) Q') = true) /\
    wf_with st' (P' ++ (total A + s + total B, false) :: Q') /\
    same_env st st' /\
    keeps (eq (ptr - 4)) (heap_listp st) (mem st) (mem st')
          bs (P' ++ (total A + s + total B, false) :: Q').
Proof.
  intros Hwf Hlk.
  destruct (mm_free_shape st bs ptr s Hwf Hlk)
    as (st' & P' & s' & Q' & Hrun & Hwf' & _ & Henv & Hk
        & _ & _ & A & B & HAB & -> & HfA & HfB & HlA & HlB & HnA & HnB & _).
  exists st', P', A, B, Q'.
  split; [assumption|]. split; [assumption|]. split; [assumption|].
  split; [assumption|]. split; [assumption|]. split; [assumption|].
  split; [intros ->; rewrite app_nil_r in HlA; now apply HlA|].
  split; [intros ->; now apply HlB|].
  split; [assumption|]. split; assumption.
Qed.

Lemma mm_free_merges_neighbours_witness :
  let st := block_before_free in
  let bs := [(20, true); (108, false)] in
  exists st' P' A B Q',
    mm_free 4112 st = Some (tt, st') /\
    bs = (P' ++ A) ++ (20, true) :: B ++ Q' /\
    all_free A /\ all_free B /\ (length A <= 1)%nat /\ (length B <= 1)%nat /\
    (A = [] -> snd (last P' (0, true)) = true) /\
    (B = [] -> snd (hd (0, true) Q') = true) /\
    wf_with st' (P' ++ (total A + 20 + total B, false) :: Q') /\
    same_env st st' /\
    keeps (eq (4112 - 4)) (heap_listp st) (mem st) (mem st')
          bs (P' ++ (total A + 20 + total B, false) :: Q').
Proof.
  intros st bs. apply (mm_free_merges_neighbours st bs 4112 20).
  - apply check_heap_sound. vm_compute. reflexivity.
  - vm_compute. reflexivity.
Defined.

(** ** [mm_realloc] *)

(** X12: [mm_realloc] on the payload of an allocated block of a well-formed
    heap always returns, whatever the case it takes, and leaves a
    well-formed heap.  A non-null result is the payload of an allocated
    block with room for the new size, whose first min(new size, old payload
    size) bytes are those of the old payload.  For size 0 the result is
    null and the block is no longer allocated.  Every other allocated block
    is kept with its payload. *)
Theorem mm_realloc_moves_contents st bs ptr s sz :
  wf_with st bs -> lookup (heap_listp st) bs (ptr - 4) = Some (s, true) ->
  0 <= sz < 2 ^ 64 ->
  exists r st' bs',
    mm_realloc ptr sz st = Some (r, st') /\
    wf_with st' bs' /\ heap_listp st' = heap_listp st /\
    (r <> NULL ->
     exists s', lookup (heap_listp st) bs' (r - 4) = Some (s', true) /\
                sz <= 4 * s' - 8 /\
                forall i, 0 <= i < Z.min sz (4 * s - 8) ->
                          load8 (mem st') (r + i) = load8 (mem st) (ptr + i)) /\
    (sz = 0 -> r = NULL /\
               forall s0, lookup (heap_listp st) bs' (ptr - 4) <> Some (s0, true)) /\
    keeps (eq (ptr - 4)) (heap_listp st) (mem st) (mem st') bs bs'.
Proof.
  intros Hwf Hl Hsz.
  destruct (mm_realloc_shape st bs ptr s sz Hwf Hl Hsz)
    as (r & st' & bs' & Hrun & Hwf' & Eh & _ & H0 & _ & Hr & Hk & _).
  exists r, st', bs'. split; [assumption|]. split; [assumption|]. split; [assumption|].
  split; [|split; assumption].
  intros Hne. destruct (Hr Hne) as (s' & Hlk & Hroom & Hdata).
  exists s'. split; [assumption|]. split; [lia|assumption].
Qed.

Lemma mm_realloc_moves_contents_witness :
  let st := block_before_free in
  let bs := [(20, true); (108, false)] in
  exists r st' bs',
    mm_realloc 4112 200 st = Some (r, st') /\
    wf_with st' bs' /\ heap_listp st' = heap_listp st /\
    (r <> NULL ->
     exists s', lookup (heap_listp st) bs' (r - 4) = Some (s', true) /\
                200 <= 4 * s' - 8 /\
                forall i, 0 <= i < Z.min 200 (4 * 20 - 8) ->
                          load8 (mem st') (r + i) = load8 (mem st) (4112 + i)) /\
    (200 = 0 -> r = NULL /\
               forall s0, lookup (heap_listp st) bs' (4112 - 4) <> Some (s0, true)) /\
    keeps (eq (4112 - 4)) (heap_listp st) (mem st) (mem st') bs bs'.
Proof.
  intros st bs. apply (mm_realloc_moves_contents st bs 4112 20 200).
  - apply check_heap_sound. vm_compute. reflexivity.
  - vm_compute. reflexivity.
  - lia.
Defined.

(** X13: a failed resize is harmless.  For a non-zero size, on the payload
    of an allocated block of a well-formed heap: when the size computation
    overflows, [mm_realloc] returns null; and whenever it returns null, the
    allocator state, hence the block and its contents, is exactly what it
    was. *)
Theorem mm_realloc_failure_keeps_block st bs ptr s sz :
  wf_with st bs -> lookup (heap_listp st) bs (ptr - 4) = Some (s, true) ->
  0 < sz < 2 ^ 64 ->
  (block_bytes sz < sz -> mm_realloc ptr sz st = Some (NULL, st)) /\
  (forall st', mm_realloc ptr sz st = Some (NULL, st') -> st' = st).
Proof.
  intros Hwf Hl Hsz. split.
  - intros Hov. apply (realloc_overflow st bs ptr s sz); (assumption || lia).
  - intros st' Hrun.
    destruct (mm_realloc_shape st bs ptr s sz Hwf Hl ltac:(lia))
      as (r & st1 & bs' & Hrun1 & _ & _ & _ & _ & Hnull & _).
    rewrite Hrun in Hrun1. injection Hrun1 as <- <-.
    apply Hnull; [reflexivity|lia].
Qed.

Lemma mm_realloc_failure_keeps_block_witness :
  let st := block_before_free in
  let sz := 2 ^ 64 - 1 in
  (block_bytes sz < sz -> mm_realloc 4112 sz st = Some (NULL, st)) /\
  (forall st', mm_realloc 4112 sz st = Some (NULL, st') -> st' = st).
Proof.
  intros st sz.
  apply (mm_realloc_failure_keeps_block st [(20, true); (108, false)] 4112 20 sz).
  - apply check_heap_sound. vm_compute. reflexivity.
  - vm_compute. reflexivity.
  - unfold sz. lia.
Defined.

(** X14: [mm_realloc] never resizes in place a block whose two neighbours
    are in use (allocated blocks or fences): whatever the new size, even a
    smaller one, the call returns null and changes nothing, or returns
    another payload after which the old block is no longer allocated. *)
Theorem mm_realloc_between_used_moves st P s Q sz :
  wf_with st (P ++ (s, true) :: Q) ->
  snd (last P (0, true)) = true -> snd (hd (0, true) Q) = true ->
  0 < sz < 2 ^ 64 ->
  let ptr := heap_listp st + 4 * total P + 4 in
  exists r st',
    mm_realloc ptr sz st = Some (r, st') /\ r <> ptr /\
    (r = NULL -> st' = st) /\
    (r <> NULL ->
     exists bs', wf_with st' bs' /\
       forall s0, lookup (heap_listp st) bs' (ptr - 4) <> Some (s0, true)).
Proof.
  intros Hwf Hpu Hnu Hsz ptr.
  pose proof Hwf as (Hok & _).
  pose proof (heap_ok_at _ _ _ _ _ _ _ Hok) as (_ & _ & _ & _ & _ & Hb & _ & _ & HP & _).
  assert (Hlk : lookup (heap_listp st) (P ++ (s, true) :: Q) (ptr - 4) = Some (s, true)).
  { unfold ptr. replace (heap_listp st + 4 * total P + 4 - 4)
      with (heap_listp st + 4 * total P) by lia. now apply lookup_mid. }
  destruct (Z_lt_dec (block_bytes sz) sz) as [Hov|Hnov].
  { exists NULL, st.
    split; [apply (realloc_overflow st _ ptr s sz Hwf Hlk); (assumption || lia)|].
    split; [unfold NULL, ptr; lia|]. split; [reflexivity|]. intros H. contradiction. }
  assert (Hpath : realloc_path_of (realloc_words sz) (last P (0, true)) s (hd (0, true) Q)
                  = General).
  { unfold realloc_path_of.
    change (@last blockd) with (@last (Z * bool)) in *.
    change (@hd blockd) with (@hd (Z * bool)) in *.
    rewrite Hpu, Hnu. reflexivity. }
  destruct (realloc_general_spec st P s Q sz Hwf Hsz Hnov Hpath)
    as (r & st' & Hrun & [(_ & -> & ->)|(_ & Hr & Hne & st1 & bs' & _ & _ & Hwf' & _ & Hgone & _)]).
  - exists NULL, st. split; [assumption|].
    split; [unfold NULL, ptr; lia|]. split; [reflexivity|]. intros H. contradiction.
  - exists r, st'. split; [assumption|]. split; [assumption|].
    split; [intros H; contradiction|]. intros _. exists bs'. split; assumption.
Qed.

Lemma mm_realloc_between_used_moves_witness :
  let st := block_at_edge in
  let ptr := heap_listp st + 4 * total [] + 4 in
  exists r st',
    mm_realloc ptr 8 st = Some (r, st') /\ r <> ptr /\
    (r = NULL -> st' = st) /\
    (r <> NULL ->
     exists bs', wf_with st' bs' /\
       forall s0, lookup (heap_listp st) bs' (ptr - 4) <> Some (s0, true)).
Proof.
  intros st. apply (mm_realloc_between_used_moves st [] 128 [] 8).
  - apply check_heap_sound. vm_compute. reflexivity.
  - reflexivity.
  - reflexivity.
  - lia.
Defined.

(** ** [find_fit] and [extend_heap] *)

(** X15: [find_fit] fails its assertion on a size that is not positive.  On
    a well-formed heap and a positive size it returns without changing the
    state, and what it returns, if not null, is a block of the heap that is
    on a free list, is free, and holds at least the words asked for. *)
Theorem find_fit_returns_free_fit st bs asize :
  wf_with st bs ->
  (asize <= 0 -> find_fit asize st = None) /\
  (0 < asize ->
   exists r, find_fit asize st = Some (r, st) /\
     (r = NULL \/
      (exists c, lookup (heap_listp st) bs r = Some (c, false)) /\
      In r (concat (segregatedList st)) /\
      blk_free (mem st) r = true /\ asize <= blk_size (mem st) r)).
Proof.
  intros Hwf. split.
  - intros Hle. unfold find_fit, bind, assert.
    destruct (Z.gtb_spec asize 0); [lia|reflexivity].
  - intros Hpos. destruct (find_fit_spec st bs asize Hwf Hpos) as (r & Hrun & Hr).
    exists r. split; [assumption|].
    destruct Hr as [->|(P & c & Q & -> & Er & Hc)]; [now left|right].
    pose proof Hwf as (Hok & Hl & _).
    pose proof (heap_ok_at _ _ _ _ _ _ _ Hok) as (Hh & _ & _ & _ & Hs & _ & _ & _ & HP & _).
    rewrite <- Er in Hh. unfold tag_of in Hh. cbn [fst snd] in Hh, Hs.
    unfold MIN_BLOCK_SIZE_WORDS in Hs.
    assert (Hlk : lookup (heap_listp st) (P ++ (c, false) :: Q) r = Some (c, false)).
    { rewrite Er. now apply lookup_mid. }
    split; [now exists c|]. split; [apply Hl; now exists c|].
    split; [apply (blk_free_tag _ _ _ _ Hh)|].
    rewrite (blk_size_tag _ _ _ _ Hh) by lia. assumption.
Qed.

Lemma find_fit_returns_free_fit_witness :
  let st := block_before_free in
  let bs := [(20, true); (108, false)] in
  (50 <= 0 -> find_fit 50 st = None) /\
  (0 < 50 ->
   exists r, find_fit 50 st = Some (r, st) /\
     (r = NULL \/
      (exists c, lookup (heap_listp st) bs r = Some (c, false)) /\
      In r (concat (segregatedList st)) /\
      blk_free (mem st) r = true /\ 50 <= blk_size (mem st) r)).
Proof.
  intros st bs. apply (find_fit_returns_free_fit st bs 50).
  apply check_heap_sound. vm_compute. reflexivity.
Defined.

(** X16: [extend_heap] on a well-formed heap, for at least a minimum block
    of words.  When memlib has no room for them the call returns null and
    changes nothing.  Otherwise the arena grows by exactly the bytes asked
    for, and the block returned is free and is the new words merged with
    the last block of the heap when that one was free ([A], at most one
    block); the heap is well formed and every allocated block is kept with
    its payload. *)
Theorem extend_heap_outcomes st bs words :
  wf_with st bs -> MIN_BLOCK_SIZE_WORDS <= words -> 4 * words < 2 ^ 64 ->
  (mem_max_addr st < mem_brk st + 4 * words /\
   extend_heap words st = Some (NULL, st)) \/
  (mem_brk st + 4 * words <= mem_max_addr st /\
   exists r st' P' A,
     extend_heap words st = Some (r, st') /\
     bs = P' ++ A /\ all_free A /\ (length A <= 1)%nat /\
     (A = [] -> snd (last bs (0, true)) = true) /\
     r = heap_listp st + 4 * total P' /\
     wf_with st' (P' ++ [(total A + words, false)]) /\
     mem_brk st' = mem_brk st + 4 * words /\
     heap_listp st' = heap_listp st /\ mem_max_addr st' = mem_max_addr st /\
     keeps nowhere (heap_listp st) (mem st) (mem st')
           bs (P' ++ [(total A + words, false)])).
Proof.
  intros Hwf Hw Hw64.
  destruct (extend_heap_shape st bs words Hwf Hw Hw64)
    as [?|(Hroom & r & st' & P' & s' & Q' & Hrun & Hwf' & Hr & _ & Eh & Em & Hk & _ & Eb
           & A & HA & -> & -> & HfA & HlA & HnA)]; [now left|right].
  split; [assumption|]. exists r, st', P', A.
  split; [assumption|]. split; [assumption|]. split; [assumption|].
  split; [assumption|]. split; [assumption|]. split; [assumption|].
  split; [assumption|]. split; [assumption|]. split; [assumption|].
  split; assumption.
Qed.

Lemma extend_heap_outcomes_witness :
  let st := block_before_free in
  let bs := [(20, true); (108, false)] in
  (mem_max_addr st < mem_brk st + 4 * 64 /\
   extend_heap 64 st = Some (NULL, st)) \/
  (mem_brk st + 4 * 64 <= mem_max_addr st /\
   exists r st' P' A,
     extend_heap 64 st = Some (r, st') /\
     bs = P' ++ A /\ all_free A /\ (length A <= 1)%nat /\
     (A = [] -> snd (last bs (0, true)) = true) /\
     r = heap_listp st + 4 * total P' /\
     wf_with st' (P' ++ [(total A + 64, false)]) /\
     mem_brk st' = mem_brk st + 4 * 64 /\
     heap_listp st' = heap_listp st /\ mem_max_addr st' = mem_max_addr st /\
     keeps nowhere (heap_listp st) (mem st) (mem st')
           bs (P' ++ [(total A + 64, false)])).
Proof.
  intros st bs. apply (extend_heap_outcomes st bs 64).
  - apply check_heap_sound. vm_compute. reflexivity.
  - unfold MIN_BLOCK_SIZE_WORDS. lia.
  - lia.
Defined.

(** ** The segregated free lists *)

Lemma In_concat_nth (x : Z) l : In x (concat l) -> exists i, In x (nth i l []).
Proof.
  intros H. apply in_concat in H. destruct H as (li & Hli & Hx).
  destruct (In_nth _ _ [] Hli) as (i & _ & Hi). exists i. now rewrite Hi.
Qed.

(** X17: in every state reached from [mm_init] by public operations on
    valid arguments, the free lists are sorted by size class: every block
    on the list of index [i] is a free block whose size, classified as
    [segregatedListAdd] does, has class [i]; every free block of the heap
    is on the list of its size class; and no block is listed twice. *)
Theorem free_lists_sorted_by_class st :
  reachable st ->
  exists bs, wf_with st bs /\
    (forall i x, In x (nth i (segregatedList st) []) ->
       (exists s, lookup (heap_listp st) bs x = Some (s, false)) /\
       blk_free (mem st) x = true /\
       size_class (to_int (blk_size (mem st) x)) = i) /\
    (forall x b, lookup (heap_listp st) bs x = Some b ->
       blk_free (mem st) x = true ->
       In x (nth (size_class (to_int (blk_size (mem st) x))) (segregatedList st) [])) /\
    NoDup (concat (segregatedList st)).
Proof.
  intros Hreach. destruct (reachable_reachable_from _ Hreach) as [st0 Hfrom].
  destruct (reachable_from_tidy _ _ Hfrom) as ((bs & Hwf & _ & _ & Hb) & _).
  exists bs. split; [assumption|].
  assert (Htag : forall x s, lookup (heap_listp st) bs x = Some (s, false) ->
            blk_free (mem st) x = true /\ to_int (blk_size (mem st) x) = s).
  { intros x s Hlk. destruct (wf_block_tag st bs x _ Hwf Hlk) as (Hh & Hs & _).
    unfold tag_of in Hh. cbn [fst snd] in Hh, Hs. unfold MIN_BLOCK_SIZE_WORDS in Hs.
    split; [apply (blk_free_tag _ _ _ _ Hh)|].
    rewrite (blk_size_tag _ _ _ _ Hh) by lia. apply to_int_small. lia. }
  split; [|split].
  - intros i x Hx. destruct (Hb i x Hx) as (s & Hlk & Hc).
    destruct (Htag x s Hlk) as [Hf Es].
    split; [now exists s|]. split; [assumption|]. now rewrite Es.
  - intros x [s u] Hlk Hfree.
    destruct (wf_block_tag st bs x _ Hwf Hlk) as (Hh & _).
    unfold tag_of in Hh. cbn [fst snd] in Hh.
    rewrite (blk_free_tag _ _ _ _ Hh) in Hfree. apply negb_true_iff in Hfree. subst u.
    destruct (Htag x s Hlk) as [_ ->].
    destruct Hwf as (_ & (_ & _ & Hl) & _).
    assert (Hin : In x (concat (segregatedList st))) by (apply Hl; now exists s).
    destruct (In_concat_nth _ _ Hin) as (i & Hi).
    destruct (Hb i x Hi) as (s' & Hlk' & Hc). rewrite Hlk in Hlk'.
    injection Hlk' as <-. now rewrite Hc.
  - apply Hwf.
Qed.

Lemma free_lists_sorted_by_class_witness :
  let st := state_after mm_init arena in
  exists bs, wf_with st bs /\
    (forall i x, In x (nth i (segregatedList st) []) ->
       (exists s, lookup (heap_listp st) bs x = Some (s, false)) /\
       blk_free (mem st) x = true /\
       size_class (to_int (blk_size (mem st) x)) = i) /\
    (forall x b, lookup (heap_listp st) bs x = Some b ->
       blk_free (mem st) x = true ->
       In x (nth (size_class (to_int (blk_size (mem st) x))) (segregatedList st) [])) /\
    NoDup (concat (segregatedList st)).
Proof.
  intros st. apply (free_lists_sorted_by_class st).
  apply (reach_init arena); [exact fresh_arena | vm_compute; reflexivity].
Defined.

(** ** Allocating, then freeing *)

Lemma last_app_cons {A} (X : list A) a Y d : last (X ++ a :: Y) d = last (a :: Y) d.
Proof.
  induction X as [|x X IH]; [reflexivity|].
  cbn [app]. rewrite <- IH. destruct (X ++ a :: Y) eqn:E; [|reflexivity].
  destruct X; discriminate.
Qed.

Lemma split_unique (X X' : list blockd) x x' Y Y' :
  sizes_ok (X ++ x :: Y) ->
  X ++ x :: Y = X' ++ x' :: Y' -> total X = total X' ->
  X = X' /\ x = x' /\ Y = Y'.
Proof.
  revert X'. induction X as [|a X IH]; intros X' Hs He Ht.
  - destruct X' as [|a' X'].
    + cbn [app] in He. injection He as -> ->. auto.
    + exfalso. rewrite He in Hs. apply sizes_ok_app in Hs. destruct Hs as [Hs _].
      inversion Hs as [|? ? Ha HX']; subst. pose proof (total_nonneg _ HX').
      cbn [total] in Ht. unfold MIN_BLOCK_SIZE_WORDS in Ha. lia.
  - destruct X' as [|a' X'].
    + exfalso. apply sizes_ok_app in Hs. destruct Hs as [Hs _].
      inversion Hs as [|? ? Ha HX]; subst. pose proof (total_nonneg _ HX).
      cbn [total] in Ht. unfold MIN_BLOCK_SIZE_WORDS in Ha. lia.
    + cbn [app] in He. injection He as -> He. cbn [total] in Ht.
      inversion Hs as [|? ? _ Hs']; subst.
      destruct (IH X' Hs' He ltac:(lia)) as (-> & -> & ->). auto.
Qed.

(** X18: allocating and freeing at once is a round trip on the layout.  In
    a well-formed heap without two adjacent free blocks, when [mm_malloc]
    succeeds without growing the arena, [mm_free] of its result returns and
    leaves a well-formed heap with exactly the blocks there were before the
    allocation, and the payload of every allocated block unchanged. *)
Theorem malloc_then_free_restores_layout st bs sz r st1 :
  wf_with st bs -> no_adj_free bs -> 0 <= sz < 2 ^ 64 ->
  mm_malloc sz st = Some (r, st1) -> r <> NULL -> mem_brk st1 = mem_brk st ->
  exists st2,
    mm_free r st1 = Some (tt, st2) /\
    wf_with st2 bs /\ same_env st st2 /\
    keeps nowhere (heap_listp st) (mem st) (mem st2) bs bs.
Proof.
  intros Hwf Hn Hsz Hrun Hr Hbrk.
  destruct (mm_malloc_shape st bs sz Hwf Hsz)
    as (r' & st' & Hrun' & [(-> & _)|(_ & _ & bs1 & s1 & Hwf1 & Hlk1 & _ & Hfresh & Eh1 & Em1
                                      & Hk1 & _ & _ & _ & _ & _ & P & c & Q & Hbs & -> & Er & Hac)]).
  { rewrite Hrun in Hrun'. injection Hrun' as ->. contradiction. }
  rewrite Hrun in Hrun'. injection Hrun' as <- <-.
  specialize (Hbs Hbrk). subst bs.
  rewrite <- Eh1 in Hlk1.
  destruct (mm_free_shape st1 _ r s1 Hwf1 Hlk1)
    as (st2 & P2 & s2 & Q2 & Hfree & Hwf2 & _ & (Eh2 & Eb2 & Em2) & Hk2 & _ & _
        & A & B & HAB & Es2 & HfA & HfB & HlA & HlB & HnA & HnB & Epos).
  rewrite Eh1 in Epos.
  assert (Ht : total P = total (P2 ++ A)) by lia.
  apply no_adj_free_app in Hn. cbn [no_adj_free hd snd] in Hn.
  destruct Hn as (_ & ([Hc|HQ] & _) & [HP|Hc']); try discriminate.
  pose proof (hk_sizes _ _ _ _ _ (proj1 Hwf1)) as Hs1.
  assert (Hshape : P2 = P /\ A = [] /\
                   (s1, true) :: B ++ Q2 = placed (malloc_words sz) c ++ Q).
  { unfold placed in *.
    destruct (c - malloc_words sz >=? MIN_BLOCK_SIZE_WORDS); cbn [app] in HAB, Hs1.
    - destruct (split_unique _ _ _ _ _ _ Hs1 HAB Ht) as (EP & Ex & EY).
      assert (A = []).
      { destruct A as [|a0 A']; [reflexivity|]. exfalso.
        rewrite EP in HP. rewrite last_app_cons in HP.
        rewrite all_free_last in HP by (assumption || discriminate). discriminate. }
      subst A. rewrite app_nil_r in EP. subst P2.
      split; [reflexivity|]. split; [reflexivity|]. rewrite <- Ex, <- EY. reflexivity.
    - destruct (split_unique _ _ _ _ _ _ Hs1 HAB Ht) as (EP & Ex & EY).
      assert (A = []).
      { destruct A as [|a0 A']; [reflexivity|]. exfalso.
        rewrite EP in HP. rewrite last_app_cons in HP.
        rewrite all_free_last in HP by (assumption || discriminate). discriminate. }
      subst A. rewrite app_nil_r in EP. subst P2.
      split; [reflexivity|]. split; [reflexivity|]. rewrite <- Ex, <- EY. reflexivity. }
  destruct Hshape as (-> & -> & Hrest). cbn [total] in Es2.
  assert (Hback : s2 = c /\ Q2 = Q).
  { unfold placed in Hrest.
    destruct (c - malloc_words sz >=? MIN_BLOCK_SIZE_WORDS); cbn [app] in Hrest.
    - injection Hrest as -> Hrest.
      destruct B as [|b0 B'].
      + exfalso. specialize (HlB eq_refl). cbn [app] in Hrest, HlB. rewrite Hrest in HlB.
        discriminate.
      + destruct B' as [|b1 B'']; [|cbn [length] in HnB; lia].
        cbn [app] in Hrest. injection Hrest as -> ->. cbn [total fst] in Es2.
        split; [lia|reflexivity].
    - injection Hrest as -> Hrest.
      destruct B as [|b0 B'].
      + cbn [app] in Hrest. cbn [total] in Es2. split; [lia|assumption].
      + exfalso. cbn [app] in Hrest. rewrite <- Hrest in HQ.
        inversion HfB as [|? ? Hb0 _]; subst. cbn [hd] in HQ. congruence. }
  destruct Hback as [-> ->].
  exists st2. split; [assumption|]. split; [assumption|].
  split; [repeat split; congruence|].
  intros x s Hx _.
  destruct (Hk1 x s Hx ltac:(tauto)) as [Hx1 Hb1].
  assert (Hne : x <> r - 4) by (intros ->; exact (Hfresh s Hx)).
  rewrite Eh1 in Hk2.
  destruct (Hk2 x s Hx1 ltac:(congruence)) as [Hx2 Hb2].
  split; [assumption|]. intros y Hy. rewrite Hb2, Hb1 by assumption. reflexivity.
Qed.

Lemma malloc_then_free_restores_layout_witness :
  let st := block_before_free in
  let bs := [(20, true); (108, false)] in
  let st1 := state_after (mm_malloc 100) st in
  exists st2,
    mm_free 4192 st1 = Some (tt, st2) /\
    wf_with st2 bs /\ same_env st st2 /\
    keeps nowhere (heap_listp st) (mem st) (mem st2) bs bs.
Proof.
  intros st bs st1. apply (malloc_then_free_restores_layout st bs 100 4192 st1).
  - apply check_heap_sound. vm_compute. reflexivity.
  - cbn. auto.
  - lia.
  - unfold st1. unfold state_after.
    destruct (mm_malloc 100 st) as [[r0 st0]|] eqn:E.
    + f_equal. f_equal.
      assert (Hr : result_of (mm_malloc 100) st = Some 4192) by (vm_compute; reflexivity).
      unfold result_of in Hr. rewrite E in Hr. congruence.
    + assert (Hr : result_of (mm_malloc 100) st = Some 4192) by (vm_compute; reflexivity).
      unfold result_of in Hr. rewrite E in Hr. discriminate.
  - unfold NULL. lia.
  - vm_compute. reflexivity.
Defined.

(** ** Freeing, then allocating *)

Lemma check_buckets_sound h bs l : check_buckets h bs l = true -> buckets_ok h bs l.
Proof.
  intros H i x Hx. unfold check_buckets in H. rewrite forallb_forall in H.
  destruct (Nat.lt_ge_cases i (length l)) as [Hlt|Hge].
  - specialize (H i ltac:(apply in_seq; lia)). rewrite forallb_forall in H.
    specialize (H x Hx). destruct (lookup h bs x) as [[s [|]]|]; try discriminate.
    exists s. split; [reflexivity|]. now apply Nat.eqb_eq.
  - rewrite nth_overflow in Hx by assumption. contradiction.
Qed.


Lemma size_class_mono s1 s2 : s1 <= s2 -> (size_class s1 <= size_class s2)%nat.
Proof.
  intros H. unfold size_class.
  repeat match goal with
         | |- context [?x <=? ?y] => destruct (Z.leb_spec x y)
         end; lia.
Qed.

Lemma scan_list_none m asize count es :
  (forall e, In e es -> fits m asize e = false) ->
  scan_list m asize count es = None.
Proof.
  revert count. induction es as [|e es IH]; intros count H; cbn [scan_list];
    [reflexivity|].
  destruct (count + 1 >=? 5); [reflexivity|].
  pose proof (H e ltac:(now left)) as He. unfold fits in He. rewrite He.
  apply IH. intros e' He'. apply H. now right.
Qed.

(** The fit search returns the front of list [k] when it fits and no block
    of an earlier list does. *)
Lemma scan_classes_first m asize lists k r rest n j :
  (j <= k < j + n)%nat ->
  (forall i e, (j <= i < k)%nat -> In e (nth i lists []) -> fits m asize e = false) ->
  nth k lists [] = r :: rest -> fits m asize r = true ->
  scan_classes m asize lists (seq j n) = r.
Proof.
  revert j. induction n as [|n IH]; intros j Hk Hno Hnth Hfit; [lia|].
  cbn [seq scan_classes].
  destruct (Nat.eq_dec j k) as [->|Hne].
  - rewrite Hnth. cbn [scan_list]. change (0 + 1 >=? 5) with false. cbv iota.
    unfold fits in Hfit. rewrite Hfit. reflexivity.
  - rewrite scan_list_none by (intros e He; apply (Hno j e); [lia|assumption]).
    apply IH; try assumption; [lia|].
    intros i e Hi. apply Hno. lia.
Qed.

(** X19: a freed block is reused at once.  After [mm_free] of an allocated
    block, in a well-formed heap whose free lists are sorted by size class,
    the block lies in a free block [r] of size [s'] that is the front of
    the list of its class: list [size_class s'] reads [r :: rest].  A
    request that this free block can hold, and whose adjusted size is of
    the same size class and does not overflow, is then served by
    [mm_malloc] from that very block.  When the block before the freed one
    is in use, the pointer returned is the pointer that was freed. *)
Theorem free_then_malloc_reuses st bs ptr s :
  wf_with st bs ->
  buckets_ok (heap_listp st) bs (segregatedList st) ->
  lookup (heap_listp st) bs (ptr - 4) = Some (s, true) ->
  exists st1 r s' rest,
    mm_free ptr st = Some (tt, st1) /\
    blk_free (mem st1) r = true /\ blk_size (mem st1) r = s' /\
    (r <= ptr - 4 /\ ptr - 4 + 4 * s <= r + 4 * s') /\
    nth (size_class s') (segregatedList st1) [] = r :: rest /\
    (inuse (load_tag (mem st) (prev_blk_footer (ptr - 4))) = true -> r = ptr - 4) /\
    forall n, 0 < n < 2 ^ 64 ->
      ~ block_bytes (malloc_size n) < malloc_size n ->
      malloc_words n <= s' ->
      size_class (malloc_words n) = size_class s' ->
      exists st2, mm_malloc n st1 = Some (payload r, st2).
Proof.
  intros Hwf Hb Hlk.
  destruct (mm_free_shape st bs ptr s Hwf Hlk)
    as (st1 & P' & s' & Q' & Hfree & Hwf1 & (Hlo & Hhi) & (Eh & _) & _ & Hbf
        & (rest & Hfront) & A & B & HAB & Es' & HfA & _ & _ & _ & _ & _ & Epos).
  specialize (Hbf Hb). rewrite <- Eh in Hbf.
  set (r := heap_listp st + 4 * total P') in *.
  assert (Hlr : lookup (heap_listp st1) (P' ++ (s', false) :: Q') r = Some (s', false)).
  { unfold r. rewrite Eh. apply lookup_mid.
    pose proof (hk_sizes _ _ _ _ _ (proj1 Hwf1)) as Hs. apply sizes_ok_app in Hs. tauto. }
  destruct (wf_block_tag st1 _ r _ Hwf1 Hlr) as (Hh & Hs' & Hr16 & Hrbrk & Htop).
  unfold tag_of in Hh. cbn [fst snd] in Hh, Hs', Hrbrk. unfold MIN_BLOCK_SIZE_WORDS in Hs'.
  exists st1, r, s', rest. split; [assumption|].
  split; [apply (blk_free_tag _ _ _ _ Hh)|].
  split; [apply (blk_size_tag _ _ _ _ Hh); lia|].
  split; [split; assumption|]. split; [exact Hfront|]. split.
  - (* the predecessor in use: nothing was merged before the block *)
    intros Hprev. subst bs. pose proof Hwf as (Hok & _).
    pose proof (heap_ok_at _ _ _ _ _ _ _ Hok) as
      (_ & _ & Hp & _ & Hs0 & Hb16 & Hbrk0 & Hmax0 & _).
    rewrite <- Epos in Hp, Hb16, Hbrk0. cbn [fst] in Hs0, Hbrk0.
    unfold MIN_BLOCK_SIZE_WORDS in Hs0.
    unfold prev_blk_footer, WSIZE in Hprev. rewrite ptr_sub_small in Hprev by lia.
    rewrite Hp in Hprev. unfold tag_of in Hprev. cbn [inuse] in Hprev.
    destruct A as [|a0 A'].
    + rewrite app_nil_r in Epos. unfold r. lia.
    + exfalso. rewrite last_app_cons in Hprev.
      rewrite all_free_last in Hprev by (assumption || discriminate). discriminate.
  - intros n Hn Hnov Hfits Hclass.
    assert (Hfind : find_fit (malloc_words n) st1 = Some (r, st1)).
    {
      assert (Hpos : 0 < malloc_words n).
      { unfold malloc_words, block_words, MIN_BLOCK_SIZE_WORDS. rewrite max_spec. lia. }
      rewrite find_fit_run by assumption. f_equal. f_equal.
      apply (scan_classes_first _ _ _ (size_class s') r rest).
      - pose proof (size_class_bound s'). lia.
      - intros i e Hi He. destruct (Hbf i e He) as (se & Hle & Hce).
        destruct (wf_block_tag st1 _ e _ Hwf1 Hle) as (Hhe & Hse & _).
        unfold tag_of in Hhe. cbn [fst snd] in Hhe, Hse.
        unfold MIN_BLOCK_SIZE_WORDS in Hse.
        unfold fits. rewrite (blk_size_tag _ _ _ _ Hhe) by lia.
        destruct (Z.leb_spec (malloc_words n) se) as [Hle'|_]; [|apply andb_false_r].
        exfalso. apply size_class_mono in Hle'. lia.
      - assumption.
      - unfold fits. rewrite (blk_free_tag _ _ _ _ Hh).
        rewrite (blk_size_tag _ _ _ _ Hh) by lia. cbn [negb andb].
        now apply Z.leb_le. }
    destruct (mm_malloc_shape st1 _ n Hwf1 ltac:(lia))
      as (r' & st2 & Hrun & [(_ & _ & Hfail)|(_ & _ & bs2 & s2 & _ & _ & _ & _ & _ & _ & _ & _
                                             & (r0 & Hfind0 & Hcase) & _)]).
    + exfalso. destruct Hfail as [H0|[Hov|(Hnull & _)]]; [lia|contradiction|].
      fold (malloc_words n) in Hnull. rewrite Hfind in Hnull.
      injection Hnull as Hnull. unfold NULL in Hnull. lia.
    + rewrite Hfind in Hfind0. injection Hfind0 as <-.
      destruct Hcase as [(_ & -> & _)|(E & _)]; [|unfold NULL in E; lia].
      exists st2. rewrite payload_small by lia. exact Hrun.
Qed.

Lemma free_then_malloc_reuses_witness :
  let st := block_at_edge in
  let bs := [(128, true)] in
  exists st1 r s' rest,
    mm_free 4112 st = Some (tt, st1) /\
    blk_free (mem st1) r = true /\ blk_size (mem st1) r = s' /\
    (r <= 4112 - 4 /\ 4112 - 4 + 4 * 128 <= r + 4 * s') /\
    nth (size_class s') (segregatedList st1) [] = r :: rest /\
    (inuse (load_tag (mem st) (prev_blk_footer (4112 - 4))) = true -> r = 4112 - 4) /\
    forall n, 0 < n < 2 ^ 64 ->
      ~ block_bytes (malloc_size n) < malloc_size n ->
      malloc_words n <= s' ->
      size_class (malloc_words n) = size_class s' ->
      exists st2, mm_malloc n st1 = Some (payload r, st2).
Proof.
  intros st bs. apply (free_then_malloc_reuses st bs 4112 128).
  - apply check_heap_sound. vm_compute. reflexivity.
  - apply check_buckets_sound. vm_compute. reflexivity.
  - vm_compute. reflexivity.
Defined.

(** ** The arena over a run of the allocator *)

(** X20: in every state reached from a fresh arena by a successful
    [mm_init] and public operations on valid arguments, the first block is
    where [mm_init] put it, 12 bytes above the start of the arena; memlib's
    limit is the initial one; and the break lies between the first chunk
    and the limit.  Every further operation on valid arguments returns and
    leaves the first block and the limit where they are, and the break
    where it is or higher: the allocator never gives memory back. *)
Theorem arena_never_shrinks st0 st :
  reachable_from st0 st ->
  heap_listp st = mem_brk st0 + 12 /\
  mem_max_addr st = mem_max_addr st0 /\
  mem_brk st0 + 16 + WSIZE * CHUNKSIZE <= mem_brk st <= mem_max_addr st /\
  forall o, valid_op st o ->
    exists r st',
      run_op o st = Some (r, st') /\
      heap_listp st' = heap_listp st /\
      mem_max_addr st' = mem_max_addr st /\
      mem_brk st <= mem_brk st'.
Proof.
  intros Hreach.
  destruct (reachable_from_tidy _ _ Hreach) as (Ht & Eh & Ebk & Emx).
  split; [assumption|]. split; [assumption|]. split.
  - split; [unfold WSIZE; lia|].
    destruct Ht as (bs & (Hok & _) & _). apply (hk_max _ _ _ _ _ Hok).
  - intros o Hv.
    destruct (tidy_step st o Ht Hv) as (r & st' & Hrun & _ & Eh' & _ & Ebk' & Emx').
    exists r, st'. tauto.
Qed.

Lemma arena_never_shrinks_witness :
  let st := state_after mm_init arena in
  heap_listp st = mem_brk arena + 12 /\
  mem_max_addr st = mem_max_addr arena /\
  mem_brk arena + 16 + WSIZE * CHUNKSIZE <= mem_brk st <= mem_max_addr st /\
  forall o, valid_op st o ->
    exists r st',
      run_op o st = Some (r, st') /\
      heap_listp st' = heap_listp st /\
      mem_max_addr st' = mem_max_addr st /\
      mem_brk st <= mem_brk st'.
Proof.
  intros st. apply (arena_never_shrinks arena st).
  apply from_init; [exact fresh_arena | vm_compute; reflexivity].
Defined.
